(** * fluxer.js: gateway session and sliding-window rate limiter

    A shallow embedding of [GatewayClient] (src/gateway/GatewayClient.ts, as
    bundled in src/src/index.ts) and of the sliding-window bucket, with the
    properties the specification states about them.

    Conventions of the embedding.
    - The private fields of the class are the fields of the record [Client],
      under their source names.
    - The Node event loop is made explicit: the pending timers are a list
      ([timers]), the listeners held by the [EventEmitter] are a list
      ([_emitter]), and everything the client does to the outside world is
      appended to a trace ([effects], most recent first).
    - [Date.now()] and [Math.random()] are inputs of each handler ([Env]).
    - Logging calls are left out: the logger is a sink that no field depends
      on.
    - Numbers that the code multiplies by [Math.random()] or scales are exact
      rationals ([Q]); sequence numbers, instants and close codes are
      integers ([Z]). *)

From Stdlib Require Import List String Ascii ZArith QArith Qminmax Bool Arith
  Lia Lqa Sorted DecimalString.
Import ListNotations.
Close Scope Q_scope.

Set Implicit Arguments.

(** ** Generic list helpers *)

Section ListHelpers.
Context {A : Type}.

(** Number of elements satisfying [p]. *)
Definition count (p : A -> bool) (l : list A) : nat :=
  List.length (filter p l).

(** Remove the last element satisfying [p], as [EventEmitter.off] does for
    the most recently added matching listener. *)
Fixpoint remove_last (p : A -> bool) (l : list A) : list A :=
  match l with
  | [] => []
  | x :: r => if p x && negb (existsb p r) then r else x :: remove_last p r
  end.

(** Remove the first element satisfying [p]. *)
Fixpoint remove_first (p : A -> bool) (l : list A) : list A :=
  match l with
  | [] => []
  | x :: r => if p x then r else x :: remove_first p r
  end.

End ListHelpers.

(** ** Wire data *)

(** JSON values as [JSON.parse] produces them, plus [undefined] for an
    absent property. Numbers carried by frames are integers. *)
#[warnings="-register-all"]
Inductive Json :=
| JUndefined
| JNull
| JBool (b : bool)
| JNum (n : Z)
| JStr (s : string)
| JObj (fields : list (string * Json)).

Fixpoint assoc (k : string) (fs : list (string * Json)) : option Json :=
  match fs with
  | [] => None
  | (k', v) :: r => if String.eqb k k' then Some v else assoc k r
  end.

(** [j.k] *)
Definition prop (k : string) (j : Json) : Json :=
  match j with
  | JObj fs => match assoc k fs with Some v => v | None => JUndefined end
  | _ => JUndefined
  end.

(** JavaScript truthiness, used by [!resumable]. *)
Definition truthy (j : Json) : bool :=
  match j with
  | JUndefined | JNull => false
  | JBool b => b
  | JNum n => negb (n =? 0)%Z
  | JStr s => negb (String.eqb s EmptyString)
  | JObj _ => true
  end.

(** [FluxorOpCode] (gateway/opcodes.ts). The numeric values are not needed:
    the client only switches on the members, which are modelled as an
    enumeration; [UnknownOp] stands for every other number on the wire. *)
Inductive FluxorOpCode :=
| Dispatch | Heartbeat | Identify | PresenceUpdate | VoiceStateUpdate
| Resume | Reconnect | RequestGuildMembers | InvalidSession | Hello
| HeartbeatAck | CallConnect | GuildSubscriptions
| UnknownOp (n : Z).

(** [GatewayPacket]: [{ op, d, s, t }]. [s] and [t] are [None] when they are
    [null] or [undefined]. *)
Record GatewayPacket := {
  op : FluxorOpCode;
  d : Json;
  s : option Z;
  t : option string
}.

(** Outbound frames, as handed to [_send] before [JSON.stringify]. The
    constant [properties] block of IDENTIFY is left out. *)
Inductive Frame :=
| FHeartbeat (seq : option Z)                 (* d: this._sequence || null *)
| FIdentify (token : string) (presence : Json) (ignored : option (list string))
| FResume (token : string) (session_id : string) (seq : Z)
| FControl (o : FluxorOpCode) (payload : Json).

(** ** Close codes *)

(** Modelled from the spec: gateway/closeCodes.ts is not part of the sources
    at hand. The three members used by [_handleCloseCode] carry the values
    its call site names ("Close code session cleanup (4004/4007/4009)") and
    the close-code table of the gateway documentation lists. *)
Module FluxorCloseCode.
Definition AuthenticationFailed : Z := 4004.
Definition InvalidSequence : Z := 4007.
Definition SessionTimedOut : Z := 4009.
Definition InvalidShard : Z := 4010.
Definition ShardingRequired : Z := 4011.
Definition InvalidApiVersion : Z := 4012.
Definition InvalidIntents : Z := 4013.
Definition DisallowedIntents : Z := 4014.
End FluxorCloseCode.

(** Modelled from the spec: [shouldReconnect] of gateway/closeCodes.ts, after
    the close-code table of the gateway documentation: authentication
    failure, sharding errors, invalid API version and invalid or disallowed
    intents are terminal, every other code reconnects. *)
Definition shouldReconnect (code : Z) : bool :=
  negb (existsb (Z.eqb code)
          [FluxorCloseCode.AuthenticationFailed;
           FluxorCloseCode.InvalidShard;
           FluxorCloseCode.ShardingRequired;
           FluxorCloseCode.InvalidApiVersion;
           FluxorCloseCode.InvalidIntents;
           FluxorCloseCode.DisallowedIntents]).

(** ** Client state *)

(** The part of [resolveConfig(config)] the gateway reads.
    [maxReconnectAttempts = None] is [Infinity], [ignoredGatewayEvents = None]
    is [undefined]; [gatewayToken] is [getGatewayToken(this.token)]. *)
Record Config := {
  gatewayUrl : string;
  gatewayToken : string;
  reconnectDelay : Q;
  maxReconnectAttempts : option nat;
  ignoredGatewayEvents : option (list string);
  presence : Json
}.

(** [WebSocket.readyState] *)
Inductive ReadyState := CONNECTING | OPEN | CLOSING | CLOSED.

(** What is registered on the [EventEmitter]. *)
Inductive Listener :=
| LUser (fn : nat) (once : bool)   (* a caller's function, via on / once *)
| LWait (w : nat) (filter : option (Json -> bool))
                                   (* [handler] of the [waitFor] call [w] *)
| LNoop.                           (* the constructor's "error" sink *)

(** Pending timers of the event loop. *)
Inductive Timer :=
| TmReconnect (delayMs : Q)                  (* setTimeout in _scheduleReconnect *)
| TmFirstBeat (intervalMs : Z) (jitter : Q)  (* setTimeout in _startHeartbeat *)
| TmBeat (handle : nat) (intervalMs : Z)     (* setInterval in _startHeartbeat *)
| TmWaitFor (w : nat) (event : string) (timeout : Q). (* setTimeout in waitFor *)

(** What the client does to the outside world. *)
Inductive Effect :=
| ESend (f : Frame)                        (* this._ws.send(json) *)
| EEmit (event : string) (payload : Json)  (* this._emitter.emit(event, payload) *)
| ESocketNew (url : string)                (* new WebSocket(url) *)
| ESocketClose (code : Z) (reason : string)(* this._ws.close(code, reason) *)
| EConnect                                 (* connect() was entered *)
| EResolve (w : nat) (data : Json)         (* resolve(data) of waitFor call w *)
| EReject (w : nat) (event : string) (timeout : Q).
                                           (* reject(new Error(...timed out...)) *)

(** What the runtime answers during one turn of the event loop: [Date.now()],
    [Math.random()], and whether [new WebSocket(url)] returns ([true]) or
    throws ([false]), as the constructor does for a URL it does not accept. *)
Record Env := { now : Z; random : Q; constructs : bool }.

Record Client := {
  _config : Config;
  _ws : option ReadyState;
  _sequence : Z;
  _sessionId : string;
  _heartbeatInterval : option nat;
  _heartbeatAcked : bool;
  _heartbeatSentAt : Z;
  _lastPing : Z;
  _reconnectAttempts : nat;
  _isConnecting : bool;
  _isReconnecting : bool;
  _destroyed : bool;
  _emitter : list (string * Listener);
  timers : list Timer;
  nextHandle : nat;
  effects : list Effect
}.

(** Field updates. *)
Definition set_ws v c := {| _config := _config c; _ws := v; _sequence := _sequence c; _sessionId := _sessionId c; _heartbeatInterval := _heartbeatInterval c; _heartbeatAcked := _heartbeatAcked c; _heartbeatSentAt := _heartbeatSentAt c; _lastPing := _lastPing c; _reconnectAttempts := _reconnectAttempts c; _isConnecting := _isConnecting c; _isReconnecting := _isReconnecting c; _destroyed := _destroyed c; _emitter := _emitter c; timers := timers c; nextHandle := nextHandle c; effects := effects c |}.
Definition set_sequence v c := {| _config := _config c; _ws := _ws c; _sequence := v; _sessionId := _sessionId c; _heartbeatInterval := _heartbeatInterval c; _heartbeatAcked := _heartbeatAcked c; _heartbeatSentAt := _heartbeatSentAt c; _lastPing := _lastPing c; _reconnectAttempts := _reconnectAttempts c; _isConnecting := _isConnecting c; _isReconnecting := _isReconnecting c; _destroyed := _destroyed c; _emitter := _emitter c; timers := timers c; nextHandle := nextHandle c; effects := effects c |}.
Definition set_sessionId v c := {| _config := _config c; _ws := _ws c; _sequence := _sequence c; _sessionId := v; _heartbeatInterval := _heartbeatInterval c; _heartbeatAcked := _heartbeatAcked c; _heartbeatSentAt := _heartbeatSentAt c; _lastPing := _lastPing c; _reconnectAttempts := _reconnectAttempts c; _isConnecting := _isConnecting c; _isReconnecting := _isReconnecting c; _destroyed := _destroyed c; _emitter := _emitter c; timers := timers c; nextHandle := nextHandle c; effects := effects c |}.
Definition set_heartbeatInterval v c := {| _config := _config c; _ws := _ws c; _sequence := _sequence c; _sessionId := _sessionId c; _heartbeatInterval := v; _heartbeatAcked := _heartbeatAcked c; _heartbeatSentAt := _heartbeatSentAt c; _lastPing := _lastPing c; _reconnectAttempts := _reconnectAttempts c; _isConnecting := _isConnecting c; _isReconnecting := _isReconnecting c; _destroyed := _destroyed c; _emitter := _emitter c; timers := timers c; nextHandle := nextHandle c; effects := effects c |}.
Definition set_heartbeatAcked v c := {| _config := _config c; _ws := _ws c; _sequence := _sequence c; _sessionId := _sessionId c; _heartbeatInterval := _heartbeatInterval c; _heartbeatAcked := v; _heartbeatSentAt := _heartbeatSentAt c; _lastPing := _lastPing c; _reconnectAttempts := _reconnectAttempts c; _isConnecting := _isConnecting c; _isReconnecting := _isReconnecting c; _destroyed := _destroyed c; _emitter := _emitter c; timers := timers c; nextHandle := nextHandle c; effects := effects c |}.
Definition set_heartbeatSentAt v c := {| _config := _config c; _ws := _ws c; _sequence := _sequence c; _sessionId := _sessionId c; _heartbeatInterval := _heartbeatInterval c; _heartbeatAcked := _heartbeatAcked c; _heartbeatSentAt := v; _lastPing := _lastPing c; _reconnectAttempts := _reconnectAttempts c; _isConnecting := _isConnecting c; _isReconnecting := _isReconnecting c; _destroyed := _destroyed c; _emitter := _emitter c; timers := timers c; nextHandle := nextHandle c; effects := effects c |}.
Definition set_lastPing v c := {| _config := _config c; _ws := _ws c; _sequence := _sequence c; _sessionId := _sessionId c; _heartbeatInterval := _heartbeatInterval c; _heartbeatAcked := _heartbeatAcked c; _heartbeatSentAt := _heartbeatSentAt c; _lastPing := v; _reconnectAttempts := _reconnectAttempts c; _isConnecting := _isConnecting c; _isReconnecting := _isReconnecting c; _destroyed := _destroyed c; _emitter := _emitter c; timers := timers c; nextHandle := nextHandle c; effects := effects c |}.
Definition set_reconnectAttempts v c := {| _config := _config c; _ws := _ws c; _sequence := _sequence c; _sessionId := _sessionId c; _heartbeatInterval := _heartbeatInterval c; _heartbeatAcked := _heartbeatAcked c; _heartbeatSentAt := _heartbeatSentAt c; _lastPing := _lastPing c; _reconnectAttempts := v; _isConnecting := _isConnecting c; _isReconnecting := _isReconnecting c; _destroyed := _destroyed c; _emitter := _emitter c; timers := timers c; nextHandle := nextHandle c; effects := effects c |}.
Definition set_isConnecting v c := {| _config := _config c; _ws := _ws c; _sequence := _sequence c; _sessionId := _sessionId c; _heartbeatInterval := _heartbeatInterval c; _heartbeatAcked := _heartbeatAcked c; _heartbeatSentAt := _heartbeatSentAt c; _lastPing := _lastPing c; _reconnectAttempts := _reconnectAttempts c; _isConnecting := v; _isReconnecting := _isReconnecting c; _destroyed := _destroyed c; _emitter := _emitter c; timers := timers c; nextHandle := nextHandle c; effects := effects c |}.
Definition set_isReconnecting v c := {| _config := _config c; _ws := _ws c; _sequence := _sequence c; _sessionId := _sessionId c; _heartbeatInterval := _heartbeatInterval c; _heartbeatAcked := _heartbeatAcked c; _heartbeatSentAt := _heartbeatSentAt c; _lastPing := _lastPing c; _reconnectAttempts := _reconnectAttempts c; _isConnecting := _isConnecting c; _isReconnecting := v; _destroyed := _destroyed c; _emitter := _emitter c; timers := timers c; nextHandle := nextHandle c; effects := effects c |}.
Definition set_destroyed v c := {| _config := _config c; _ws := _ws c; _sequence := _sequence c; _sessionId := _sessionId c; _heartbeatInterval := _heartbeatInterval c; _heartbeatAcked := _heartbeatAcked c; _heartbeatSentAt := _heartbeatSentAt c; _lastPing := _lastPing c; _reconnectAttempts := _reconnectAttempts c; _isConnecting := _isConnecting c; _isReconnecting := _isReconnecting c; _destroyed := v; _emitter := _emitter c; timers := timers c; nextHandle := nextHandle c; effects := effects c |}.
Definition set_emitter v c := {| _config := _config c; _ws := _ws c; _sequence := _sequence c; _sessionId := _sessionId c; _heartbeatInterval := _heartbeatInterval c; _heartbeatAcked := _heartbeatAcked c; _heartbeatSentAt := _heartbeatSentAt c; _lastPing := _lastPing c; _reconnectAttempts := _reconnectAttempts c; _isConnecting := _isConnecting c; _isReconnecting := _isReconnecting c; _destroyed := _destroyed c; _emitter := v; timers := timers c; nextHandle := nextHandle c; effects := effects c |}.
Definition set_timers v c := {| _config := _config c; _ws := _ws c; _sequence := _sequence c; _sessionId := _sessionId c; _heartbeatInterval := _heartbeatInterval c; _heartbeatAcked := _heartbeatAcked c; _heartbeatSentAt := _heartbeatSentAt c; _lastPing := _lastPing c; _reconnectAttempts := _reconnectAttempts c; _isConnecting := _isConnecting c; _isReconnecting := _isReconnecting c; _destroyed := _destroyed c; _emitter := _emitter c; timers := v; nextHandle := nextHandle c; effects := effects c |}.
Definition set_nextHandle v c := {| _config := _config c; _ws := _ws c; _sequence := _sequence c; _sessionId := _sessionId c; _heartbeatInterval := _heartbeatInterval c; _heartbeatAcked := _heartbeatAcked c; _heartbeatSentAt := _heartbeatSentAt c; _lastPing := _lastPing c; _reconnectAttempts := _reconnectAttempts c; _isConnecting := _isConnecting c; _isReconnecting := _isReconnecting c; _destroyed := _destroyed c; _emitter := _emitter c; timers := timers c; nextHandle := v; effects := effects c |}.
Definition set_effects v c := {| _config := _config c; _ws := _ws c; _sequence := _sequence c; _sessionId := _sessionId c; _heartbeatInterval := _heartbeatInterval c; _heartbeatAcked := _heartbeatAcked c; _heartbeatSentAt := _heartbeatSentAt c; _lastPing := _lastPing c; _reconnectAttempts := _reconnectAttempts c; _isConnecting := _isConnecting c; _isReconnecting := _isReconnecting c; _destroyed := _destroyed c; _emitter := _emitter c; timers := timers c; nextHandle := nextHandle c; effects := v |}.

Definition perform (e : Effect) (c : Client) : Client :=
  set_effects (e :: effects c) c.

Definition setTimer (tm : Timer) (c : Client) : Client :=
  set_timers (timers c ++ [tm]) c.

(** [new GatewayClient(token, config)] *)
Definition init (cfg : Config) : Client :=
  {| _config := cfg;
     _ws := None;
     _sequence := 0%Z;
     _sessionId := EmptyString;
     _heartbeatInterval := None;
     _heartbeatAcked := true;
     _heartbeatSentAt := 0%Z;
     _lastPing := (-1)%Z;
     _reconnectAttempts := 0;
     _isConnecting := false;
     _isReconnecting := false;
     _destroyed := false;
     _emitter := [("error"%string, LNoop)];
     timers := [];
     nextHandle := 0;
     effects := [] |}.

(** ** The event emitter *)

Definition on_event (event : string) (e : string * Listener) : bool :=
  String.eqb (fst e) event.

(** Do [a] and [b] denote the same function object? [off(fn)] also matches
    the wrapper that [once(fn)] registered. *)
Definition same_fn (a b : Listener) : bool :=
  match a, b with
  | LUser f _, LUser g _ => Nat.eqb f g
  | LWait v _, LWait w _ => Nat.eqb v w
  | LNoop, LNoop => true
  | _, _ => false
  end.

(** [this._emitter.on(event, l)] *)
Definition emitter_on (event : string) (l : Listener) (c : Client) : Client :=
  set_emitter (_emitter c ++ [(event, l)]) c.

(** [this._emitter.off(event, l)] *)
Definition emitter_off (event : string) (l : Listener) (c : Client) : Client :=
  set_emitter
    (remove_last (fun e => on_event event e && same_fn l (snd e)) (_emitter c))
    c.

(** [emitter.listenerCount(event)] *)
Definition listenerCount (event : string) (c : Client) : nat :=
  count (on_event event) (_emitter c).

Definition is_wait_timer (w : nat) (tm : Timer) : bool :=
  match tm with TmWaitFor v _ _ => Nat.eqb v w | _ => false end.

(** The closure [cleanup] of the [waitFor] call [w]:
    [this._emitter.off(event, handler); if (timer) clearTimeout(timer)]. *)
Definition waitFor_cleanup (event : string) (w : nat) (c : Client) : Client :=
  let c := emitter_off event (LWait w None) c in
  set_timers (filter (fun tm => negb (is_wait_timer w tm)) (timers c)) c.

(** The closure [handler] of the [waitFor] call [w]. *)
Definition waitFor_handler (event : string) (w : nat)
    (flt : option (Json -> bool)) (data : Json) (c : Client) : Client :=
  if match flt with Some f => negb (f data) | None => false end then c
  else perform (EResolve w data) (waitFor_cleanup event w c).

(** One listener being called by [emit(event, data)]. A caller's function is
    opaque and assumed not to call back into the client; a [once] wrapper
    unregisters itself first. *)
Definition call_listener (event : string) (data : Json) (c : Client)
    (l : Listener) : Client :=
  match l with
  | LUser fn once => if once then emitter_off event l c else c
  | LWait w flt => waitFor_handler event w flt data c
  | LNoop => c
  end.

(** [this._emitter.emit(event, data)]: the listeners registered for [event]
    at the time of the call, in registration order. *)
Definition emit (event : string) (data : Json) (c : Client) : Client :=
  fold_left (call_listener event data)
    (map snd (filter (on_event event) (_emitter c)))
    (perform (EEmit event data) c).

(** ** Public event helpers *)

Definition on (event : string) (fn : nat) (c : Client) : Client :=
  emitter_on event (LUser fn false) c.

Definition once (event : string) (fn : nat) (c : Client) : Client :=
  emitter_on event (LUser fn true) c.

Definition off (event : string) (fn : nat) (c : Client) : Client :=
  emitter_off event (LUser fn false) c.

(** [waitFor(event, { filter, timeout })]. The promise is identified by the
    handle [w = nextHandle c]; its settlement is visible as [EResolve w] or
    [EReject w] in the trace. *)
Definition waitFor (event : string) (flt : option (Json -> bool))
    (timeout : option Q) (c : Client) : Client :=
  let w := nextHandle c in
  let c := set_nextHandle (S w) c in
  let c := emitter_on event (LWait w flt) c in
  match timeout with
  | Some ms =>                     (* timeout !== undefined && timeout > 0 *)
      if negb (Qle_bool ms 0) then setTimer (TmWaitFor w event ms) c else c
  | None => c
  end.

(** The [setTimeout] callback of [waitFor]:
    [cleanup(); reject(new Error(...))]. *)
Definition waitFor_timeout (w : nat) (event : string) (ms : Q) (c : Client)
  : Client :=
  perform (EReject w event ms) (waitFor_cleanup event w c).

(** ** Sending *)

(** [_send(data)]: dropped (with a warning) unless the socket is open. *)
Definition _send (f : Frame) (c : Client) : Client :=
  match _ws c with
  | Some OPEN => perform (ESend f) c
  | _ => c
  end.

Definition updatePresence (p : Json) (c : Client) : Client :=
  _send (FControl PresenceUpdate p) c.

Definition requestGuildMembers (guildId query : string) (limit : Z)
    (c : Client) : Client :=
  _send (FControl RequestGuildMembers
           (JObj [("guild_id", JStr guildId); ("query", JStr query);
                  ("limit", JNum limit)]%string)) c.

Definition updateVoiceState (guildId : string) (channelId : option string)
    (selfMute selfDeaf : bool) (c : Client) : Client :=
  _send (FControl VoiceStateUpdate
           (JObj [("guild_id", JStr guildId);
                  ("channel_id",
                   match channelId with Some i => JStr i | None => JNull end);
                  ("self_mute", JBool selfMute);
                  ("self_deaf", JBool selfDeaf)]%string)) c.

Definition connectCall (channelId : string) (c : Client) : Client :=
  _send (FControl CallConnect (JObj [("channel_id", JStr channelId)]%string)) c.

Definition subscribeGuild (guildId : string) (c : Client) : Client :=
  _send (FControl GuildSubscriptions (JObj [("guild_id", JStr guildId)]%string)) c.

Definition _sendIdentify (c : Client) : Client :=
  _send (FIdentify (gatewayToken (_config c)) (presence (_config c))
           (ignoredGatewayEvents (_config c))) c.

Definition _sendResume (c : Client) : Client :=
  _send (FResume (gatewayToken (_config c)) (_sessionId c) (_sequence c)) c.

(** ** Heartbeat *)

Definition is_beat (h : nat) (tm : Timer) : bool :=
  match tm with TmBeat g _ => Nat.eqb g h | _ => false end.

Definition _stopHeartbeat (c : Client) : Client :=
  match _heartbeatInterval c with
  | Some h =>                                      (* clearInterval(h) *)
      set_heartbeatInterval None
        (set_timers (filter (fun tm => negb (is_beat h tm)) (timers c)) c)
  | None => c
  end.

Definition _sendHeartbeat (e : Env) (c : Client) : Client :=
  let c := set_heartbeatAcked false c in
  let c := set_heartbeatSentAt (now e) c in
  _send (FHeartbeat (if (_sequence c =? 0)%Z then None else Some (_sequence c)))
        c.

(** [_startHeartbeat(intervalMs)]: only the first, jittered [setTimeout] is
    installed here; the interval is installed when that timer fires
    ([first_beat]). *)
Definition _startHeartbeat (e : Env) (intervalMs : Z) (c : Client) : Client :=
  let c := _stopHeartbeat c in
  let c := set_heartbeatAcked true c in
  let jitter := (random e * inject_Z intervalMs)%Q in
  setTimer (TmFirstBeat intervalMs jitter) c.

(** ** Cleanup *)

(** [_cleanup()]. [removeAllListeners()] detaches the client from the socket:
    after it the socket is no longer a source of events, which is what
    [_ws = None] stands for. *)
Definition _cleanup (c : Client) : Client :=
  let c := _stopHeartbeat c in
  match _ws c with
  | Some rs =>
      let c :=
        match rs with
        | OPEN | CONNECTING => perform (ESocketClose 1000 "Client cleanup") c
        | _ => c
        end in
      set_ws None c
  | None => c
  end.

(** ** Reconnection *)

(** [Math.min(Math.pow(2, attempts - 1) * configBase, 60)], in seconds. *)
Definition backoff (configBase : Q) (attempts : nat) : Q :=
  Qmin (inject_Z (2 ^ Z.of_nat (attempts - 1)) * configBase) 60.

(** [Math.random() * 0.3 * backoff] *)
Definition jitter (rnd backoff : Q) : Q := rnd * (3 # 10) * backoff.

(** [(backoff + jitter) * 1000] *)
Definition delayMs (configBase : Q) (attempts : nat) (rnd : Q) : Q :=
  (backoff configBase attempts + jitter rnd (backoff configBase attempts))
  * 1000.

(** [this._reconnectAttempts >= this._config.maxReconnectAttempts] *)
Definition attempts_exhausted (c : Client) : bool :=
  match maxReconnectAttempts (_config c) with
  | Some m => m <=? _reconnectAttempts c
  | None => false
  end.

(** [_scheduleReconnect()]: the [setTimeout] callback is [reconnect_timeout]
    below. *)
Definition _scheduleReconnect (e : Env) (c : Client) : Client :=
  if _destroyed c then c
  else if _isReconnecting c then c
  else
    let c := set_isReconnecting true c in
    if attempts_exhausted c then set_isReconnecting false c
    else
      let c := set_reconnectAttempts (S (_reconnectAttempts c)) c in
      setTimer
        (TmReconnect
           (delayMs (reconnectDelay (_config c)) (_reconnectAttempts c)
              (random e)))
        c.

(** ** Connection lifecycle *)

(** [connect()], up to the point where it awaits the handshake. The handlers
    it installs on the socket are [_handleMessage] and [ws_close] below.
    When [new WebSocket(url)] returns, the promise that is awaited is settled
    only by handlers that have already reset [_isConnecting], so the
    [finally] block changes nothing further. When the constructor throws,
    [_ws] is not assigned, the awaited promise rejects and the [finally]
    block resets [_isConnecting]; the promise of [connect()] rejects. *)
Definition connect (e : Env) (c : Client) : Client :=
  let c := perform EConnect c in
  if _isConnecting c then c
  else
    let c := set_isConnecting true c in
    let c := set_destroyed false c in
    let c := _cleanup c in
    if constructs e then
      set_ws (Some CONNECTING)
        (perform (ESocketNew (gatewayUrl (_config c))) c)
    else set_isConnecting false c.

Definition destroy (c : Client) : Client :=
  _cleanup (set_destroyed true c).

(** The [setTimeout] callback of [_scheduleReconnect]. *)
Definition reconnect_timeout (e : Env) (c : Client) : Client :=
  let c := set_isReconnecting false c in
  if _destroyed c then c else connect e c.

(** ** Message handling *)

(** [data.heartbeat_interval] of a HELLO payload ([HelloData]). Reading a
    property of [null] or [undefined] throws a TypeError: [None]. A value
    that is not a number reads as 0. *)
Definition heartbeat_interval (data : Json) : option Z :=
  match data with
  | JNull | JUndefined => None
  | _ =>
      Some match prop "heartbeat_interval" data with
           | JNum n => n
           | _ => 0%Z
           end
  end.

(** [ready?.session_id ?? <empty string>] *)
Definition session_id (ready : Json) : string :=
  match prop "session_id" ready with
  | JStr i => i
  | _ => EmptyString
  end.

(** [_handleHello(data)]; [None] when it throws, which it does at its first
    statement, before it has changed anything. *)
Definition _handleHello (e : Env) (data : Json) (c : Client)
  : option Client :=
  match heartbeat_interval data with
  | None => None
  | Some interval =>
      let c := _startHeartbeat e interval c in
      Some (if String.eqb (_sessionId c) EmptyString then _sendIdentify c
            else _sendResume c)
  end.

(** [this._config.ignoredGatewayEvents?.includes(eventName)] *)
Definition ignored (c : Client) (eventName : string) : bool :=
  match ignoredGatewayEvents (_config c) with
  | Some l => existsb (String.eqb eventName) l
  | None => false
  end.

(** [_handleDispatch(packet, onReady)]. [onReady] settles the promise of
    [connect()], which has no further effect on the client. *)
Definition _handleDispatch (packet : GatewayPacket) (c : Client) : Client :=
  match t packet with
  | None => c
  | Some eventName =>
      if String.eqb eventName EmptyString then c
      else if ignored c eventName then c
      else
        let c :=
          emit "raw"
            (JObj [("event", JStr eventName); ("data", d packet)]%string) c in
        if String.eqb eventName "READY" then
          let c := set_sessionId (session_id (d packet)) c in
          let c := set_reconnectAttempts 0 c in
          let c := set_isConnecting false c in
          emit "READY" (d packet) c
        else if String.eqb eventName "RESUMED" then
          let c := set_reconnectAttempts 0 c in
          let c := set_isConnecting false c in
          emit "RESUMED" JUndefined c
        else emit eventName (d packet) c
  end.

(** [_handleCloseCode(code)] *)
Definition _handleCloseCode (code : Z) (c : Client) : Client :=
  if (code =? FluxorCloseCode.AuthenticationFailed)%Z
     || (code =? FluxorCloseCode.InvalidSequence)%Z
     || (code =? FluxorCloseCode.SessionTimedOut)%Z
  then set_sequence 0%Z (set_sessionId EmptyString c)
  else c.

(** [_handleMessage(raw, onReady)], as the "message" listener of [connect()]
    runs it: inside a [try] whose [catch] only logs, so that an exception of
    [_handleHello] ends the handling of the message. [None] is a message
    that [JSON.parse] rejects. *)
Definition _handleMessage (e : Env) (raw : option GatewayPacket) (c : Client)
  : Client :=
  match raw with
  | None => c
  | Some packet =>
      let c :=
        match s packet with
        | Some n => set_sequence n c
        | None => c
        end in
      match op packet with
      | Hello =>
          match _handleHello e (d packet) c with
          | Some c' => c'
          | None => c
          end
      | HeartbeatAck =>
          let c := set_heartbeatAcked true c in
          let latency :=
            if (0 <? _heartbeatSentAt c)%Z
            then (now e - _heartbeatSentAt c)%Z else (-1)%Z in
          let c := set_lastPing latency c in
          emit "HEARTBEAT_ACK" (JNum latency) c
      | Heartbeat => _sendHeartbeat e c
      | InvalidSession =>
          let resumable := truthy (d packet) in
          let c :=
            if negb resumable
            then set_sequence 0%Z (set_sessionId EmptyString c) else c in
          _scheduleReconnect e (_cleanup c)
      | Reconnect => _scheduleReconnect e (_cleanup c)
      | Dispatch => _handleDispatch packet c
      | _ => c
      end
  end.

(** The socket's "close" handler installed by [connect()]. *)
Definition ws_close (e : Env) (code : Z) (reason : string) (c : Client)
  : Client :=
  let c := _stopHeartbeat c in
  let c := set_isConnecting false c in
  let c :=
    emit "close" (JObj [("code", JNum code); ("reason", JStr reason)]%string) c
  in
  let c := _handleCloseCode code c in
  if negb (_destroyed c) && shouldReconnect code then _scheduleReconnect e c
  else c.

(** The socket's "error" handler installed by [connect()]. *)
Definition ws_error (err : string) (c : Client) : Client :=
  emit "error" (JStr err) c.

(** The first, jittered beat: the [setTimeout] callback of
    [_startHeartbeat]. *)
Definition first_beat (e : Env) (intervalMs : Z) (c : Client) : Client :=
  let c := _sendHeartbeat e c in
  let h := nextHandle c in
  let c := set_nextHandle (S h) c in
  let c := set_heartbeatInterval (Some h) c in
  setTimer (TmBeat h intervalMs) c.

(** One tick of the heartbeat interval: the [setInterval] callback of
    [_startHeartbeat]. *)
Definition beat (e : Env) (c : Client) : Client :=
  if negb (_heartbeatAcked c) then _scheduleReconnect e (_cleanup c)
  else _sendHeartbeat e c.

(** ** The event loop *)

(** What can happen to a client: calls of its public methods, events of the
    socket it is attached to, and pending timers firing. *)
Inductive Event :=
| DoConnect
| DoDestroy
| DoOn (event : string) (fn : nat)
| DoOnce (event : string) (fn : nat)
| DoOff (event : string) (fn : nat)
| DoWaitFor (event : string) (flt : option (Json -> bool)) (timeout : option Q)
| DoUpdatePresence (p : Json)
| DoRequestGuildMembers (guildId query : string) (limit : Z)
| DoUpdateVoiceState (guildId : string) (channelId : option string)
    (selfMute selfDeaf : bool)
| DoConnectCall (channelId : string)
| DoSubscribeGuild (guildId : string)
| WsOpen
| WsMessage (raw : option GatewayPacket)
| WsClose (code : Z) (reason : string)
| WsError (err : string)
| Fire (tm : Timer).

Definition Q_eq_dec (a b : Q) : {a = b} + {a <> b}.
Proof. decide equality; [apply Pos.eq_dec | apply Z.eq_dec]. Defined.

Definition Timer_eq_dec (a b : Timer) : {a = b} + {a <> b}.
Proof.
  decide equality;
    auto using Q_eq_dec, Z.eq_dec, Nat.eq_dec, string_dec.
Defined.

Definition timer_eqb (a b : Timer) : bool :=
  if Timer_eq_dec a b then true else false.

(** Is [tm] pending? *)
Definition pending (tm : Timer) (c : Client) : bool :=
  existsb (timer_eqb tm) (timers c).

(** A one-shot timer leaves the pending list when it fires. *)
Definition expire (tm : Timer) (c : Client) : Client :=
  set_timers (remove_first (timer_eqb tm) (timers c)) c.

(** The callback of a pending timer. *)
Definition fire (e : Env) (tm : Timer) (c : Client) : Client :=
  match tm with
  | TmReconnect _ => reconnect_timeout e (expire tm c)
  | TmFirstBeat intervalMs _ => first_beat e intervalMs (expire tm c)
  | TmBeat _ _ => beat e c
  | TmWaitFor w event ms => waitFor_timeout w event ms (expire tm c)
  end.

(** One turn of the event loop. Socket events reach the client only from the
    socket it is attached to, in a state of the socket in which they can
    occur; a timer fires only while it is pending. *)
Definition step (c : Client) (ev : Env * Event) : Client :=
  let e := fst ev in
  match snd ev with
  | DoConnect => connect e c
  | DoDestroy => destroy c
  | DoOn event fn => on event fn c
  | DoOnce event fn => once event fn c
  | DoOff event fn => off event fn c
  | DoWaitFor event flt timeout => waitFor event flt timeout c
  | DoUpdatePresence p => updatePresence p c
  | DoRequestGuildMembers g q l => requestGuildMembers g q l c
  | DoUpdateVoiceState g ch m df => updateVoiceState g ch m df c
  | DoConnectCall ch => connectCall ch c
  | DoSubscribeGuild g => subscribeGuild g c
  | WsOpen =>
      match _ws c with
      | Some CONNECTING => set_ws (Some OPEN) c
      | _ => c
      end
  | WsMessage raw =>
      match _ws c with
      | Some OPEN => _handleMessage e raw c
      | _ => c
      end
  | WsClose code reason =>
      match _ws c with
      | Some CONNECTING | Some OPEN | Some CLOSING =>
          ws_close e code reason (set_ws (Some CLOSED) c)
      | _ => c
      end
  | WsError err =>
      match _ws c with
      | Some _ => ws_error err c
      | None => c
      end
  | Fire tm => if pending tm c then fire e tm c else c
  end.

Definition run (evs : list (Env * Event)) (c : Client) : Client :=
  fold_left step evs c.

(** States the client can be in. *)
Definition reachable (c : Client) : Prop :=
  exists cfg evs, c = run evs (init cfg).


(** ** Vocabulary of the statements *)

(** The close codes after which the session cannot be resumed. *)
Definition clears_session (code : Z) : Prop :=
  (code = 4004 \/ code = 4007 \/ code = 4009)%Z.

(** Events that are neither an inbound message nor a close of the socket. *)
Definition quiet (ev : Env * Event) : bool :=
  match snd ev with
  | WsMessage _ | WsClose _ _ => false
  | _ => true
  end.

(** [ESend (FHeartbeat _)] *)
Definition is_heartbeat (x : Effect) : bool :=
  match x with ESend (FHeartbeat _) => true | _ => false end.

(** Number of heartbeat frames written to the socket so far. *)
Definition heartbeats_sent (c : Client) : nat := count is_heartbeat (effects c).

(** [EResolve _ _] *)
Definition is_resolve (x : Effect) : bool :=
  match x with EResolve _ _ => true | _ => false end.

(** [EEmit channel _] *)
Definition is_emit_on (channel : string) (x : Effect) : bool :=
  match x with EEmit ch _ => String.eqb ch channel | _ => false end.

(** The payload of the raw event: [{ event: eventName, data }]. *)
Definition raw_payload (eventName : string) (data : Json) : Json :=
  JObj [("event", JStr eventName); ("data", data)]%string.

(** What is emitted on the named channel: RESUMED carries [undefined], every
    other event its body. *)
Definition named_payload (eventName : string) (data : Json) : Json :=
  if String.eqb eventName "RESUMED" then JUndefined else data.

(** A frame that tells the client its session cannot be resumed. *)
Definition non_resumable (packet : GatewayPacket) : bool :=
  match op packet with
  | InvalidSession => negb (truthy (d packet))
  | _ => false
  end.

(** What tearing the transport down shows to the outside: a socket that is
    attached and open, or still connecting, is closed with code 1000;
    nothing else happens, and in particular nothing is written. *)
Definition closing (c : Client) : list Effect :=
  match _ws c with
  | Some OPEN | Some CONNECTING => [ESocketClose 1000 "Client cleanup"]
  | _ => []
  end.

(** The pending timers of [c] without the ticks of the heartbeat interval it
    holds in [_heartbeatInterval]. *)
Definition other_timers (c : Client) : list Timer :=
  match _heartbeatInterval c with
  | Some h => filter (fun tm => negb (is_beat h tm)) (timers c)
  | None => timers c
  end.

(** The timer that scheduling a reconnect adds to [c]: the one for the next
    attempt, or none when the client is destroyed, a reconnect is already
    pending or the attempts are used up. *)
Definition scheduled (e : Env) (c : Client) : list Timer :=
  if _destroyed c || _isReconnecting c || attempts_exhausted c then []
  else [TmReconnect (delayMs (reconnectDelay (_config c))
                       (S (_reconnectAttempts c)) (random e))].

(** From [c] to [c'] the transport is torn down and a reconnect scheduled:
    the trace grows by the close of the socket and by nothing else, no
    socket is attached any more, the heartbeat interval is cleared (no tick
    of it stays pending), and the only timer added is the reconnect
    timer. *)
Definition teardown (e : Env) (c c' : Client) : Prop :=
  effects c' = closing c ++ effects c
  /\ _ws c' = None
  /\ _heartbeatInterval c' = None
  /\ (forall h i, _heartbeatInterval c = Some h ->
        pending (TmBeat h i) c' = false)
  /\ timers c' = other_timers c ++ scheduled e c.

(** ** Sample configuration and inputs, used to run the model *)

Module Sample.

Definition cfg : Config :=
  {| gatewayUrl := "wss://gateway.fluxer.app/?v=1&encoding=json";
     gatewayToken := "TOKEN";
     reconnectDelay := 2;
     maxReconnectAttempts := None;
     ignoredGatewayEvents := Some ["PRESENCE_UPDATE"%string];
     presence := JUndefined |}.

Definition env : Env :=
  {| now := 1000%Z; random := 1 # 2; constructs := true |}.

Definition packet (o : FluxorOpCode) (payload : Json) (seq : option Z)
    (name : option string) : option GatewayPacket :=
  Some {| op := o; d := payload; s := seq; t := name |}.

Definition hello : option GatewayPacket :=
  packet Hello (JObj [("heartbeat_interval"%string, JNum 40000)]) None None.

Definition ready : option GatewayPacket :=
  packet Dispatch (JObj [("session_id"%string, JStr "abc")]) (Some 1%Z)
    (Some "READY"%string).

Definition dispatch (name : string) (seq : Z) : option GatewayPacket :=
  packet Dispatch JNull (Some seq) (Some name).

(** A client that has connected and completed the handshake. *)
Definition connected : Client :=
  run [(env, DoConnect); (env, WsOpen); (env, WsMessage hello);
       (env, WsMessage ready)] (init cfg).

(** The same client after its first, jittered heartbeat went out. *)
Definition beating : Client :=
  step connected
    (env, Fire (TmFirstBeat 40000 (random env * inject_Z 40000))).

(** The events that lead to [connected]. *)
Definition handshake : list (Env * Event) :=
  [(env, DoConnect); (env, WsOpen); (env, WsMessage hello);
   (env, WsMessage ready)].

(** A filter for [waitFor]: the payload is the number 7. *)
Definition is_seven (data : Json) : bool :=
  match data with JNum 7 => true | _ => false end.

End Sample.

(** Reconnect timers *)
Definition is_reconnect (tm : Timer) : bool :=
  match tm with TmReconnect _ => true | _ => false end.

(** Number of reconnect timers in flight. *)
Definition reconnects_pending (c : Client) : nat :=
  count is_reconnect (timers c).

Definition is_connect (x : Effect) : bool :=
  match x with EConnect => true | _ => false end.

(** Number of times [connect()] was entered so far. *)
Definition connect_calls (c : Client) : nat := count is_connect (effects c).

(** Every event except a call of [connect()] by the user of the client. *)
Definition not_connect (ev : Env * Event) : bool :=
  match snd ev with DoConnect => false | _ => true end.

(** The listeners, timers and settlements that belong to the [waitFor] call
    with handle [w]. *)
Definition is_wait_listener (w : nat) (x : string * Listener) : bool :=
  match snd x with LWait v _ => Nat.eqb v w | _ => false end.

Definition is_settlement (w : nat) (x : Effect) : bool :=
  match x with
  | EResolve v _ | EReject v _ _ => Nat.eqb v w
  | _ => false
  end.

Definition wait_listeners (w : nat) (c : Client) : list (string * Listener) :=
  filter (is_wait_listener w) (_emitter c).

Definition wait_timers (w : nat) (c : Client) : list Timer :=
  filter (is_wait_timer w) (timers c).

Definition settlements (w : nat) (c : Client) : list Effect :=
  filter (is_settlement w) (effects c).

(** [!filter || filter(data)] *)
Definition passes (flt : option (Json -> bool)) (data : Json) : bool :=
  match flt with Some f => f data | None => true end.

(** ** Invariants *)

(** The flag [_isReconnecting] is set exactly while a reconnect timer is
    pending. *)
Definition reconnect_guard (c : Client) : Prop :=
  reconnects_pending c = if _isReconnecting c then 1 else 0.

(** After [destroy()]: the terminal flag is set and no socket is attached. *)
Definition torn_down (c : Client) : Prop :=
  _destroyed c = true /\ _ws c = None.

(** No listener, timer or settlement carries a handle that has not been
    allocated yet. *)
Definition handles_fresh (c : Client) : Prop :=
  forall w, nextHandle c <= w ->
    wait_listeners w c = [] /\ wait_timers w c = [] /\ settlements w c = [].

(** The timer that [waitFor] installs for the call [w], if any. *)
Definition wait_timer_of (w : nat) (event : string) (tmo : option Q)
  : list Timer :=
  match tmo with
  | Some ms => [TmWaitFor w event ms]
  | None => []
  end.

(** The state of the promise returned by the [waitFor] call [w] on [event]
    with filter [flt], whose timeout timer is [tmo]:
    - waiting: handler registered, timer (if any) pending, not settled;
    - resolved with a matching payload, handler and timer gone;
    - rejected by its timer, handler and timer gone. *)
Inductive wait_state (w : nat) (event : string) (flt : option (Json -> bool))
    (tmo : option Q) (c : Client) : Prop :=
| Waiting :
    wait_listeners w c = [(event, LWait w flt)] ->
    wait_timers w c = wait_timer_of w event tmo ->
    settlements w c = [] ->
    wait_state w event flt tmo c
| Resolved (data : Json) :
    passes flt data = true ->
    settlements w c = [EResolve w data] ->
    wait_listeners w c = [] ->
    wait_timers w c = [] ->
    wait_state w event flt tmo c
| Rejected (ms : Q) :
    tmo = Some ms ->
    settlements w c = [EReject w event ms] ->
    wait_listeners w c = [] ->
    wait_timers w c = [] ->
    wait_state w event flt tmo c.

(** [c'] has the same listeners, timers and settlements of every [waitFor]
    call as [c]. *)
Definition same_waits (c c' : Client) : Prop :=
  forall w,
    wait_listeners w c' = wait_listeners w c
    /\ wait_timers w c' = wait_timers w c
    /\ settlements w c' = settlements w c.

(** From [c] to [c'] handles stay fresh and every promise keeps a state. *)
Definition evolves (c c' : Client) : Prop :=
  handles_fresh c ->
  nextHandle c <= nextHandle c'
  /\ handles_fresh c'
  /\ forall w event flt tmo,
       wait_state w event flt tmo c -> wait_state w event flt tmo c'.

(** [a] is [b] with, in addition, the handler of the [waitFor] call [w]
    registered last and its timers [tw] armed last. *)
Definition shadow (w : nat) (event : string) (flt : option (Json -> bool))
    (tw : list Timer) (a b : Client) : Prop :=
  _emitter a = _emitter b ++ [(event, LWait w flt)]
  /\ timers a = timers b ++ tw
  /\ effects a = effects b.

(** ** The sliding-window bucket *)

Module RateLimit.

(** Modelled from the spec: rateLimit/RateLimitBucket.ts and
    rateLimit/RateLimitConfig.ts are not part of the sources at hand. A
    bucket carries its configuration ([limit] admissions per window of
    [windowMs] milliseconds) and the admission instants recorded within the
    trailing window, oldest first. *)
Record RateLimitBucket := {
  limit : nat;
  windowMs : Z;
  timestamps : list Z
}.

Definition with_timestamps (ts : list Z) (b : RateLimitBucket)
  : RateLimitBucket :=
  {| limit := limit b; windowMs := windowMs b; timestamps := ts |}.

(** A bucket as the registry creates it. *)
Definition empty (lim : nat) (window : Z) : RateLimitBucket :=
  {| limit := lim; windowMs := window; timestamps := [] |}.

(** Modelled from the spec: step 1 of [acquire()], "prune all recorded
    timestamps older than [now - windowMs]". *)
Definition prune (now : Z) (b : RateLimitBucket) : list Z :=
  filter (fun ts => (now - windowMs b <=? ts)%Z) (timestamps b).

Inductive Decision :=
| Granted
| Wait (waitMs : Z).

(** Modelled from the spec: one pass through steps 1 to 3 of [acquire()] at
    the instant [now]. With the bucket below [limit] the instant is recorded
    and the caller admitted; otherwise the caller is told to wait
    [(oldestRemainingTimestamp + windowMs) - now]. (A bucket of limit 0 has
    no oldest timestamp; the model then waits a full window.) *)
Definition decide (now : Z) (b : RateLimitBucket)
  : RateLimitBucket * Decision :=
  let kept := prune now b in
  if List.length kept <? limit b
  then (with_timestamps (kept ++ [now]) b, Granted)
  else (with_timestamps kept b, Wait (hd now kept + windowMs b - now)).

(** Modelled from the spec: [acquire()], the loop over [decide]. A suspended
    caller resumes no earlier than asked: the [n]-th wake-up comes
    [nth n lags] milliseconds late. The result is the instant of admission
    and the bucket left behind; [None] when the schedule [lags] ends before
    the caller is admitted. *)
Fixpoint acquire (lags : list nat) (now : Z) (b : RateLimitBucket)
  : option (Z * RateLimitBucket) :=
  match decide now b with
  | (b', Granted) => Some (now, b')
  | (b', Wait waitMs) =>
      match lags with
      | [] => None
      | lag :: rest => acquire rest (now + waitMs + Z.of_nat lag) b'
      end
  end.

(** The bucket after admission decisions taken at the instants [nows], one
    at a time. *)
Definition decisions (nows : list Z) (b : RateLimitBucket) : RateLimitBucket :=
  fold_left (fun b now => fst (decide now b)) nows b.

(** Recorded timestamps younger than [windowMs] at the instant [now]. *)
Definition younger (now : Z) (b : RateLimitBucket) : nat :=
  count (fun ts => (now - ts <? windowMs b)%Z) (timestamps b).

(** Every recorded timestamp is at or after [t]. *)
Definition not_before (t : Z) (b : RateLimitBucket) : Prop :=
  forall ts, In ts (timestamps b) -> (t <= ts)%Z.

End RateLimit.

(** ** Further vocabulary *)

Definition is_socket_new (x : Effect) : bool :=
  match x with ESocketNew _ => true | _ => false end.

(** Number of sockets opened so far. *)
Definition sockets_opened (c : Client) : nat :=
  count is_socket_new (effects c).

Definition is_reject (x : Effect) : bool :=
  match x with EReject _ _ _ => true | _ => false end.

(** Everything the client did to the outside world, except rejecting
    [waitFor] promises. *)
Definition outward (c : Client) : list Effect :=
  filter (fun x => negb (is_reject x)) (effects c).

(** A connection attempt that can no longer complete: [_isConnecting] is
    set, but no socket is attached whose handlers could reset it. *)
Definition stalled (c : Client) : Prop :=
  _isConnecting c = true /\ _ws c = None.

(** [_reconnectAttempts] does not exceed the configured maximum. *)
Definition attempts_bounded (c : Client) : Prop :=
  match maxReconnectAttempts (_config c) with
  | Some m => _reconnectAttempts c <= m
  | None => True
  end.

(** A configuration that gives up after two reconnect attempts. *)
Definition two_attempts : Config :=
  {| gatewayUrl := gatewayUrl Sample.cfg;
     gatewayToken := gatewayToken Sample.cfg;
     reconnectDelay := 2;
     maxReconnectAttempts := Some 2;
     ignoredGatewayEvents := None;
     presence := JUndefined |}.

(** The heartbeat acknowledgement frame. *)
Definition heartbeat_ack : GatewayPacket :=
  {| op := HeartbeatAck; d := JNull; s := None; t := None |}.

(** ** Heartbeat intervals *)

(** The pending ticks of the interval with handle [h]. *)
Definition ticks (h : nat) (c : Client) : list Timer :=
  filter (is_beat h) (timers c).

(** [h] is the handle of an interval the client has created earlier and does
    not hold in [_heartbeatInterval]: [_stopHeartbeat] cannot clear it. *)
Definition untracked (h : nat) (c : Client) : Prop :=
  _heartbeatInterval c <> Some h /\ h < nextHandle c.

(** The handle in [_heartbeatInterval] is one that has been handed out. *)
Definition tracked_known (c : Client) : Prop :=
  forall h, _heartbeatInterval c = Some h -> h < nextHandle c.

(** From [c] to [c']: handles are only handed out, never taken back; the
    interval held in [_heartbeatInterval] is the one held before or a new
    one; and an interval that is not held keeps its ticks. *)
Definition moves (c c' : Client) : Prop :=
  nextHandle c <= nextHandle c'
  /\ (forall g, _heartbeatInterval c' = Some g ->
        _heartbeatInterval c = Some g \/ nextHandle c <= g < nextHandle c')
  /\ (forall h, untracked h c -> ticks h c' = ticks h c).

(** ** The REST client: the helpers of [ApiClient] *)

Module Api.

(** An object as [Object.entries] lists it: its own properties in order,
    each key once. *)
Definition Obj := list (string * Json).

(** [out[k] = v] *)
Fixpoint obj_set (k : string) (v : Json) (out : Obj) : Obj :=
  match out with
  | [] => [(k, v)]
  | (k', v') :: r =>
      if String.eqb k k' then (k, v) :: r else (k', v') :: obj_set k v r
  end.

Definition is_undefined (j : Json) : bool :=
  match j with JUndefined => true | _ => false end.

(** [v !== undefined] for the value of a property. *)
Definition has_value (kv : string * Json) : bool :=
  negb (is_undefined (snd kv)).

(** [out[k] = v] on an object created by [{}]. The key [__proto__] is the
    accessor it inherits from [Object.prototype]: assigning to it changes
    at most the prototype and creates no own property. *)
Definition assign (k : string) (v : Json) (out : Obj) : Obj :=
  if String.eqb k "__proto__" then out else obj_set k v out.

(** [stripUndefined(obj)] *)
Definition stripUndefined (obj : Obj) : Obj :=
  fold_left
    (fun out kv =>
       if is_undefined (snd kv) then out else assign (fst kv) (snd kv) out)
    obj [].

(** The values [toQueryString] accepts: [string | number | undefined].
    Numbers are integers. *)
Inductive QueryValue :=
| QString (v : string)
| QNumber (n : Z)
| QUndefined.

(** [String(n)] for an integer. *)
Definition string_of_Z (n : Z) : string :=
  NilZero.string_of_int (Z.to_int n).

(** The characters [encodeURIComponent] leaves as they are:
    [A-Z a-z 0-9 - _ . ! ~ * ' ( )]. *)
Definition unreserved (c : ascii) : bool :=
  let n := N_of_ascii c in
  ((65 <=? n) && (n <=? 90))%N || ((97 <=? n) && (n <=? 122))%N
  || ((48 <=? n) && (n <=? 57))%N
  || existsb (Ascii.eqb c) (list_ascii_of_string "-_.!~*'()").

Definition hex_digit (n : N) : ascii :=
  nth (N.to_nat n) (list_ascii_of_string "0123456789ABCDEF") "0"%char.

(** [%XX] for one byte. *)
Definition percent (c : ascii) : string :=
  String "%" (String (hex_digit (N_of_ascii c / 16))
                (String (hex_digit (N_of_ascii c mod 16)) EmptyString)).

(** ECMAScript's [encodeURIComponent], on a string held as its UTF-8 bytes:
    every byte that is not an unreserved character is percent-encoded. *)
Fixpoint encodeURIComponent (v : string) : string :=
  match v with
  | EmptyString => EmptyString
  | String c r =>
      (if unreserved c then String c EmptyString else percent c)
      ++ encodeURIComponent r
  end.

(** The parameters that are not [undefined], with their values as
    strings. *)
Definition defined (params : list (string * QueryValue))
  : list (string * string) :=
  flat_map
    (fun kv =>
       match snd kv with
       | QString v => [(fst kv, v)]
       | QNumber n => [(fst kv, string_of_Z n)]
       | QUndefined => []
       end)
    params.

(** [`${encodeURIComponent(k)}=${encodeURIComponent(v)}`] *)
Definition part (kv : string * string) : string :=
  encodeURIComponent (fst kv) ++ "=" ++ encodeURIComponent (snd kv).

(** [toQueryString(params)] *)
Definition toQueryString (params : list (string * QueryValue)) : string :=
  let parts := map part (defined params) in
  match parts with
  | [] => EmptyString
  | _ => "?" ++ String.concat "&" parts
  end.

(** Reading a string back: does it contain [c], its pieces between
    separators, and its two sides around the first separator. *)
Fixpoint contains (c : ascii) (v : string) : bool :=
  match v with
  | EmptyString => false
  | String a r => Ascii.eqb a c || contains c r
  end.

Fixpoint split_on (sep : ascii) (v : string) : list string :=
  match v with
  | EmptyString => [EmptyString]
  | String a r =>
      if Ascii.eqb a sep then EmptyString :: split_on sep r
      else match split_on sep r with
           | x :: xs => String a x :: xs
           | [] => [String a EmptyString]
           end
  end.

Fixpoint cut_at (sep : ascii) (v : string) : string * string :=
  match v with
  | EmptyString => (EmptyString, EmptyString)
  | String a r =>
      if Ascii.eqb a sep then (EmptyString, r)
      else (String a (fst (cut_at sep r)), snd (cut_at sep r))
  end.

(** The byte that two hexadecimal digits stand for. *)
Definition hex_value (c : ascii) : N :=
  let n := N_of_ascii c in
  if (n <=? 57)%N then (n - 48)%N else (n - 55)%N.

Definition unpercent (hi lo : ascii) : ascii :=
  ascii_of_N (16 * hex_value hi + hex_value lo).

(** *** Responses *)

(** The errors of errors.ts, as [_throwForStatus] constructs them, and the
    [SyntaxError] of a response body that [JSON.parse] rejects. *)
Inductive ApiError :=
| FluxorRateLimitError (message body : string) (retryAfter : Z)
| FluxorNotFoundError (message body : string)
| FluxorForbiddenError (message body : string)
| FluxorApiError (message : string) (status : Z) (body : string)
| SyntaxError.

Inductive Outcome (A : Type) :=
| Returns (v : A)
| Throws (err : ApiError).
Arguments Returns {A} v.
Arguments Throws {A} err.

(** What [fetch] resolved with: [res.status] and [await res.text()]. *)
Record Response := { status : Z; text : string }.

(** [res.ok] *)
Definition ok (res : Response) : bool :=
  ((200 <=? status res) && (status res <=? 299))%Z.

Section Requests.

(** [JSON.parse]; [None] when it throws. *)
Variable JSON_parse : string -> option Json.

(** [_throwForStatus(status, text)]: the error it throws. *)
Definition _throwForStatus (st : Z) (body : string) : ApiError :=
  if (st =? 429)%Z then
    let retryAfter :=
      match JSON_parse body with
      | Some parsed =>
          match prop "retry_after" parsed with
          | JNum n => (n * 1000)%Z
          | _ => 1000%Z
          end
      | None => 1000%Z
      end in
    FluxorRateLimitError "Rate limited" body retryAfter
  else if (st =? 404)%Z then FluxorNotFoundError "Not found" body
  else if (st =? 403)%Z then FluxorForbiddenError "Forbidden" body
  else FluxorApiError ("Fluxor returned " ++ string_of_Z st) st body.

(** [text ? JSON.parse(text) : undefined] *)
Definition parse_body (body : string) : Outcome Json :=
  if String.eqb body EmptyString then Returns JUndefined
  else match JSON_parse body with
       | Some v => Returns v
       | None => Throws SyntaxError
       end.

(** [_requestRS] and [_requestR], from the response on: they differ only in
    the request they send. *)
Definition _requestRS (throwOnNonSuccess : bool) (res : Response)
  : Outcome Json :=
  if throwOnNonSuccess && negb (ok res)
  then Throws (_throwForStatus (status res) (text res))
  else parse_body (text res).

Definition _requestR (throwOnNonSuccess : bool) (res : Response)
  : Outcome Json :=
  if throwOnNonSuccess && negb (ok res)
  then Throws (_throwForStatus (status res) (text res))
  else parse_body (text res).

(** [_requestS] and [_request], from the response on. *)
Definition _requestS (throwOnNonSuccess : bool) (res : Response)
  : Outcome Z :=
  if throwOnNonSuccess && negb (ok res)
  then Throws (_throwForStatus (status res) (text res))
  else Returns (status res).

Definition _request (throwOnNonSuccess : bool) (res : Response)
  : Outcome Z :=
  if throwOnNonSuccess && negb (ok res)
  then Throws (_throwForStatus (status res) (text res))
  else Returns (status res).

End Requests.

End Api.

(** ** The console logger: util/logger.ts *)

Module Logger.

Inductive Level := LDebug | LInfo | LWarn | LError.







(** The methods of [noopLogger]. *)
Definition noop (l : Level) (msg : string) : list (Level * string) := [].


End Logger.

(** The response text an error carries; a [SyntaxError] carries none. *)
Definition error_body (err : Api.ApiError) : option string :=
  match err with
  | Api.FluxorRateLimitError _ body _ | Api.FluxorNotFoundError _ body
  | Api.FluxorForbiddenError _ body | Api.FluxorApiError _ _ body => Some body
  | Api.SyntaxError => None
  end.

(** * Properties *)

Unset Implicit Arguments.
Arguments heartbeat_interval : simpl never.

(** ** Frame lemmas: what the emitter leaves alone *)

Section Frames.
Context {X : Type} (f : Client -> X).
Hypothesis f_emitter : forall v c, f (set_emitter v c) = f c.
Hypothesis f_cleanup : forall w c,
  f (set_timers (filter (fun tm => negb (is_wait_timer w tm)) (timers c)) c)
  = f c.
Hypothesis f_emit : forall event data c, f (perform (EEmit event data) c) = f c.
Hypothesis f_resolve : forall w data c, f (perform (EResolve w data) c) = f c.

Lemma call_listener_frame event data c l :
  f (call_listener event data c l) = f c.
Proof.
  destruct l as [fn [|]|w flt|]; simpl; trivial.
  - apply f_emitter.
  - unfold waitFor_handler.
    destruct (match flt with Some g => negb (g data) | None => false end);
      trivial.
    unfold waitFor_cleanup, emitter_off.
    now rewrite f_resolve, f_cleanup, f_emitter.
Qed.

Lemma emit_frame event data c : f (emit event data c) = f c.
Proof.
  unfold emit.
  transitivity (f (perform (EEmit event data) c)); [|apply f_emit].
  generalize (perform (EEmit event data) c).
  induction (map snd (filter (on_event event) (_emitter c))) as [|l ls IH];
    intro c0; simpl; trivial.
  now rewrite IH, call_listener_frame.
Qed.

End Frames.

Ltac emit_frame f := rewrite ?(emit_frame f) by reflexivity.

(** ** Close codes and the session (C5) *)

Lemma handleCloseCode_clears code c :
  clears_session code ->
  _handleCloseCode code c = set_sequence 0%Z (set_sessionId EmptyString c).
Proof.
  unfold clears_session, _handleCloseCode. intros [->|[->| ->]]; reflexivity.
Qed.

Lemma handleCloseCode_keeps code c :
  ~ clears_session code -> _handleCloseCode code c = c.
Proof.
  unfold clears_session, _handleCloseCode,
    FluxorCloseCode.AuthenticationFailed, FluxorCloseCode.InvalidSequence,
    FluxorCloseCode.SessionTimedOut.
  intro H.
  destruct (Z.eqb_spec code 4004); [tauto|].
  destruct (Z.eqb_spec code 4007); [tauto|].
  destruct (Z.eqb_spec code 4009); [tauto|].
  reflexivity.
Qed.

Lemma scheduleReconnect_session e c :
  _sessionId (_scheduleReconnect e c) = _sessionId c
  /\ _sequence (_scheduleReconnect e c) = _sequence c.
Proof.
  unfold _scheduleReconnect.
  destruct (_destroyed c), (_isReconnecting c); auto.
  destruct (attempts_exhausted _); auto.
Qed.

Lemma stopHeartbeat_session c :
  _sessionId (_stopHeartbeat c) = _sessionId c
  /\ _sequence (_stopHeartbeat c) = _sequence c.
Proof. unfold _stopHeartbeat. destruct (_heartbeatInterval c); auto. Qed.

Lemma cleanup_session c :
  _sessionId (_cleanup c) = _sessionId c
  /\ _sequence (_cleanup c) = _sequence c.
Proof.
  unfold _cleanup.
  destruct (stopHeartbeat_session c) as [H1 H2].
  destruct (_ws (_stopHeartbeat c)) as [[]|]; simpl; auto.
Qed.

Lemma ws_close_session e code reason c :
  let c' := ws_close e code reason c in
  (clears_session code -> _sessionId c' = EmptyString /\ _sequence c' = 0%Z)
  /\ (~ clears_session code ->
      _sessionId c' = _sessionId c /\ _sequence c' = _sequence c).
Proof.
  unfold ws_close.
  set (c1 := emit "close" _ _).
  assert (H1 : _sessionId c1 = _sessionId c /\ _sequence c1 = _sequence c).
  { subst c1. emit_frame _sessionId. emit_frame _sequence. simpl.
    apply stopHeartbeat_session. }
  split; intro Hc.
  - rewrite (handleCloseCode_clears _ _ Hc).
    destruct (negb _ && _).
    + destruct (scheduleReconnect_session e
                  (set_sequence 0%Z (set_sessionId EmptyString c1))) as [-> ->].
      auto.
    + auto.
  - rewrite (handleCloseCode_keeps _ _ Hc).
    destruct (negb _ && _); [|exact H1].
    destruct (scheduleReconnect_session e c1) as [-> ->]. exact H1.
Qed.

(** Unfolds the handlers down to field updates and splits on every test. *)
Ltac handlers :=
  unfold reconnect_timeout, connect, destroy, first_beat, beat,
    waitFor_timeout, waitFor_cleanup, waitFor, on, once, off,
    updatePresence, requestGuildMembers, updateVoiceState, connectCall,
    subscribeGuild, _handleHello, _sendIdentify, _sendResume,
    _startHeartbeat, _sendHeartbeat, _scheduleReconnect, _cleanup,
    _stopHeartbeat, _send, emitter_on, emitter_off, expire, setTimer, perform
    in *.

Ltac split_tests :=
  repeat match goal with
    | |- context [heartbeat_interval ?x] =>
        destruct (heartbeat_interval x) eqn:?; simpl in *
    | |- context [match ?x with _ => _ end] => destruct x eqn:?; simpl in *
    end.

Lemma fire_session e tm c :
  _sessionId (fire e tm c) = _sessionId c
  /\ _sequence (fire e tm c) = _sequence c.
Proof.
  destruct tm; simpl; handlers; simpl; split_tests; auto.
Qed.

Lemma quiet_step_session c ev :
  quiet ev = true ->
  _sessionId (step c ev) = _sessionId c /\ _sequence (step c ev) = _sequence c.
Proof.
  destruct ev as [e ev]. unfold quiet, step. simpl.
  destruct ev; try discriminate; intros _;
    try (handlers; simpl; split_tests; auto; fail).
  - unfold ws_error. destruct (_ws c); auto.
    emit_frame _sessionId. emit_frame _sequence. auto.
  - destruct (pending tm c); auto using fire_session.
Qed.

Lemma quiet_run_session evs : forall c,
  forallb quiet evs = true ->
  _sessionId (run evs c) = _sessionId c /\ _sequence (run evs c) = _sequence c.
Proof.
  induction evs as [|ev evs IH]; intros c H; simpl in *; auto.
  apply andb_true_iff in H as [H1 H2].
  destruct (IH (step c ev) H2) as [-> ->].
  now apply quiet_step_session.
Qed.

Lemma handleHello_effects e data c :
  _ws c = Some OPEN -> heartbeat_interval data <> None ->
  exists c',
    _handleHello e data c = Some c'
    /\ effects c' =
        ESend (if String.eqb (_sessionId c) EmptyString
               then FIdentify (gatewayToken (_config c))
                      (presence (_config c))
                      (ignoredGatewayEvents (_config c))
               else FResume (gatewayToken (_config c)) (_sessionId c)
                      (_sequence c))
        :: effects c.
Proof.
  intros H N. unfold _handleHello.
  destruct (heartbeat_interval data) as [i|]; [|contradiction].
  eexists. split; [reflexivity|]. handlers.
  destruct (_heartbeatInterval c); simpl;
    destruct (String.eqb (_sessionId c) EmptyString); simpl; rewrite H;
    reflexivity.
Qed.

(** C5. On a close of the socket the session identity ([_sessionId],
    [_sequence]) is cleared to empty/zero when the close code is 4004, 4007
    or 4009, and only then: for every other code [_handleCloseCode] changes
    nothing and the close handler leaves both fields as they were. After
    such a close, as long as no further message or close arrives, the HELLO
    of the next connection (one whose payload can be read: it is neither
    [null] nor [undefined]) is handled without an exception and answered
    with RESUME carrying the surviving session; after a clearing close it
    is answered with IDENTIFY. *)
Theorem C5_close_code_session :
  forall (e : Env) (code : Z) (reason : string) (c : Client),
    let c' := ws_close e code reason c in
    (clears_session code ->
       _sessionId (_handleCloseCode code c) = EmptyString
       /\ _sequence (_handleCloseCode code c) = 0%Z
       /\ _sessionId c' = EmptyString /\ _sequence c' = 0%Z
       /\ forall evs e' data,
            forallb quiet evs = true ->
            _ws (run evs c') = Some OPEN ->
            heartbeat_interval data <> None ->
            exists c'' tok pr ig,
              _handleHello e' data (run evs c') = Some c''
              /\ effects c'' =
                   ESend (FIdentify tok pr ig) :: effects (run evs c'))
    /\ (~ clears_session code ->
       _handleCloseCode code c = c
       /\ _sessionId c' = _sessionId c /\ _sequence c' = _sequence c
       /\ forall evs e' data,
            forallb quiet evs = true ->
            _ws (run evs c') = Some OPEN ->
            heartbeat_interval data <> None ->
            _sessionId c <> EmptyString ->
            exists c'' tok,
              _handleHello e' data (run evs c') = Some c''
              /\ effects c'' =
                   ESend (FResume tok (_sessionId c) (_sequence c))
                   :: effects (run evs c')).
Proof.
  intros e code reason c c'.
  destruct (ws_close_session e code reason c) as [Hclr Hkeep].
  fold c' in Hclr, Hkeep.
  split; intro Hc.
  - rewrite (handleCloseCode_clears _ _ Hc). destruct (Hclr Hc) as [H1 H2].
    repeat split; trivial.
    intros evs e' data Hq Hopen Hd.
    destruct (quiet_run_session evs c' Hq) as [Hs _].
    destruct (handleHello_effects e' data _ Hopen Hd) as (c'' & E & F).
    rewrite Hs, H1 in F. simpl in F. eauto 6.
  - destruct (Hkeep Hc) as [H1 H2].
    repeat split; trivial; [now apply handleCloseCode_keeps|].
    intros evs e' data Hq Hopen Hd Hne.
    destruct (quiet_run_session evs c' Hq) as [Hs Hn].
    destruct (handleHello_effects e' data _ Hopen Hd) as (c'' & E & F).
    rewrite Hs, Hn, H1, H2 in F.
    destruct (String.eqb_spec (_sessionId c) EmptyString);
      [contradiction|eauto].
Qed.

Lemma C5_close_code_session_witness :
  let c := Sample.connected in
  let data := JObj [("heartbeat_interval"%string, JNum 40000)] in
  let evs := [(Sample.env,
               Fire (TmReconnect (delayMs 2 1 (random Sample.env))));
              (Sample.env, WsOpen)] in
  (clears_session 4009
   /\ _sessionId (ws_close Sample.env 4009 EmptyString c) = EmptyString
   /\ _sequence (ws_close Sample.env 4009 EmptyString c) = 0%Z)
  /\ (~ clears_session 1006
      /\ forallb quiet evs = true
      /\ _ws (run evs (ws_close Sample.env 1006 EmptyString c)) = Some OPEN
      /\ heartbeat_interval data <> None
      /\ _sessionId c <> EmptyString
      /\ exists c'' tok,
           _handleHello Sample.env data
             (run evs (ws_close Sample.env 1006 EmptyString c)) = Some c''
           /\ effects c''
              = ESend (FResume tok (_sessionId c) (_sequence c))
                :: effects (run evs (ws_close Sample.env 1006 EmptyString c))).
Proof.
  intros c data evs.
  pose proof (C5_close_code_session Sample.env 4009 EmptyString c) as [H4009 _].
  pose proof (C5_close_code_session Sample.env 1006 EmptyString c) as [_ H1006].
  assert (Hc : clears_session 4009) by (right; right; reflexivity).
  assert (Hk : ~ clears_session 1006)
    by (intros [H|[H|H]]; discriminate H).
  split.
  - split; [exact Hc|]. destruct (H4009 Hc) as (_ & _ & A & B & _). now split.
  - split; [exact Hk|]. split; [reflexivity|].
    split; [vm_compute; reflexivity|].
    split; [discriminate|]. split; [discriminate|].
    destruct (H1006 Hk) as (_ & _ & _ & R).
    apply R; [reflexivity|vm_compute; reflexivity|discriminate|discriminate].
Defined.


(** ** The sequence watermark (C2) *)

Lemma handleDispatch_sequence packet c :
  _sequence (_handleDispatch packet c) = _sequence c.
Proof.
  unfold _handleDispatch.
  destruct (t packet) as [name|]; trivial.
  destruct (String.eqb name EmptyString); trivial.
  destruct (ignored c name); trivial.
  destruct (String.eqb name "READY"); [|destruct (String.eqb name "RESUMED")];
    now repeat (emit_frame _sequence; simpl).
Qed.

(** C2, as the specification states it, fails: a frame whose sequence number
    is below the stored one lowers the stored one. *)
Lemma C2_sequence_decreases :
  let c := step Sample.connected
             (Sample.env, WsMessage (Sample.dispatch "MESSAGE_CREATE" 5)) in
  let c' := step c
             (Sample.env, WsMessage (Sample.dispatch "MESSAGE_CREATE" 3)) in
  _sequence c = 5%Z /\ _sequence c' = 3%Z /\ (_sequence c' < _sequence c)%Z.
Proof. vm_compute. repeat split. Qed.

(** C2, amended. A frame that carries a sequence number [n], and is not a
    non-resumable invalid-session frame, leaves the stored sequence equal to
    [n]: the last number received, not the largest. The stored sequence
    therefore does not decrease whenever [n] is not below it. *)
Theorem C2_sequence_is_last_received :
  forall (e : Env) (packet : GatewayPacket) (n : Z) (c : Client),
    s packet = Some n ->
    non_resumable packet = false ->
    let c' := _handleMessage e (Some packet) c in
    _sequence c' = n
    /\ ((_sequence c <= n)%Z -> (_sequence c <= _sequence c')%Z).
Proof.
  intros e packet n c Hs Hnr c'.
  assert (H : _sequence c' = n).
  { subst c'. unfold _handleMessage, non_resumable in *. rewrite Hs.
    destruct (op packet); simpl; trivial.
    - apply handleDispatch_sequence.
    - handlers. simpl. split_tests; reflexivity.
    - handlers. simpl. split_tests; reflexivity.
    - rewrite Hnr. handlers. simpl. split_tests; reflexivity.
    - handlers. simpl. split_tests; reflexivity.
    - now emit_frame _sequence. }
  split; [exact H|]. now rewrite H.
Qed.

Lemma C2_sequence_is_last_received_witness :
  let packet := {| op := Dispatch; d := JNull; s := Some 7%Z;
                   t := Some "MESSAGE_CREATE"%string |} in
  let c' := _handleMessage Sample.env (Some packet) Sample.connected in
  s packet = Some 7%Z
  /\ non_resumable packet = false
  /\ _sequence c' = 7%Z
  /\ ((_sequence Sample.connected <= 7)%Z ->
      (_sequence Sample.connected <= _sequence c')%Z).
Proof.
  intros packet c'.
  split; [reflexivity|]. split; [reflexivity|].
  apply (C2_sequence_is_last_received Sample.env packet 7 Sample.connected);
    reflexivity.
Defined.


(** ** Dispatch and the raw channel (C1) *)

Lemma handleDispatch_ignored packet name c :
  t packet = Some name -> ignored c name = true ->
  _handleDispatch packet c = c.
Proof.
  unfold _handleDispatch. intros -> ->. now destruct (String.eqb name EmptyString).
Qed.

Lemma emit_effects event data c :
  exists l,
    effects (emit event data c) = l ++ EEmit event data :: effects c
    /\ forallb is_resolve l = true.
Proof.
  unfold emit.
  assert (H : exists l, effects (perform (EEmit event data) c)
                        = l ++ EEmit event data :: effects c
                        /\ forallb is_resolve l = true)
    by now exists [].
  revert H. generalize (perform (EEmit event data) c).
  induction (map snd (filter (on_event event) (_emitter c))) as [|x ls IH];
    intros c0 H; simpl; trivial.
  apply IH. destruct H as (l & H & R).
  destruct x as [fn [|]|w flt|]; simpl; try (now exists l).
  unfold waitFor_handler.
  destruct (match flt with Some g => negb (g data) | None => false end).
  - now exists l.
  - exists (EResolve w data :: l). simpl. now rewrite H.
Qed.

(** What the code does for a dispatch that is not filtered out: the raw
    event, with name and body, is emitted first, the named event after
    it; in between and after, only promises of [waitFor] are resolved. *)
Lemma handleDispatch_raw packet name c :
  t packet = Some name -> name <> EmptyString -> ignored c name = false ->
  exists l1 l2,
    effects (_handleDispatch packet c) =
      l2 ++ EEmit name (named_payload name (d packet))
         :: l1 ++ EEmit "raw" (raw_payload name (d packet)) :: effects c
    /\ forallb is_resolve l1 = true /\ forallb is_resolve l2 = true.
Proof.
  unfold _handleDispatch, named_payload, raw_payload. intros -> Hne ->.
  destruct (String.eqb_spec name EmptyString); [contradiction|].
  set (raw := JObj _).
  destruct (emit_effects "raw" raw c) as (l1 & H1 & R1).
  destruct (String.eqb name "RESUMED") eqn:Res.
  - apply String.eqb_eq in Res. subst name. simpl.
    match goal with |- context [emit "RESUMED" ?x ?y] =>
      destruct (emit_effects "RESUMED" x y) as (l2 & H2 & R2) end.
    simpl in H2. rewrite H2, H1. now exists l1, l2.
  - destruct (String.eqb name "READY") eqn:Rdy.
    + apply String.eqb_eq in Rdy. subst name.
      match goal with |- context [emit "READY" ?x ?y] =>
        destruct (emit_effects "READY" x y) as (l2 & H2 & R2) end.
      simpl in H2. rewrite H2, H1. now exists l1, l2.
    + destruct (emit_effects name (d packet) (emit "raw" raw c))
        as (l2 & H2 & R2).
      rewrite H2, H1. now exists l1, l2.
Qed.

(** C1. The client's own documentation agrees with the claim: the "raw"
    channel is "fired for every event regardless of name", and the raw
    emission in [_handleDispatch] is commented "Always emit the raw event".
    The code does otherwise for an event on the ignore-list: with
    "PRESENCE_UPDATE" on the list, a dispatch frame of that name is dropped
    by the test that precedes the raw emission. The client records the
    sequence number and emits nothing, neither on "raw" nor on the named
    channel. *)
Lemma C1_ignored_event_not_on_raw :
  let frame := Sample.packet Dispatch (JObj [("status"%string, JStr "idle")])
                 (Some 2%Z) (Some "PRESENCE_UPDATE"%string) in
  let c' := step Sample.connected (Sample.env, WsMessage frame) in
  ignored Sample.connected "PRESENCE_UPDATE" = true
  /\ _ws Sample.connected = Some OPEN
  /\ effects c' = effects Sample.connected
  /\ count (is_emit_on "raw") (effects c')
     = count (is_emit_on "raw") (effects Sample.connected)
  /\ _sequence c' = 2%Z.
Proof. vm_compute. repeat split. Qed.

(** For an event that is not on the ignore-list the code does what the
    documentation says: the frame is emitted on the "raw" channel, with its
    name and body, and after that on its named channel. *)
Lemma handleDispatch_raw_then_named :
  forall (packet : GatewayPacket) (name : string) (c : Client),
    t packet = Some name -> name <> EmptyString ->
    ignored c name = false ->
    exists l1 l2,
      effects (_handleDispatch packet c) =
        l2 ++ EEmit name (named_payload name (d packet))
           :: l1 ++ EEmit "raw"
                      (JObj [("event", JStr name);
                             ("data", d packet)]%string)
           :: effects c
      /\ forallb is_resolve l1 = true /\ forallb is_resolve l2 = true.
Proof.
  intros packet name c Ht Hne Hi. now apply handleDispatch_raw.
Qed.

(** ** Heartbeats (C3) *)

(** C3, as the specification states it, fails on the server-requested path:
    with a heartbeat outstanding (sent by the first beat, not acknowledged),
    a heartbeat request from the server makes the client send a second
    one. *)
Lemma C3_requested_heartbeat_sent_unacknowledged :
  let c := Sample.beating in
  let c' := step c (Sample.env,
                    WsMessage (Sample.packet Heartbeat JNull None None)) in
  _heartbeatAcked c = false
  /\ heartbeats_sent c = 1
  /\ effects c' = ESend (FHeartbeat (Some 1%Z)) :: effects c
  /\ heartbeats_sent c' = 2.
Proof. vm_compute. repeat split. Qed.

Lemma scheduleReconnect_effects e c :
  effects (_scheduleReconnect e c) = effects c.
Proof. handlers. split_tests; reflexivity. Qed.

Lemma cleanup_ws c : _ws (_cleanup c) = None.
Proof. handlers. split_tests; simpl; congruence. Qed.

Lemma scheduleReconnect_ws e c : _ws (_scheduleReconnect e c) = _ws c.
Proof. handlers. split_tests; reflexivity. Qed.

Lemma cleanup_heartbeats c : heartbeats_sent (_cleanup c) = heartbeats_sent c.
Proof. unfold heartbeats_sent. handlers. split_tests; reflexivity. Qed.

Lemma cleanup_flags c :
  _destroyed (_cleanup c) = _destroyed c
  /\ _isReconnecting (_cleanup c) = _isReconnecting c
  /\ attempts_exhausted (_cleanup c) = attempts_exhausted c
  /\ _reconnectAttempts (_cleanup c) = _reconnectAttempts c
  /\ _config (_cleanup c) = _config c.
Proof. unfold attempts_exhausted. handlers. split_tests; auto. Qed.

Lemma scheduleReconnect_schedules e c :
  _destroyed c = false -> _isReconnecting c = false ->
  attempts_exhausted c = false ->
  timers (_scheduleReconnect e c) =
    timers c ++ [TmReconnect (delayMs (reconnectDelay (_config c))
                                (S (_reconnectAttempts c)) (random e))]
  /\ _isReconnecting (_scheduleReconnect e c) = true
  /\ _reconnectAttempts (_scheduleReconnect e c) = S (_reconnectAttempts c).
Proof.
  intros Hd Hr Hx. unfold _scheduleReconnect. rewrite Hd, Hr.
  replace (attempts_exhausted (set_isReconnecting true c))
    with (attempts_exhausted c) by reflexivity.
  rewrite Hx. simpl. auto.
Qed.

Lemma pending_app tm c l :
  timers c = l ++ [tm] -> pending tm c = true.
Proof.
  unfold pending. intros ->. rewrite existsb_app. simpl.
  unfold timer_eqb. destruct (Timer_eq_dec tm tm); [|contradiction].
  now rewrite orb_true_r.
Qed.

Lemma pending_none tm c :
  (forall x, In x (timers c) -> x <> tm) -> pending tm c = false.
Proof.
  intro H. unfold pending. destruct (existsb _ _) eqn:E; trivial.
  apply existsb_exists in E as (x & I & Q).
  unfold timer_eqb in Q. destruct (Timer_eq_dec tm x); [|discriminate].
  subst x. now contradiction (H tm I).
Qed.

Lemma scheduleReconnect_timers e c :
  timers (_scheduleReconnect e c) = timers c ++ scheduled e c
  /\ _heartbeatInterval (_scheduleReconnect e c) = _heartbeatInterval c.
Proof.
  unfold _scheduleReconnect, scheduled.
  destruct (_destroyed c); simpl; [now rewrite app_nil_r|].
  destruct (_isReconnecting c); simpl; [now rewrite app_nil_r|].
  replace (attempts_exhausted (set_isReconnecting true c))
    with (attempts_exhausted c) by reflexivity.
  destruct (attempts_exhausted c); simpl; [now rewrite app_nil_r|auto].
Qed.

Lemma cleanup_exact c :
  effects (_cleanup c) = closing c ++ effects c
  /\ timers (_cleanup c) = other_timers c
  /\ _heartbeatInterval (_cleanup c) = None.
Proof.
  unfold _cleanup, _stopHeartbeat, closing, other_timers, perform.
  destruct (_heartbeatInterval c) eqn:E; simpl;
    destruct (_ws c) as [[]|]; simpl; auto.
Qed.

Lemma scheduled_cleanup e c : scheduled e (_cleanup c) = scheduled e c.
Proof.
  unfold scheduled. destruct (cleanup_flags c) as (-> & -> & -> & -> & ->).
  reflexivity.
Qed.

(** [_cleanup()] followed by [_scheduleReconnect()] is a teardown. *)
Lemma teardown_cleanup e c : teardown e c (_scheduleReconnect e (_cleanup c)).
Proof.
  destruct (cleanup_exact c) as (E & T & H).
  destruct (scheduleReconnect_timers e (_cleanup c)) as (T' & H').
  assert (Tm : timers (_scheduleReconnect e (_cleanup c))
               = other_timers c ++ scheduled e c)
    by now rewrite T', T, scheduled_cleanup.
  unfold teardown.
  rewrite scheduleReconnect_effects, scheduleReconnect_ws, cleanup_ws.
  repeat split; trivial; [congruence|].
  intros h i Hh. apply pending_none. rewrite Tm.
  intros x I. apply in_app_or in I as [I|I].
  - unfold other_timers in I. rewrite Hh in I.
    apply filter_In in I as [_ I]. intros ->. simpl in I.
    now rewrite Nat.eqb_refl in I.
  - unfold scheduled in I. destruct (_ || _); [contradiction|].
    destruct I as [<-|[]]. discriminate.
Qed.

Lemma teardown_silent e c c' :
  teardown e c c' ->
  (forall f, In (ESend f) (effects c') -> In (ESend f) (effects c))
  /\ heartbeats_sent c' = heartbeats_sent c.
Proof.
  intros (E & _). unfold heartbeats_sent, count. rewrite E. unfold closing.
  split.
  - intros f I. apply in_app_or in I as [I|I]; trivial.
    destruct (_ws c) as [[]|]; simpl in I; try contradiction;
      destruct I as [I|[]]; discriminate I.
  - rewrite filter_app. destruct (_ws c) as [[]|]; reflexivity.
Qed.

(** C3, amended. On a tick of the heartbeat interval a heartbeat goes out
    only if the previous one was acknowledged. On a tick with the previous
    heartbeat unacknowledged the transport is torn down and a reconnect
    scheduled, and nothing is sent: the only thing done to the outside is
    the close of the socket (code 1000) if one is attached and open or
    connecting; no socket is attached afterwards; the heartbeat interval is
    cleared; and the one timer added is the reconnect timer, unless the
    client is destroyed, a reconnect is already pending or the attempts are
    used up. The heartbeat the server asks for is sent at once, whether or
    not the previous one was acknowledged. *)
Theorem C3_tick_sends_only_when_acknowledged :
  forall (e : Env) (h : nat) (intervalMs : Z) (c : Client),
    pending (TmBeat h intervalMs) c = true ->
    let c' := step c (e, Fire (TmBeat h intervalMs)) in
    (_heartbeatAcked c = false ->
       teardown e c c'
       /\ (forall f, In (ESend f) (effects c') -> In (ESend f) (effects c))
       /\ heartbeats_sent c' = heartbeats_sent c
       /\ (_ws c = Some OPEN ->
           effects c' = ESocketClose 1000 "Client cleanup" :: effects c)
       /\ (_destroyed c = false -> _isReconnecting c = false ->
           attempts_exhausted c = false ->
           exists dl, pending (TmReconnect dl) c' = true))
    /\ (_heartbeatAcked c = true -> _ws c = Some OPEN ->
          exists seq, effects c' = ESend (FHeartbeat seq) :: effects c
                      /\ _heartbeatAcked c' = false)
    /\ (forall payload name,
          _ws c = Some OPEN ->
          let c'' := step c (e, WsMessage
                       (Some {| op := Heartbeat; d := payload; s := None;
                                t := name |})) in
          exists seq, effects c'' = ESend (FHeartbeat seq) :: effects c
                      /\ heartbeats_sent c'' = S (heartbeats_sent c)).
Proof.
  intros e h i c Hp c'. subst c'. unfold step. simpl. rewrite Hp.
  unfold beat. split; [|split].
  - intro H. rewrite H. simpl.
    pose proof (teardown_cleanup e c) as T.
    destruct (teardown_silent e c _ T) as (S1 & S2).
    split; [exact T|]. split; [exact S1|]. split; [exact S2|]. split.
    + intro W. destruct T as (E & _). rewrite E. unfold closing.
      now rewrite W.
    + intros Hd Hr Hx.
      destruct (cleanup_flags c) as (F1 & F2 & F3 & _).
      destruct (scheduleReconnect_schedules e (_cleanup c)) as (Ht & _);
        try congruence.
      eexists. eapply pending_app. exact Ht.
  - intros Ha Hopen. rewrite Ha. simpl. handlers. simpl. rewrite Hopen.
    eexists. split; reflexivity.
  - intros payload name Hopen. simpl. rewrite Hopen. simpl.
    handlers. simpl. rewrite Hopen. eexists. split; reflexivity.
Qed.

Lemma C3_tick_sends_only_when_acknowledged_witness :
  let c := Sample.beating in
  let c' := step c (Sample.env, Fire (TmBeat 0 40000)) in
  pending (TmBeat 0 40000) c = true
  /\ _heartbeatAcked c = false
  /\ _ws c = Some OPEN
  /\ teardown Sample.env c c'
  /\ effects c' = ESocketClose 1000 "Client cleanup" :: effects c
  /\ pending (TmBeat 0 40000) c' = false
  /\ heartbeats_sent c' = heartbeats_sent c
  /\ exists dl, pending (TmReconnect dl) c' = true.
Proof.
  intros c c'.
  assert (P : pending (TmBeat 0 40000) c = true) by (vm_compute; reflexivity).
  assert (W : _ws c = Some OPEN) by (vm_compute; reflexivity).
  assert (I : _heartbeatInterval c = Some 0) by (vm_compute; reflexivity).
  split; [exact P|]. split; [vm_compute; reflexivity|]. split; [exact W|].
  destruct (C3_tick_sends_only_when_acknowledged Sample.env 0 40000 c P)
    as (H & _ & _).
  destruct H as (T & _ & A & B & C); [vm_compute; reflexivity|].
  split; [exact T|]. split; [exact (B W)|].
  split; [exact (proj1 (proj2 (proj2 (proj2 T))) 0 40000%Z I)|].
  split; [exact A|].
  apply C; vm_compute; reflexivity.
Defined.


(** ** Backoff (C4) *)

Lemma backoff_nonneg base n : (0 <= base)%Q -> (0 <= backoff base n)%Q.
Proof.
  intro Hb. unfold backoff. apply Q.min_glb; [|discriminate].
  apply Qmult_le_0_compat; trivial.
  change 0%Q with (inject_Z 0). rewrite <- Zle_Qle.
  apply Z.pow_nonneg. lia.
Qed.

Lemma jitter_bounds rnd b :
  (0 <= rnd)%Q -> (rnd < 1)%Q -> (0 <= b)%Q ->
  (0 <= jitter rnd b)%Q /\ (jitter rnd b <= (3 # 10) * b)%Q.
Proof.
  intros H0 H1 Hb. unfold jitter. split.
  - apply Qmult_le_0_compat; trivial. apply Qmult_le_0_compat; trivial.
    discriminate.
  - setoid_replace ((3 # 10) * b)%Q with (1 * (3 # 10) * b)%Q by ring.
    apply Qmult_le_compat_r; trivial.
    apply Qmult_le_compat_r; [now apply Qlt_le_weak | discriminate].
Qed.

(** C4. When [_scheduleReconnect] arms the reconnect timer for attempt
    [n >= 1], the delay of that timer is, in seconds,
    [min(2^(n-1) * baseDelay, 60)] plus a jitter between 0 and 30% of that
    value: it lies between the backoff and 1.3 times the backoff. (Exact
    rational arithmetic; [Math.random()] is in [0, 1) and the base delay is
    not negative.) *)
Theorem C4_reconnect_delay :
  forall (e : Env) (c : Client),
    _destroyed c = false -> _isReconnecting c = false ->
    attempts_exhausted c = false ->
    (0 <= random e)%Q -> (random e < 1)%Q ->
    (0 <= reconnectDelay (_config c))%Q ->
    let n := S (_reconnectAttempts c) in
    let b := Qmin (inject_Z (2 ^ (Z.of_nat n - 1)) * reconnectDelay (_config c))
               60 in
    exists ms j,
      timers (_scheduleReconnect e c) = timers c ++ [TmReconnect ms]
      /\ _reconnectAttempts (_scheduleReconnect e c) = n
      /\ (ms == (b + j) * 1000)%Q
      /\ (0 <= j)%Q /\ (j <= (3 # 10) * b)%Q
      /\ (b * 1000 <= ms)%Q /\ (ms <= (13 # 10) * b * 1000)%Q.
Proof.
  intros e c Hd Hr Hx H0 H1 Hb n b.
  destruct (scheduleReconnect_schedules e c Hd Hr Hx) as (Ht & _ & Hn).
  assert (Eb : b = backoff (reconnectDelay (_config c)) n).
  { unfold b, backoff.
    now replace (Z.of_nat n - 1)%Z with (Z.of_nat (n - 1)) by (unfold n; lia). }
  pose proof (backoff_nonneg _ n Hb) as Hb0. rewrite <- Eb in Hb0.
  destruct (jitter_bounds _ _ H0 H1 Hb0) as [Hj0 Hj1].
  rewrite Ht, Hn. fold n. unfold delayMs. rewrite <- Eb.
  exists ((b + jitter (random e) b) * 1000)%Q, (jitter (random e) b).
  clear Ht Eb. clearbody b.
  set (j := jitter (random e) b) in *. clearbody j.
  repeat split; trivial; try reflexivity; lra.
Qed.

Lemma C4_reconnect_delay_witness :
  let e := Sample.env in
  let c := Sample.connected in
  let b := Qmin (inject_Z (2 ^ (Z.of_nat 1 - 1)) * 2) 60 in
  (_destroyed c = false /\ _isReconnecting c = false
   /\ attempts_exhausted c = false
   /\ (0 <= random e)%Q /\ (random e < 1)%Q
   /\ (0 <= reconnectDelay (_config c))%Q)
  /\ exists ms j,
       timers (_scheduleReconnect e c) = timers c ++ [TmReconnect ms]
       /\ _reconnectAttempts (_scheduleReconnect e c) = 1
       /\ (ms == (b + j) * 1000)%Q
       /\ (0 <= j)%Q /\ (j <= (3 # 10) * b)%Q
       /\ (b * 1000 <= ms)%Q /\ (ms <= (13 # 10) * b * 1000)%Q.
Proof.
  intros e c b.
  assert (H0 : (0 <= random e)%Q) by discriminate.
  assert (H1 : (random e < 1)%Q) by reflexivity.
  assert (H2 : (0 <= reconnectDelay (_config c))%Q) by discriminate.
  split; [repeat split; trivial|].
  exact (C4_reconnect_delay e c eq_refl eq_refl eq_refl H0 H1 H2).
Defined.


(** ** Counting through list surgery *)


Section ListLemmas.
Context {A : Type}.
Implicit Types (p q r : A -> bool) (l : list A).

Lemma filter_filter_keep p q l :
  (forall x, p x = true -> q x = true) ->
  filter p (filter q l) = filter p l.
Proof.
  intro H. induction l as [|x l IH]; simpl; trivial.
  destruct (q x) eqn:Q; simpl.
  - now rewrite IH.
  - destruct (p x) eqn:P; trivial. apply H in P. congruence.
Qed.

Lemma filter_remove_first_other p r l :
  (forall x, r x = true -> p x = false) ->
  filter p (remove_first r l) = filter p l.
Proof.
  intro H. induction l as [|x l IH]; simpl; trivial.
  destruct (r x) eqn:R; simpl.
  - now rewrite (H _ R).
  - now rewrite IH.
Qed.

Lemma filter_remove_first_same p r l :
  (forall x, r x = true -> p x = true) ->
  filter p (remove_first r l) = remove_first r (filter p l).
Proof.
  intro H. induction l as [|x l IH]; simpl; trivial.
  destruct (r x) eqn:R; simpl.
  - rewrite (H _ R). simpl. now rewrite R.
  - destruct (p x); simpl; rewrite ?R, IH; trivial.
Qed.

Lemma existsb_filter_sub p r l :
  (forall x, r x = true -> p x = true) ->
  existsb r (filter p l) = existsb r l.
Proof.
  intro H. induction l as [|x l IH]; simpl; trivial.
  destruct (p x) eqn:P; simpl; rewrite IH; trivial.
  destruct (r x) eqn:R; trivial. apply H in R. congruence.
Qed.

Lemma filter_remove_last_other p r l :
  (forall x, r x = true -> p x = false) ->
  filter p (remove_last r l) = filter p l.
Proof.
  intro H. induction l as [|x l IH]; simpl; trivial.
  destruct (r x) eqn:R; simpl.
  - rewrite (H _ R). destruct (existsb r l); simpl; trivial.
    now rewrite (H _ R).
  - now rewrite IH.
Qed.

Lemma filter_remove_last_same p r l :
  (forall x, r x = true -> p x = true) ->
  filter p (remove_last r l) = remove_last r (filter p l).
Proof.
  intro H. induction l as [|x l IH]; simpl; trivial.
  destruct (r x) eqn:R; simpl.
  - rewrite (H _ R). simpl. rewrite R, (existsb_filter_sub p r l H). simpl.
    destruct (existsb r l); simpl; trivial.
    now rewrite (H _ R), IH.
  - destruct (p x); simpl; rewrite ?R, IH; trivial.
Qed.

Lemma remove_last_app_other r l x :
  r x = false -> remove_last r (l ++ [x]) = remove_last r l ++ [x].
Proof.
  intro H. induction l as [|y l IH]; simpl.
  - now rewrite H.
  - rewrite existsb_app. simpl. rewrite H, orb_false_r.
    destruct (r y && negb (existsb r l)); trivial. now rewrite IH.
Qed.

Lemma remove_last_app_same r l x :
  r x = true -> remove_last r (l ++ [x]) = l.
Proof.
  intro H. induction l as [|y l IH]; simpl.
  - now rewrite H.
  - rewrite existsb_app. simpl. rewrite H, orb_true_r, andb_false_r.
    now rewrite IH.
Qed.

Lemma filter_nil_negb p l :
  filter p l = [] -> filter (fun x => negb (p x)) l = l.
Proof.
  induction l as [|x l IH]; simpl; trivial.
  destruct (p x); simpl; [discriminate|]. intro H. now rewrite IH.
Qed.

Lemma filter_negb_same p l : filter p (filter (fun x => negb (p x)) l) = [].
Proof.
  induction l as [|x l IH]; simpl; trivial.
  destruct (p x) eqn:P; simpl; trivial. now rewrite P.
Qed.

Lemma existsb_filter_nil p r l :
  (forall x, r x = true -> p x = true) ->
  filter p l = [] -> existsb r l = false.
Proof.
  intros H E. rewrite <- (existsb_filter_sub p r l H), E. reflexivity.
Qed.

Lemma remove_last_none r l : existsb r l = false -> remove_last r l = l.
Proof.
  induction l as [|x l IH]; simpl; trivial.
  intro H. apply orb_false_iff in H as [-> H]. simpl. now rewrite IH.
Qed.

End ListLemmas.

Lemma timer_eqb_eq a b : timer_eqb a b = true -> a = b.
Proof. unfold timer_eqb. now destruct (Timer_eq_dec a b). Qed.

Lemma timer_eqb_refl a : timer_eqb a a = true.
Proof. unfold timer_eqb. now destruct (Timer_eq_dec a a). Qed.

(** ** One reconnect timer at a time (C6) *)

Lemma reconnect_filter_beat h l :
  filter is_reconnect (filter (fun tm => negb (is_beat h tm)) l)
  = filter is_reconnect l.
Proof. apply filter_filter_keep. now intros []. Qed.

Lemma reconnect_filter_wait w l :
  filter is_reconnect (filter (fun tm => negb (is_wait_timer w tm)) l)
  = filter is_reconnect l.
Proof. apply filter_filter_keep. now intros []. Qed.

Lemma reconnect_expire tm l :
  is_reconnect tm = false ->
  filter is_reconnect (remove_first (timer_eqb tm) l) = filter is_reconnect l.
Proof.
  intro H. apply filter_remove_first_other.
  intros x E. apply timer_eqb_eq in E. now subst.
Qed.

Create Rewrite HintDb reconnect.
#[local] Hint Rewrite @filter_app reconnect_filter_beat reconnect_filter_wait
  @app_nil_r : reconnect.

Ltac reconnect_view :=
  unfold reconnect_guard, reconnects_pending, count in *;
  handlers; simpl in *; split_tests; simpl in *;
  autorewrite with reconnect in *; simpl in *;
  autorewrite with reconnect in *; auto.

Lemma emit_reconnects event data c :
  filter is_reconnect (timers (emit event data c))
  = filter is_reconnect (timers c)
  /\ _isReconnecting (emit event data c) = _isReconnecting c.
Proof.
  split; [|now emit_frame _isReconnecting].
  unfold emit.
  change (timers c) with (timers (perform (EEmit event data) c)).
  generalize (perform (EEmit event data) c).
  induction (map snd (filter (on_event event) (_emitter c))) as [|l ls IH];
    intro c0; simpl; trivial.
  rewrite IH. destruct l as [fn [|]|w flt|]; simpl; trivial.
  unfold waitFor_handler.
  destruct (match flt with Some g => negb (g data) | None => false end);
    trivial.
  simpl. apply reconnect_filter_wait.
Qed.

Lemma guard_same c c' :
  filter is_reconnect (timers c') = filter is_reconnect (timers c) ->
  _isReconnecting c' = _isReconnecting c ->
  reconnect_guard c -> reconnect_guard c'.
Proof.
  unfold reconnect_guard, reconnects_pending, count. now intros -> ->.
Qed.

Lemma guard_emit event data c :
  reconnect_guard c -> reconnect_guard (emit event data c).
Proof. apply guard_same; apply emit_reconnects. Qed.

Lemma guard_scheduleReconnect e c :
  reconnect_guard c -> reconnect_guard (_scheduleReconnect e c).
Proof.
  unfold _scheduleReconnect.
  destruct (_destroyed c); trivial.
  destruct (_isReconnecting c) eqn:R; trivial.
  replace (attempts_exhausted (set_isReconnecting true c))
    with (attempts_exhausted c) by reflexivity.
  destruct (attempts_exhausted c).
  - unfold reconnect_guard, reconnects_pending. simpl. now rewrite R.
  - unfold reconnect_guard, reconnects_pending, count, setTimer. simpl.
    rewrite R, filter_app, length_app. simpl. lia.
Qed.

Lemma guard_cleanup c : reconnect_guard c -> reconnect_guard (_cleanup c).
Proof. apply guard_same; reconnect_view. Qed.

Lemma guard_connect e c : reconnect_guard c -> reconnect_guard (connect e c).
Proof. apply guard_same; reconnect_view. Qed.

Lemma guard_handleDispatch packet c :
  reconnect_guard c -> reconnect_guard (_handleDispatch packet c).
Proof.
  intro G. unfold _handleDispatch.
  destruct (t packet) as [name|]; trivial.
  destruct (String.eqb name EmptyString); trivial.
  destruct (ignored c name); trivial.
  destruct (String.eqb name "READY"); [|destruct (String.eqb name "RESUMED")];
    apply guard_emit;
    repeat first [ apply guard_emit | exact G
                 | eapply guard_same; [| |apply guard_emit; exact G];
                   reflexivity ].
Qed.

Lemma guard_handleMessage e raw c :
  reconnect_guard c -> reconnect_guard (_handleMessage e raw c).
Proof.
  intro G. unfold _handleMessage.
  destruct raw as [packet|]; trivial.
  set (c1 := match s packet with Some n => set_sequence n c | None => c end).
  assert (G1 : reconnect_guard c1).
  { subst c1. destruct (s packet); trivial. }
  clearbody c1.
  destruct (op packet); trivial.
  - now apply guard_handleDispatch.
  - revert G1. apply guard_same; reconnect_view.
  - apply guard_scheduleReconnect, guard_cleanup. exact G1.
  - apply guard_scheduleReconnect, guard_cleanup.
    destruct (negb _); trivial.
  - revert G1. apply guard_same; reconnect_view.
  - apply guard_emit. exact G1.
Qed.

Lemma guard_ws_close e code reason c :
  reconnect_guard c -> reconnect_guard (ws_close e code reason c).
Proof.
  intro G. unfold ws_close.
  set (c1 := emit _ _ _).
  assert (G1 : reconnect_guard c1).
  { apply guard_emit. revert G. apply guard_same; reconnect_view. }
  clearbody c1.
  assert (G2 : reconnect_guard (_handleCloseCode code c1)).
  { unfold _handleCloseCode. destruct (_ || _); trivial. }
  destruct (negb _ && _); trivial. now apply guard_scheduleReconnect.
Qed.

Lemma pending_reconnect ms c :
  pending (TmReconnect ms) c = true -> reconnect_guard c ->
  _isReconnecting c = true
  /\ filter is_reconnect (remove_first (timer_eqb (TmReconnect ms)) (timers c))
     = [].
Proof.
  unfold pending, reconnect_guard, reconnects_pending, count.
  intros P G.
  rewrite <- (existsb_filter_sub is_reconnect) in P
    by (intros x E; apply timer_eqb_eq in E; now subst).
  rewrite (filter_remove_first_same is_reconnect)
    by (intros x E; apply timer_eqb_eq in E; now subst).
  destruct (filter is_reconnect (timers c)) as [|x [|y l]];
    simpl in *; try discriminate.
  - rewrite orb_false_r in P. rewrite P.
    destruct (_isReconnecting c); [auto|discriminate].
  - destruct (_isReconnecting c); discriminate.
Qed.

Lemma guard_fire e tm c :
  pending tm c = true -> reconnect_guard c -> reconnect_guard (fire e tm c).
Proof.
  intros P G. destruct tm as [ms|i j|h i|w ev ms]; simpl.
  - destruct (pending_reconnect _ _ P G) as [R E].
    unfold reconnect_timeout. simpl.
    assert (G0 : reconnect_guard
                   (set_isReconnecting false (expire (TmReconnect ms) c))).
    { unfold reconnect_guard, reconnects_pending, count, expire. simpl.
      now rewrite E. }
    destruct (_destroyed c); trivial. now apply guard_connect.
  - revert G. apply guard_same.
    + handlers. simpl. split_tests; simpl;
        rewrite !filter_app, reconnect_expire by reflexivity;
        simpl; now rewrite !app_nil_r.
    + reconnect_view.
  - unfold beat. destruct (negb _).
    + now apply guard_scheduleReconnect, guard_cleanup.
    + revert G. apply guard_same; reconnect_view.
  - revert G. apply guard_same.
    + handlers. simpl.
      now rewrite reconnect_filter_wait, reconnect_expire.
    + reconnect_view.
Qed.

Lemma guard_step c ev : reconnect_guard c -> reconnect_guard (step c ev).
Proof.
  intro G. destruct ev as [e ev]. unfold step. simpl.
  destruct ev;
    try (revert G; apply guard_same; reconnect_view; fail).
  - destruct (_ws c) as [[]|]; trivial. now apply guard_handleMessage.
  - destruct (_ws c) as [[]|]; trivial; apply guard_ws_close;
      revert G; now apply guard_same.
  - destruct (_ws c); trivial. now apply guard_emit.
  - destruct (pending tm c) eqn:P; trivial. now apply guard_fire.
Qed.

Lemma guard_run evs : forall c,
  reconnect_guard c -> reconnect_guard (run evs c).
Proof.
  induction evs as [|ev evs IH]; intros c G; simpl; trivial.
  now apply IH, guard_step.
Qed.

Lemma guard_reachable c : reachable c -> reconnect_guard c.
Proof. intros (cfg & evs & ->). now apply guard_run. Qed.

(** C6. In every state the client can reach, at most one reconnect timer is
    in flight, and while one is, a call of [_scheduleReconnect], whichever
    trigger it comes from, changes nothing. *)
Theorem C6_one_reconnect_in_flight :
  forall (cfg : Config) (evs : list (Env * Event)),
    let c := run evs (init cfg) in
    reconnects_pending c <= 1
    /\ (_isReconnecting c = true <-> reconnects_pending c = 1)
    /\ forall e : Env,
         reconnects_pending c = 1 -> _scheduleReconnect e c = c.
Proof.
  intros cfg evs c.
  assert (G : reconnect_guard c) by now apply guard_run.
  unfold reconnect_guard in G. repeat split.
  - rewrite G. destruct (_isReconnecting c); lia.
  - intro R. now rewrite G, R.
  - intro R. rewrite G in R. now destruct (_isReconnecting c).
  - intros e R. rewrite G in R. unfold _scheduleReconnect.
    destruct (_destroyed c); trivial.
    now destruct (_isReconnecting c).
Qed.

Lemma C6_one_reconnect_in_flight_witness :
  let evs := [(Sample.env, DoConnect); (Sample.env, WsOpen);
              (Sample.env, WsMessage Sample.hello);
              (Sample.env, WsMessage Sample.ready);
              (Sample.env, WsClose 1006 EmptyString)] in
  let c := run evs (init Sample.cfg) in
  reconnects_pending c = 1
  /\ _isReconnecting c = true
  /\ _scheduleReconnect Sample.env c = c.
Proof.
  intros evs c.
  destruct (C6_one_reconnect_in_flight Sample.cfg evs) as (_ & I & N).
  fold c in I, N.
  assert (P : reconnects_pending c = 1) by (vm_compute; reflexivity).
  split; [exact P|]. split; [now apply I|]. now apply N.
Defined.


(** ** [destroy()] and a reconnect in flight (C8) *)

Ltac torn_down_frame :=
  unfold torn_down, connect_calls, count in *;
  handlers; simpl in *; split_tests; simpl in *;
  repeat match goal with H : _ /\ _ |- _ => destruct H end;
  try congruence; auto.

Lemma torn_down_fire e tm c :
  torn_down c ->
  torn_down (fire e tm c) /\ connect_calls (fire e tm c) = connect_calls c.
Proof. intros [D W]. destruct tm; simpl; torn_down_frame. Qed.

Lemma torn_down_step c ev :
  not_connect ev = true -> torn_down c ->
  torn_down (step c ev) /\ connect_calls (step c ev) = connect_calls c.
Proof.
  destruct ev as [e ev]. unfold not_connect, step. simpl.
  destruct ev; try discriminate; intros _ T;
    try (torn_down_frame; fail).
  destruct (pending tm c); auto using torn_down_fire.
Qed.

Lemma torn_down_run evs : forall c,
  forallb not_connect evs = true -> torn_down c ->
  torn_down (run evs c) /\ connect_calls (run evs c) = connect_calls c.
Proof.
  induction evs as [|ev evs IH]; intros c H T; simpl in *; auto.
  apply andb_true_iff in H as [H1 H2].
  destruct (torn_down_step c ev H1 T) as [T1 E1].
  destruct (IH _ H2 T1) as [T2 E2]. split; congruence.
Qed.

Lemma destroy_torn_down c :
  torn_down (destroy c) /\ connect_calls (destroy c) = connect_calls c.
Proof. torn_down_frame. Qed.

(** C8, as the specification states it, fails. [destroy()] does not cancel
    the reconnect timer, and [connect()] resets the terminal flag. Here a
    close with code 1006 schedules a reconnect, the user calls [destroy()]
    and then [connect()] again, and the new connection completes its
    handshake, all within the delay. When the timer of the old connection
    fires, the delayed [connect()] is executed: it closes the live socket
    and opens another. *)
Lemma C8_delayed_connect_runs_after_new_connect :
  let e := Sample.env in
  let tm := TmReconnect (delayMs 2 1 (random e)) in
  let c0 := step Sample.connected (e, WsClose 1006 EmptyString) in
  let c1 := destroy c0 in
  let c2 := run [(e, DoConnect); (e, WsOpen); (e, WsMessage Sample.hello);
                 (e, WsMessage Sample.ready)] c1 in
  let c3 := step c2 (e, Fire tm) in
  pending tm c0 = true
  /\ _destroyed c1 = true /\ pending tm c1 = true
  /\ _destroyed c2 = false /\ pending tm c2 = true
  /\ _ws c2 = Some OPEN
  /\ connect_calls c3 = S (connect_calls c2)
  /\ effects c3 = ESocketNew (gatewayUrl Sample.cfg)
                  :: ESocketClose 1000 "Client cleanup"
                  :: EConnect :: effects c2.
Proof. vm_compute. repeat split. Qed.

(** C8, amended. Once [destroy()] has been called, and as long as the user
    does not call [connect()] again, the client never enters [connect()]:
    whatever else happens (timers firing, among them a reconnect timer that
    was pending when [destroy()] was called), the terminal flag stays set,
    no socket is attached, and the reconnect timer, when it fires, only
    clears the pending flag. *)
Theorem C8_destroy_stops_pending_reconnect :
  forall (c : Client) (evs : list (Env * Event)),
    forallb not_connect evs = true ->
    let c' := run evs (destroy c) in
    _destroyed c' = true
    /\ _ws c' = None
    /\ connect_calls c' = connect_calls c
    /\ forall (e : Env) (ms : Q),
         pending (TmReconnect ms) c' = true ->
         step c' (e, Fire (TmReconnect ms))
         = set_isReconnecting false (expire (TmReconnect ms) c').
Proof.
  intros c evs H c'.
  destruct (destroy_torn_down c) as [T0 E0].
  destruct (torn_down_run evs (destroy c) H T0) as [[D W] E].
  fold c' in D, W, E. repeat split; trivial; try congruence.
  intros e ms P. unfold step. simpl. rewrite P.
  unfold reconnect_timeout.
  replace (_destroyed (set_isReconnecting false (expire (TmReconnect ms) c')))
    with (_destroyed c') by reflexivity.
  now rewrite D.
Qed.

Lemma C8_destroy_stops_pending_reconnect_witness :
  let c := step Sample.connected (Sample.env, WsClose 1006 EmptyString) in
  let tm := TmReconnect (delayMs 2 1 (random Sample.env)) in
  let evs := [(Sample.env, Fire tm)] in
  pending tm c = true
  /\ pending tm (destroy c) = true
  /\ forallb not_connect evs = true
  /\ _destroyed (run evs (destroy c)) = true
  /\ _ws (run evs (destroy c)) = None
  /\ connect_calls (run evs (destroy c)) = connect_calls c.
Proof.
  intros c tm evs.
  assert (Hev : forallb not_connect evs = true) by reflexivity.
  destruct (C8_destroy_stops_pending_reconnect c evs Hev)
    as (A & B & C & _).
  split; [vm_compute; reflexivity|]. split; [vm_compute; reflexivity|].
  split; [exact Hev|]. split; [exact A|]. split; [exact B|exact C].
Defined.


(** ** The promises of [waitFor] (C7, C10) *)

Arguments same_fn : simpl never.
Arguments is_wait_listener : simpl never.

Lemma same_waits_refl c : same_waits c c.
Proof. now intro w. Qed.

Lemma same_waits_trans c1 c2 c3 :
  same_waits c1 c2 -> same_waits c2 c3 -> same_waits c1 c3.
Proof.
  intros H1 H2 w. destruct (H1 w) as (A & B & C), (H2 w) as (A' & B' & C').
  repeat split; congruence.
Qed.

Lemma wait_state_same w event flt tmo c c' :
  wait_listeners w c' = wait_listeners w c ->
  wait_timers w c' = wait_timers w c ->
  settlements w c' = settlements w c ->
  wait_state w event flt tmo c -> wait_state w event flt tmo c'.
Proof.
  intros A B C [H1 H2 H3|data H0 H1 H2 H3|ms H0 H1 H2 H3].
  - apply Waiting; congruence.
  - apply Resolved with data; congruence.
  - apply Rejected with ms; congruence.
Qed.

Lemma evolves_refl c : evolves c c.
Proof. intro F. auto. Qed.

Lemma evolves_trans c1 c2 c3 : evolves c1 c2 -> evolves c2 c3 -> evolves c1 c3.
Proof.
  intros H1 H2 F. destruct (H1 F) as (N1 & F1 & W1).
  destruct (H2 F1) as (N2 & F2 & W2).
  split; [lia|split; [trivial|auto]].
Qed.

Lemma evolves_same c c' :
  nextHandle c <= nextHandle c' -> same_waits c c' -> evolves c c'.
Proof.
  intros N S F. split; [trivial|split].
  - intros w Hw. destruct (S w) as (A & B & C), (F w) as (A' & B' & C');
      [lia|]. repeat split; congruence.
  - intros w event flt tmo. destruct (S w) as (A & B & C).
    now apply wait_state_same.
Qed.

(** Timers and listeners of other kinds do not count. *)

Lemma wait_filter_beat w h l :
  filter (is_wait_timer w) (filter (fun tm => negb (is_beat h tm)) l)
  = filter (is_wait_timer w) l.
Proof. apply filter_filter_keep. now intros []. Qed.

Lemma wait_expire w tm l :
  is_wait_timer w tm = false ->
  filter (is_wait_timer w) (remove_first (timer_eqb tm) l)
  = filter (is_wait_timer w) l.
Proof.
  intro H. apply filter_remove_first_other.
  intros x E. apply timer_eqb_eq in E. now subst.
Qed.

Lemma wait_off_user w event fn once l :
  filter (is_wait_listener w)
    (remove_last (fun e => on_event event e && same_fn (LUser fn once) (snd e))
       l)
  = filter (is_wait_listener w) l.
Proof.
  apply filter_remove_last_other.
  intros [n [g o|v flt|]]; unfold is_wait_listener, same_fn; simpl;
    rewrite ?andb_false_r; congruence.
Qed.

Lemma wait_off_other w v event l :
  v <> w ->
  filter (is_wait_listener w)
    (remove_last (fun e => on_event event e && same_fn (LWait v None) (snd e))
       l)
  = filter (is_wait_listener w) l.
Proof.
  intro H. apply filter_remove_last_other.
  intros [n [g o|u flt|]]; unfold is_wait_listener, same_fn; simpl;
    rewrite ?andb_false_r; try congruence.
  intro E. apply andb_true_iff in E as [_ E]. apply Nat.eqb_eq in E. subst u.
  now apply Nat.eqb_neq.
Qed.

Lemma wait_filter_other w v l :
  v <> w ->
  filter (is_wait_timer w) (filter (fun tm => negb (is_wait_timer v tm)) l)
  = filter (is_wait_timer w) l.
Proof.
  intro H. apply filter_filter_keep.
  intros [ | | |u ev ms]; simpl; try congruence.
  intro E. apply Nat.eqb_eq in E. subst u.
  apply negb_true_iff. now apply Nat.eqb_neq.
Qed.

Create Rewrite HintDb waits.
#[local] Hint Rewrite @filter_app wait_filter_beat wait_off_user @app_nil_r
  : waits.
#[local] Hint Rewrite wait_expire using reflexivity : waits.

Ltac same_waits :=
  unfold same_waits, wait_listeners, wait_timers, settlements;
  handlers; simpl; split_tests; simpl; intro;
  autorewrite with waits; simpl; autorewrite with waits; auto.

Lemma same_cleanup c : same_waits c (_cleanup c).
Proof. same_waits. Qed.

Lemma same_scheduleReconnect e c : same_waits c (_scheduleReconnect e c).
Proof. same_waits. Qed.

Lemma same_connect e c : same_waits c (connect e c).
Proof. same_waits. Qed.

Lemma same_sendHeartbeat e c : same_waits c (_sendHeartbeat e c).
Proof. same_waits. Qed.

Lemma same_handleHello e data c :
  same_waits c match _handleHello e data c with Some c' => c' | None => c end.
Proof. same_waits. Qed.

Lemma same_handleCloseCode code c : same_waits c (_handleCloseCode code c).
Proof. unfold _handleCloseCode. destruct (_ || _); same_waits. Qed.

Lemma nextHandle_cleanup c : nextHandle (_cleanup c) = nextHandle c.
Proof. handlers. split_tests; reflexivity. Qed.

Lemma nextHandle_scheduleReconnect e c :
  nextHandle (_scheduleReconnect e c) = nextHandle c.
Proof. handlers. split_tests; reflexivity. Qed.

(** *** What an emission does to one promise *)

Lemma call_other w event data c l :
  is_wait_listener w (event, l) = false ->
  wait_listeners w (call_listener event data c l) = wait_listeners w c
  /\ wait_timers w (call_listener event data c l) = wait_timers w c
  /\ settlements w (call_listener event data c l) = settlements w c.
Proof.
  unfold wait_listeners, wait_timers, settlements.
  destruct l as [fn [|]|v flt|]; simpl; auto.
  - intros _. now rewrite wait_off_user.
  - unfold is_wait_listener at 1. simpl.
    intro H. apply Nat.eqb_neq in H. unfold waitFor_handler.
    destruct (match flt with Some g => negb (g data) | None => false end);
      auto.
    simpl. rewrite (wait_off_other w v event _ H), (wait_filter_other w v _ H).
    apply Nat.eqb_neq in H. now rewrite H.
Qed.

Lemma fold_other w event data ls : forall c,
  forallb (fun l => negb (is_wait_listener w (event, l))) ls = true ->
  let c' := fold_left (call_listener event data) ls c in
  wait_listeners w c' = wait_listeners w c
  /\ wait_timers w c' = wait_timers w c
  /\ settlements w c' = settlements w c.
Proof.
  induction ls as [|l ls IH]; intros c H; simpl in *; auto.
  apply andb_true_iff in H as [H1 H2]. apply negb_true_iff in H1.
  destruct (IH (call_listener event data c l) H2) as (A & B & C).
  destruct (call_other w event data c l H1) as (A' & B' & C').
  repeat split; congruence.
Qed.

Lemma passes_test flt data :
  match flt with Some g => negb (g data) | None => false end
  = negb (passes flt data).
Proof. now destruct flt. Qed.

Lemma call_self w event flt data c :
  wait_listeners w c = [(event, LWait w flt)] ->
  let c' := call_listener event data c (LWait w flt) in
  if passes flt data
  then wait_listeners w c' = [] /\ wait_timers w c' = []
       /\ settlements w c' = EResolve w data :: settlements w c
  else c' = c.
Proof.
  intro H. simpl. unfold waitFor_handler. rewrite passes_test.
  destruct (passes flt data); simpl; trivial.
  unfold wait_listeners, wait_timers, settlements in *. simpl.
  repeat split.
  - rewrite filter_remove_last_same.
    + rewrite H. simpl. unfold on_event. simpl.
      unfold same_fn. now rewrite String.eqb_refl, Nat.eqb_refl.
    + intros [n [g o|v f|]]; unfold is_wait_listener, same_fn; simpl;
        rewrite ?andb_false_r; try congruence.
      intro E. apply andb_true_iff in E as [_ E].
      now rewrite Nat.eqb_sym.
  - apply filter_negb_same.
  - now rewrite Nat.eqb_refl.
Qed.

Lemma filter_single {A} (p : A -> bool) x l :
  filter p l = [x] ->
  exists l1 l2, l = l1 ++ x :: l2 /\ filter p l1 = [] /\ filter p l2 = [].
Proof.
  induction l as [|y l IH]; simpl; [discriminate|].
  destruct (p y) eqn:P.
  - intro E. injection E as -> E. exists [], l. now simpl.
  - intro E. destruct (IH E) as (l1 & l2 & -> & E1 & E2).
    exists (y :: l1), l2. simpl. now rewrite P.
Qed.

Lemma snapshot_other w event l :
  filter (is_wait_listener w) l = [] ->
  forallb (fun x => negb (is_wait_listener w (event, x)))
    (map snd (filter (on_event event) l)) = true.
Proof.
  induction l as [|[n x] l IH]; simpl; trivial.
  destruct (is_wait_listener w (n, x)) eqn:P; [discriminate|].
  intro E. destruct (on_event event (n, x)); simpl; auto.
  unfold is_wait_listener in *. simpl in *. rewrite P. simpl. auto.
Qed.

Lemma emit_waits_absent w event data c :
  wait_listeners w c = [] ->
  wait_listeners w (emit event data c) = wait_listeners w c
  /\ wait_timers w (emit event data c) = wait_timers w c
  /\ settlements w (emit event data c) = settlements w c.
Proof.
  intro H. unfold emit.
  apply (fold_other w event data _ (perform (EEmit event data) c)).
  now apply snapshot_other.
Qed.

Lemma emit_waits_present w event data c ev flt :
  wait_listeners w c = [(ev, LWait w flt)] ->
  let c' := emit event data c in
  (ev = event /\ passes flt data = true
   /\ wait_listeners w c' = [] /\ wait_timers w c' = []
   /\ settlements w c' = EResolve w data :: settlements w c)
  \/ (wait_listeners w c' = wait_listeners w c
      /\ wait_timers w c' = wait_timers w c
      /\ settlements w c' = settlements w c).
Proof.
  intros H c'. subst c'. unfold emit.
  destruct (filter_single _ _ _ H) as (l1 & l2 & E & H1 & H2).
  rewrite E, filter_app, map_app, fold_left_app.
  set (c0 := perform (EEmit event data) c).
  destruct (fold_other w event data _ c0 (snapshot_other w event l1 H1))
    as (A1 & B1 & C1).
  set (c1 := fold_left _ (map snd (filter (on_event event) l1)) c0) in *.
  change (wait_listeners w c0) with (wait_listeners w c) in A1.
  change (wait_timers w c0) with (wait_timers w c) in B1.
  change (settlements w c0) with (settlements w c) in C1.
  cbn [filter].
  destruct (on_event event (ev, LWait w flt)) eqn:On; cbn [map fold_left snd].
  - apply String.eqb_eq in On. simpl in On. subst ev.
    pose proof (call_self w event flt data c1) as S.
    rewrite A1 in S. specialize (S H). cbv zeta in S.
    set (c2 := call_listener event data c1 (LWait w flt)) in *.
    destruct (fold_other w event data _ c2 (snapshot_other w event l2 H2))
      as (A3 & B3 & C3).
    destruct (passes flt data).
    + left. destruct S as (A2 & B2 & C2).
      repeat split; trivial; congruence.
    + right. rewrite S in *. repeat split; congruence.
  - right.
    destruct (fold_other w event data _ c1 (snapshot_other w event l2 H2))
      as (A3 & B3 & C3).
    repeat split; congruence.
Qed.

Lemma evolves_emit event data c : evolves c (emit event data c).
Proof.
  intro F. split; [|split].
  - now emit_frame nextHandle.
  - intros w Hw. rewrite (emit_frame nextHandle) in Hw by reflexivity.
    destruct (F w Hw) as (A & B & C).
    destruct (emit_waits_absent w event data c A) as (A' & B' & C').
    repeat split; congruence.
  - intros w ev flt tmo [H1 H2 H3|x H0 H1 H2 H3|ms H0 H1 H2 H3].
    + destruct (emit_waits_present w event data c _ _ H1)
        as [(_ & P & A & B & C)|(A & B & C)].
      * apply Resolved with data; trivial. now rewrite C, H3.
      * apply Waiting; congruence.
    + destruct (emit_waits_absent w event data c H2) as (A & B & C).
      apply Resolved with x; congruence.
    + destruct (emit_waits_absent w event data c H2) as (A & B & C).
      apply Rejected with ms; congruence.
Qed.

(** *** Every handler keeps the promises in order *)

Lemma wait_state_allocated w event flt tmo c :
  handles_fresh c -> wait_state w event flt tmo c -> w < nextHandle c.
Proof.
  intros F H. destruct (Nat.lt_ge_cases w (nextHandle c)) as [|Hw]; trivial.
  destruct (F w Hw) as (A & B & C).
  destruct H as [H1 _ _|x _ H1 _ _|ms _ H1 _ _]; congruence.
Qed.

Ltac evolves_same :=
  apply evolves_same; [handlers; simpl; split_tests; simpl; lia | same_waits].

Lemma evolves_cleanup c : evolves c (_cleanup c).
Proof. evolves_same. Qed.

Lemma evolves_scheduleReconnect e c : evolves c (_scheduleReconnect e c).
Proof. evolves_same. Qed.

Lemma evolves_handleDispatch packet c : evolves c (_handleDispatch packet c).
Proof.
  unfold _handleDispatch.
  destruct (t packet) as [name|]; [|apply evolves_refl].
  destruct (String.eqb name EmptyString); [apply evolves_refl|].
  destruct (ignored c name); [apply evolves_refl|].
  eapply evolves_trans; [apply evolves_emit|].
  destruct (String.eqb name "READY"); [|destruct (String.eqb name "RESUMED")];
    try apply evolves_emit;
    (eapply evolves_trans; [|apply evolves_emit]); evolves_same.
Qed.

Lemma evolves_handleMessage e raw c : evolves c (_handleMessage e raw c).
Proof.
  unfold _handleMessage.
  destruct raw as [packet|]; [|apply evolves_refl].
  set (c1 := match s packet with Some n => set_sequence n c | None => c end).
  assert (E1 : evolves c c1).
  { subst c1. destruct (s packet); [evolves_same|apply evolves_refl]. }
  eapply evolves_trans; [exact E1|]. clearbody c1.
  destruct (op packet); try apply evolves_refl.
  - apply evolves_handleDispatch.
  - evolves_same.
  - eapply evolves_trans; [|apply evolves_scheduleReconnect].
    apply evolves_cleanup.
  - eapply evolves_trans; [|apply evolves_scheduleReconnect].
    eapply evolves_trans; [|apply evolves_cleanup].
    destruct (negb _); [evolves_same|apply evolves_refl].
  - evolves_same.
  - eapply evolves_trans; [|apply evolves_emit]. evolves_same.
Qed.

Lemma evolves_ws_close e code reason c : evolves c (ws_close e code reason c).
Proof.
  unfold ws_close.
  set (c1 := emit _ _ _).
  assert (E1 : evolves c c1).
  { eapply evolves_trans; [|apply evolves_emit]. evolves_same. }
  clearbody c1.
  assert (E2 : evolves c (_handleCloseCode code c1)).
  { eapply evolves_trans; [exact E1|]. unfold _handleCloseCode.
    destruct (_ || _); [evolves_same|apply evolves_refl]. }
  destruct (negb _ && _); trivial.
  eapply evolves_trans; [exact E2|apply evolves_scheduleReconnect].
Qed.

Lemma evolves_waitFor event flt tmo c : evolves c (waitFor event flt tmo c).
Proof.
  intro F.
  assert (V : forall w, w <> nextHandle c ->
            wait_listeners w (waitFor event flt tmo c) = wait_listeners w c
            /\ wait_timers w (waitFor event flt tmo c) = wait_timers w c
            /\ settlements w (waitFor event flt tmo c) = settlements w c).
  { intros w Hw. apply Nat.eqb_neq in Hw. rewrite Nat.eqb_sym in Hw.
    unfold wait_listeners, wait_timers, settlements, waitFor.
    destruct tmo as [ms|]; [destruct (negb (Qle_bool ms 0))|];
      handlers; simpl; rewrite ?filter_app; simpl;
      unfold is_wait_listener; simpl; rewrite ?Hw, ?app_nil_r; auto. }
  assert (N : nextHandle (waitFor event flt tmo c) = S (nextHandle c)).
  { unfold waitFor. destruct tmo as [ms|]; [destruct (negb _)|]; reflexivity. }
  split; [lia|split].
  - intros w Hw. rewrite N in Hw.
    destruct (V w) as (A & B & C); [lia|].
    destruct (F w) as (A' & B' & C'); [lia|].
    repeat split; congruence.
  - intros w ev f o H.
    pose proof (wait_state_allocated _ _ _ _ _ F H) as Hw.
    destruct (V w) as (A & B & C); [lia|].
    revert H. now apply wait_state_same.
Qed.

Lemma pending_In tm c : pending tm c = true -> In tm (timers c).
Proof.
  unfold pending. intro H. apply existsb_exists in H as (x & I & E).
  apply timer_eqb_eq in E. now subst.
Qed.

Lemma timeout_other w v event ms c :
  v <> w ->
  let c' := waitFor_timeout v event ms (expire (TmWaitFor v event ms) c) in
  wait_listeners w c' = wait_listeners w c
  /\ wait_timers w c' = wait_timers w c
  /\ settlements w c' = settlements w c.
Proof.
  intro H. unfold wait_listeners, wait_timers, settlements.
  handlers. simpl.
  rewrite (wait_off_other w v event _ H), (wait_filter_other w v _ H).
  apply Nat.eqb_neq in H. rewrite wait_expire by (simpl; exact H).
  now rewrite H.
Qed.

Lemma timeout_self w event ms flt c :
  wait_listeners w c = [(event, LWait w flt)] ->
  let c' := waitFor_timeout w event ms (expire (TmWaitFor w event ms) c) in
  wait_listeners w c' = [] /\ wait_timers w c' = []
  /\ settlements w c' = EReject w event ms :: settlements w c.
Proof.
  intro H. unfold wait_listeners, wait_timers, settlements in *.
  handlers. simpl. repeat split.
  - rewrite filter_remove_last_same.
    + rewrite H. simpl. unfold on_event, same_fn. simpl.
      now rewrite String.eqb_refl, Nat.eqb_refl.
    + intros [n [g o|v f|]]; unfold is_wait_listener, same_fn; simpl;
        rewrite ?andb_false_r; try congruence.
      intro E. apply andb_true_iff in E as [_ E].
      now rewrite Nat.eqb_sym.
  - apply filter_negb_same.
  - now rewrite Nat.eqb_refl.
Qed.

Lemma evolves_fire e tm c : pending tm c = true -> evolves c (fire e tm c).
Proof.
  intro P. destruct tm as [ms|i j|h i|v event ms]; simpl;
    try (apply pending_In in P; evolves_same; fail).
  intro F.
  - assert (I : In (TmWaitFor v event ms) (wait_timers v c)).
    { apply filter_In. split; [now apply pending_In|].
      simpl. apply Nat.eqb_refl. }
    assert (Hv : v < nextHandle c).
    { destruct (Nat.lt_ge_cases v (nextHandle c)) as [|Hv]; trivial.
      destruct (F v Hv) as (_ & B & _). rewrite B in I. contradiction. }
    split; [|split].
    + reflexivity.
    + intros w Hw.
      replace (nextHandle (waitFor_timeout v event ms
                 (expire (TmWaitFor v event ms) c)))
        with (nextHandle c) in Hw by reflexivity.
      destruct (timeout_other w v event ms c) as (A & B & C); [lia|].
      destruct (F w Hw) as (A' & B' & C'). repeat split; congruence.
    + intros w ev f o H.
      destruct (Nat.eq_dec v w) as [->|Hne].
      * destruct H as [H1 H2 H3|x H0 H1 H2 H3|ms' H0 H1 H2 H3];
          try (rewrite H3 in I; contradiction).
        rewrite H2 in I. destruct o as [ms'|]; simpl in I; [|contradiction].
        destruct I as [I|[]]. injection I as -> ->.
        destruct (timeout_self w event ms f c H1) as (A & B & C).
        apply Rejected with ms; trivial. now rewrite C, H3.
      * destruct (timeout_other w v event ms c Hne) as (A & B & C).
        revert H. now apply wait_state_same.
Qed.

Lemma evolves_step c ev : evolves c (step c ev).
Proof.
  destruct ev as [e ev]. unfold step. simpl.
  destruct ev; try (evolves_same; fail).
  - apply evolves_waitFor.
  - destruct (_ws c) as [[]|]; try apply evolves_refl.
    apply evolves_handleMessage.
  - destruct (_ws c) as [[]|]; try apply evolves_refl;
      (eapply evolves_trans; [|apply evolves_ws_close]); evolves_same.
  - destruct (_ws c); [apply evolves_emit|apply evolves_refl].
  - destruct (pending tm c) eqn:P; [now apply evolves_fire|apply evolves_refl].
Qed.

Lemma evolves_run evs : forall c, evolves c (run evs c).
Proof.
  induction evs as [|ev evs IH]; intro c; simpl; [apply evolves_refl|].
  eapply evolves_trans; [apply evolves_step|apply IH].
Qed.

Lemma init_fresh cfg : handles_fresh (init cfg).
Proof. intros w _. now repeat split. Qed.

Lemma reachable_fresh cfg evs : handles_fresh (run evs (init cfg)).
Proof. apply (evolves_run evs (init cfg)), init_fresh. Qed.

(** *** A client with one more [waitFor] call behaves like the client
    without it *)

Lemma on_event_refl event (l : Listener) : on_event event (event, l) = true.
Proof. unfold on_event. simpl. apply String.eqb_refl. Qed.

Lemma own_timers_cleared w tw :
  (forall tm, In tm tw -> is_wait_timer w tm = true) ->
  filter (fun tm => negb (is_wait_timer w tm)) tw = [].
Proof.
  induction tw as [|tm tw IH]; intro H; simpl; trivial.
  rewrite (H tm (or_introl eq_refl)). simpl.
  apply IH. intros; apply H; now right.
Qed.

Lemma own_timers_kept w v tw :
  (v =? w) = false ->
  (forall tm, In tm tw -> is_wait_timer w tm = true) ->
  filter (fun tm => negb (is_wait_timer v tm)) tw = tw.
Proof.
  intro Hv. induction tw as [|tm tw IH]; intro H; simpl; trivial.
  rewrite IH by (intros; apply H; now right).
  pose proof (H tm (or_introl eq_refl)) as Htm.
  destruct tm as [ | | |u n m]; try discriminate. simpl in *.
  apply Nat.eqb_eq in Htm. subst u. rewrite Nat.eqb_sym, Hv. reflexivity.
Qed.

Lemma call_shadow w ev flt tw event data l a b :
  (forall tm, In tm tw -> is_wait_timer w tm = true) ->
  is_wait_listener w (event, l) = false ->
  shadow w ev flt tw a b ->
  shadow w ev flt tw (call_listener event data a l)
    (call_listener event data b l).
Proof.
  intros Htw Hl (E & T & X). unfold shadow.
  destruct l as [fn [|]|v f|]; simpl; auto.
  - rewrite E, remove_last_app_other; auto.
    unfold same_fn. simpl. apply andb_false_r.
  - unfold is_wait_listener in Hl. simpl in Hl.
    unfold waitFor_handler.
    destruct (match f with Some g => negb (g data) | None => false end);
      [now repeat split|].
    simpl. rewrite E, T, X, filter_app, remove_last_app_other.
    + repeat split; trivial. f_equal. now apply (own_timers_kept w).
    + unfold same_fn. simpl. rewrite Hl. apply andb_false_r.
Qed.

Lemma fold_shadow w ev flt tw event data ls : forall a b,
  (forall tm, In tm tw -> is_wait_timer w tm = true) ->
  forallb (fun l => negb (is_wait_listener w (event, l))) ls = true ->
  shadow w ev flt tw a b ->
  shadow w ev flt tw (fold_left (call_listener event data) ls a)
    (fold_left (call_listener event data) ls b).
Proof.
  induction ls as [|l ls IH]; intros a b Htw H S; simpl in *; trivial.
  apply andb_true_iff in H as [H1 H2]. apply negb_true_iff in H1.
  apply IH; trivial. now apply call_shadow.
Qed.

Lemma emit_shadow w flt tw event data a b :
  (forall tm, In tm tw -> is_wait_timer w tm = true) ->
  wait_listeners w b = [] -> wait_timers w b = [] ->
  shadow w event flt tw a b ->
  let a' := emit event data a in
  let b' := emit event data b in
  if passes flt data
  then effects a' = EResolve w data :: effects b'
       /\ _emitter a' = _emitter b' /\ timers a' = timers b'
  else shadow w event flt tw a' b'.
Proof.
  intros Htw L T S a' b'. subst a' b'. unfold emit.
  destruct S as (E & Tm & X).
  rewrite E, filter_app, map_app, fold_left_app. simpl.
  rewrite on_event_refl. simpl.
  assert (S0 : shadow w event flt tw (perform (EEmit event data) a)
                 (perform (EEmit event data) b)).
  { unfold shadow. simpl. now rewrite E, Tm, X. }
  pose proof (fold_shadow w event flt tw event data _ _ _ Htw
                (snapshot_other w event _ L) S0) as (E1 & T1 & X1).
  fold (emit event data b) in *.
  destruct (emit_waits_absent w event data b L) as (_ & T2 & _).
  rewrite T in T2.
  set (a1 := fold_left _ _ (perform (EEmit event data) a)) in *.
  unfold waitFor_handler. rewrite passes_test.
  destruct (passes flt data); simpl.
  - rewrite E1, T1, X1. repeat split.
    + apply remove_last_app_same. unfold on_event, same_fn. simpl.
      now rewrite String.eqb_refl, Nat.eqb_refl.
    + rewrite filter_app, (filter_nil_negb _ _ T2).
      rewrite (own_timers_cleared w tw Htw). apply app_nil_r.
  - now repeat split.
Qed.

Lemma installs ms : (0 < ms)%Q -> negb (Qle_bool ms 0) = true.
Proof.
  intro H. apply negb_true_iff. destruct (Qle_bool ms 0) eqn:E; trivial.
  apply Qle_bool_iff in E. exfalso. apply (Qlt_not_le _ _ H E).
Qed.

Lemma waitFor_shadow event flt ms c :
  (0 < ms)%Q ->
  shadow (nextHandle c) event flt [TmWaitFor (nextHandle c) event ms]
    (waitFor event flt (Some ms) c) c.
Proof.
  intro H. unfold waitFor. rewrite (installs ms H). now repeat split.
Qed.

Lemma waitFor_waiting event flt ms c :
  (0 < ms)%Q -> handles_fresh c ->
  wait_state (nextHandle c) event flt (Some ms) (waitFor event flt (Some ms) c).
Proof.
  intros H F. destruct (F (nextHandle c) (le_n _)) as (A & B & C).
  unfold wait_listeners, wait_timers, settlements in *.
  unfold waitFor. rewrite (installs ms H).
  apply Waiting; unfold wait_listeners, wait_timers, settlements;
    handlers; simpl; rewrite ?filter_app, ?A, ?B, ?C; simpl; trivial.
  - unfold is_wait_listener. simpl. now rewrite Nat.eqb_refl.
  - now rewrite Nat.eqb_refl.
Qed.

Lemma remove_first_app_last {A} (r : A -> bool) l x :
  existsb r l = false -> r x = true -> remove_first r (l ++ [x]) = l.
Proof.
  intros H R. induction l as [|y l IH]; simpl in *.
  - now rewrite R.
  - apply orb_false_iff in H as [-> H]. now rewrite IH.
Qed.

Lemma listenerCount_on event l c :
  listenerCount event (emitter_on event l c) = S (listenerCount event c).
Proof.
  unfold listenerCount, count, emitter_on. simpl.
  rewrite filter_app, length_app. simpl. rewrite on_event_refl. simpl. lia.
Qed.

(** C7. A call [waitFor(event, { filter, timeout })] with a positive timeout
    registers one listener and arms one timer. If a matching event is
    emitted first, the promise is resolved with its payload; if the timer
    fires first, the promise is rejected; in both cases the listener is
    unregistered and the timer is gone, so that the emitter and the timers
    are as if [waitFor] had not been called. An event that the filter
    rejects leaves the call waiting. Whatever happens afterwards, the promise
    is in one of three states: still waiting (listener registered, timer
    pending, nothing settled), resolved exactly once, or rejected exactly
    once (nothing registered or pending in both). *)
Theorem C7_waitFor_settles_once_and_cleans_up :
  forall (cfg : Config) (evs0 : list (Env * Event)) (event : string)
         (flt : option (Json -> bool)) (ms : Q),
    (0 < ms)%Q ->
    let c := run evs0 (init cfg) in
    let w := nextHandle c in
    let c1 := waitFor event flt (Some ms) c in
    listenerCount event c1 = S (listenerCount event c)
    /\ timers c1 = timers c ++ [TmWaitFor w event ms]
    /\ (forall data, passes flt data = true ->
          effects (emit event data c1)
          = EResolve w data :: effects (emit event data c)
          /\ _emitter (emit event data c1) = _emitter (emit event data c)
          /\ timers (emit event data c1) = timers (emit event data c))
    /\ (forall data, passes flt data = false ->
          effects (emit event data c1) = effects (emit event data c)
          /\ _emitter (emit event data c1)
             = _emitter (emit event data c) ++ [(event, LWait w flt)]
          /\ timers (emit event data c1)
             = timers (emit event data c) ++ [TmWaitFor w event ms])
    /\ (forall e : Env,
          let c2 := step c1 (e, Fire (TmWaitFor w event ms)) in
          effects c2 = EReject w event ms :: effects c
          /\ _emitter c2 = _emitter c
          /\ timers c2 = timers c
          /\ listenerCount event c2 = listenerCount event c)
    /\ (forall evs, wait_state w event flt (Some ms) (run evs c1)).
Proof.
  intros cfg evs0 event flt ms Hms c w c1.
  assert (F : handles_fresh c) by apply reachable_fresh.
  destruct (F w (le_n _)) as (L & T & X).
  pose proof (waitFor_shadow event flt ms c Hms) as Sh. fold w c1 in Sh.
  assert (Htw : forall tm, In tm [TmWaitFor w event ms] ->
                           is_wait_timer w tm = true).
  { intros tm [<-|[]]. simpl. apply Nat.eqb_refl. }
  assert (E1 : _emitter c1 = _emitter c ++ [(event, LWait w flt)]) by apply Sh.
  assert (T1 : timers c1 = timers c ++ [TmWaitFor w event ms]) by apply Sh.
  assert (X1 : effects c1 = effects c) by apply Sh.
  split; [|split; [|split; [|split; [|split]]]].
  - unfold c1, waitFor. rewrite (installs ms Hms).
    apply (listenerCount_on event (LWait w flt) (set_nextHandle (S w) c)).
  - exact T1.
  - intros data P.
    pose proof (emit_shadow w flt _ event data c1 c Htw L T Sh) as H.
    cbv zeta in H. now rewrite P in H.
  - intros data P.
    pose proof (emit_shadow w flt _ event data c1 c Htw L T Sh) as H.
    cbv zeta in H. rewrite P in H. destruct H as (A & B & C). auto.
  - intros e c2. subst c2. unfold step. simpl.
    rewrite (pending_app _ _ _ T1). simpl.
    assert (Ex : existsb (timer_eqb (TmWaitFor w event ms)) (timers c) = false).
    { apply (existsb_filter_nil (is_wait_timer w)); [|exact T].
      intros x Hx. apply timer_eqb_eq in Hx. subst x. simpl.
      apply Nat.eqb_refl. }
    assert (Em : remove_last
                   (fun x => on_event event x && same_fn (LWait w None) (snd x))
                   (_emitter c1) = _emitter c).
    { rewrite E1. apply remove_last_app_same. unfold on_event, same_fn. simpl.
      now rewrite String.eqb_refl, Nat.eqb_refl. }
    handlers. simpl. unfold listenerCount. simpl.
    rewrite Em, T1, X1, remove_first_app_last, (filter_nil_negb _ _ T);
      auto using timer_eqb_refl.
  - intro evs.
    assert (F1 : handles_fresh c1) by apply (evolves_waitFor _ _ _ c F).
    apply (evolves_run evs c1 F1).
    now apply waitFor_waiting.
Qed.

Lemma C7_waitFor_settles_once_and_cleans_up_witness :
  let event := "MESSAGE_CREATE"%string in
  let flt := Some Sample.is_seven in
  let ms := 30000%Q in
  let c := run Sample.handshake (init Sample.cfg) in
  let w := nextHandle c in
  let c1 := waitFor event flt (Some ms) c in
  (0 < ms)%Q
  /\ listenerCount event c1 = S (listenerCount event c)
  /\ timers c1 = timers c ++ [TmWaitFor w event ms]
  /\ (passes flt (JNum 7) = true
      /\ effects (emit event (JNum 7) c1)
         = EResolve w (JNum 7) :: effects (emit event (JNum 7) c)
      /\ _emitter (emit event (JNum 7) c1) = _emitter (emit event (JNum 7) c)
      /\ timers (emit event (JNum 7) c1) = timers (emit event (JNum 7) c))
  /\ (passes flt JNull = false
      /\ effects (emit event JNull c1) = effects (emit event JNull c)
      /\ _emitter (emit event JNull c1)
         = _emitter (emit event JNull c) ++ [(event, LWait w flt)]
      /\ timers (emit event JNull c1)
         = timers (emit event JNull c) ++ [TmWaitFor w event ms])
  /\ (let c2 := step c1 (Sample.env, Fire (TmWaitFor w event ms)) in
      effects c2 = EReject w event ms :: effects c
      /\ _emitter c2 = _emitter c
      /\ timers c2 = timers c
      /\ listenerCount event c2 = listenerCount event c)
  /\ wait_state w event flt (Some ms)
       (run [(Sample.env, WsMessage (Sample.dispatch event 2))] c1).
Proof.
  intros event flt ms c w c1.
  assert (Hms : (0 < ms)%Q) by reflexivity.
  destruct (C7_waitFor_settles_once_and_cleans_up Sample.cfg Sample.handshake
              event flt ms Hms) as (A & B & C & D & E & F).
  assert (P7 : passes flt (JNum 7) = true) by reflexivity.
  assert (P0 : passes flt JNull = false) by reflexivity.
  split; [exact Hms|]. split; [exact A|]. split; [exact B|].
  split; [split; [exact P7|exact (C (JNum 7) P7)]|].
  split; [split; [exact P0|exact (D JNull P0)]|].
  split; [exact (E Sample.env)|]. apply F.
Defined.


(** C10. A call of [waitFor] whose timeout is undefined, zero or negative
    arms no timer. Whatever happens afterwards its promise is never
    rejected: it is either resolved, by a matching event, or still waiting
    with its listener registered. *)
Theorem C10_waitFor_without_timeout_never_rejects :
  forall (cfg : Config) (evs0 : list (Env * Event)) (event : string)
         (flt : option (Json -> bool)) (timeout : option Q),
    (timeout = None \/ exists ms, timeout = Some ms /\ (ms <= 0)%Q) ->
    let c := run evs0 (init cfg) in
    let w := nextHandle c in
    let c1 := waitFor event flt timeout c in
    timers c1 = timers c
    /\ listenerCount event c1 = S (listenerCount event c)
    /\ forall evs,
         let c3 := run evs c1 in
         wait_timers w c3 = []
         /\ (forall ev' ms', ~ In (EReject w ev' ms') (effects c3))
         /\ ((settlements w c3 = []
              /\ wait_listeners w c3 = [(event, LWait w flt)])
             \/ (exists data, passes flt data = true
                  /\ settlements w c3 = [EResolve w data]
                  /\ wait_listeners w c3 = [])).
Proof.
  intros cfg evs0 event flt timeout Ht c w c1.
  assert (F : handles_fresh c) by apply reachable_fresh.
  destruct (F w (le_n _)) as (L & T & X).
  assert (E : c1 = emitter_on event (LWait w flt) (set_nextHandle (S w) c)).
  { unfold c1, waitFor. destruct Ht as [->|(ms & -> & H)]; trivial.
    apply Qle_bool_iff in H. now rewrite H. }
  split; [now rewrite E|].
  split; [rewrite E;
          exact (listenerCount_on event (LWait w flt)
                   (set_nextHandle (S w) c))|].
  intros evs c3.
  assert (W : wait_state w event flt None c3).
  { assert (F1 : handles_fresh c1) by apply (evolves_waitFor _ _ _ c F).
    apply (evolves_run evs c1 F1).
    rewrite E. unfold wait_listeners, wait_timers, settlements in *.
    apply Waiting; unfold wait_listeners, wait_timers, settlements;
      handlers; simpl; rewrite ?filter_app, ?L, ?T, ?X; simpl; trivial.
    unfold is_wait_listener. simpl. now rewrite Nat.eqb_refl. }
  assert (R : forall ev' ms', In (EReject w ev' ms') (effects c3) ->
                              In (EReject w ev' ms') (settlements w c3)).
  { intros ev' ms' I. apply filter_In. split; trivial. simpl.
    apply Nat.eqb_refl. }
  destruct W as [H1 H2 H3|data H0 H1 H2 H3|ms H0 H1 H2 H3];
    [| |discriminate].
  - repeat split; auto. intros ev' ms' I. apply R in I. now rewrite H3 in I.
  - repeat split; eauto. intros ev' ms' I. apply R in I. rewrite H1 in I.
    destruct I as [I|[]]. discriminate.
Qed.

Lemma C10_waitFor_without_timeout_never_rejects_witness :
  let event := "MESSAGE_CREATE"%string in
  let flt := Some Sample.is_seven in
  let c := run Sample.handshake (init Sample.cfg) in
  let w := nextHandle c in
  (forall timeout,
     timeout = None \/ timeout = Some 0%Q \/ timeout = Some (-5)%Q ->
     (timeout = None \/ exists ms, timeout = Some ms /\ (ms <= 0)%Q)
     /\ timers (waitFor event flt timeout c) = timers c
     /\ listenerCount event (waitFor event flt timeout c)
        = S (listenerCount event c))
  /\ (let c3 := run [(Sample.env, WsMessage (Sample.dispatch event 2));
                     (Sample.env, WsClose 1006 EmptyString)]
                  (waitFor event flt None c) in
      wait_timers w c3 = []
      /\ (forall ev' ms', ~ In (EReject w ev' ms') (effects c3))
      /\ ((settlements w c3 = []
           /\ wait_listeners w c3 = [(event, LWait w flt)])
          \/ (exists data, passes flt data = true
               /\ settlements w c3 = [EResolve w data]
               /\ wait_listeners w c3 = []))).
Proof.
  intros event flt c w.
  split.
  - intros timeout Ht.
    assert (H : timeout = None \/ exists ms, timeout = Some ms /\ (ms <= 0)%Q).
    { destruct Ht as [->|[-> | ->]]; [now left| |];
        right; eexists; (split; [reflexivity|discriminate]). }
    split; [exact H|].
    destruct (C10_waitFor_without_timeout_never_rejects Sample.cfg
                Sample.handshake event flt timeout H) as (A & B & _).
    now split.
  - destruct (C10_waitFor_without_timeout_never_rejects Sample.cfg
                Sample.handshake event flt None (or_introl eq_refl))
      as (_ & _ & R).
    apply R.
Defined.


(** ** The sliding-window bucket (C9) *)

Module RateLimitFacts.
Import RateLimit.

Lemma prune_length now b :
  List.length (prune now b) <= List.length (timestamps b).
Proof. apply filter_length_le. Qed.

Lemma decide_config now b :
  limit (fst (decide now b)) = limit b
  /\ windowMs (fst (decide now b)) = windowMs b.
Proof. unfold decide. now destruct (_ <? _). Qed.

Lemma decide_bound now b :
  List.length (timestamps b) <= limit b ->
  List.length (timestamps (fst (decide now b))) <= limit b.
Proof.
  intro H. unfold decide. pose proof (prune_length now b).
  destruct (Nat.ltb_spec (List.length (prune now b)) (limit b)); simpl.
  - rewrite length_app. simpl. lia.
  - lia.
Qed.

Lemma decisions_bound nows : forall b,
  List.length (timestamps b) <= limit b ->
  List.length (timestamps (decisions nows b)) <= limit b
  /\ limit (decisions nows b) = limit b.
Proof.
  induction nows as [|now nows IH]; intros b H; simpl; auto.
  destruct (decide_config now b) as [L _].
  destruct (IH (fst (decide now b))) as [A B].
  - rewrite L. now apply decide_bound.
  - split; congruence.
Qed.

Lemma pruned_witness now b :
  List.length (prune now b) < List.length (timestamps b) ->
  exists ts, In ts (timestamps b) /\ (ts < now - windowMs b)%Z.
Proof.
  unfold prune. induction (timestamps b) as [|x l IH]; simpl; [lia|].
  destruct (Z.leb_spec (now - windowMs b) x) as [Hx|Hx]; simpl; intro Hl.
  - destruct IH as (ts & I & F); [lia|]. eauto.
  - eauto.
Qed.

(** While the bucket holds [limit] or more timestamps, none before [o], no
    caller is admitted before [o + windowMs]. *)
Lemma acquire_not_before o lags : forall now b T b',
  limit b <= List.length (timestamps b) ->
  not_before o b ->
  acquire lags now b = Some (T, b') ->
  (o + windowMs b <= T)%Z.
Proof.
  assert (Hgr : forall now b,
            limit b <= List.length (timestamps b) -> not_before o b ->
            List.length (prune now b) < limit b ->
            (o + windowMs b <= now)%Z).
  { intros now b Hfull Ho Hlt.
    destruct (pruned_witness now b) as (ts & I & F); [lia|].
    specialize (Ho ts I). lia. }
  induction lags as [|lag rest IH]; intros now b T b' Hfull Ho; simpl;
    unfold decide;
    destruct (Nat.ltb_spec (List.length (prune now b)) (limit b)) as [Hlt|Hge];
    try discriminate.
  - intro E. injection E as <- _. now apply Hgr.
  - intro E. injection E as <- _. now apply Hgr.
  - intro E.
    change (windowMs b) with (windowMs (with_timestamps (prune now b) b)).
    eapply IH; [| |exact E]; trivial.
    intros ts I. apply Ho. unfold prune in I. simpl in I.
    now apply filter_In in I.
Qed.

Lemma decisions_config nows : forall b,
  windowMs (decisions nows b) = windowMs b.
Proof.
  induction nows as [|now nows IH]; intro b; simpl; trivial.
  rewrite IH. apply decide_config.
Qed.

Lemma sorted_filter (p : Z -> bool) l :
  StronglySorted Z.le l -> StronglySorted Z.le (filter p l).
Proof.
  induction 1 as [|x l S IH F]; simpl; [constructor|].
  destruct (p x); trivial. constructor; trivial.
  rewrite Forall_forall in *. intros y I. apply F.
  now apply filter_In in I.
Qed.

Lemma sorted_snoc l x :
  StronglySorted Z.le l -> (forall y, In y l -> (y <= x)%Z) ->
  StronglySorted Z.le (l ++ [x]).
Proof.
  induction 1 as [|y l S IH F]; intro H; simpl.
  - repeat constructor.
  - constructor.
    + apply IH. intros; apply H; now right.
    + rewrite Forall_forall in *. intros z I.
      apply in_app_or in I as [I|[<-|[]]]; [now apply F|].
      apply H. now left.
Qed.

Lemma sorted_head d l :
  StronglySorted Z.le l -> forall y, In y l -> (hd d l <= y)%Z.
Proof.
  intros S y I. destruct S as [|x l S F]; [contradiction|]. simpl.
  destruct I as [<-|I]; [lia|]. rewrite Forall_forall in F. now apply F.
Qed.

(** Admissions at instants that do not go back in time keep the recorded
    timestamps ordered, oldest first. *)
Lemma decisions_sorted nows : forall b lo,
  StronglySorted Z.le (timestamps b) ->
  (forall ts, In ts (timestamps b) -> (ts <= lo)%Z) ->
  StronglySorted Z.le (lo :: nows) ->
  StronglySorted Z.le (timestamps (decisions nows b)).
Proof.
  induction nows as [|now nows IH]; intros b lo S B N; simpl; trivial.
  inversion N as [|? ? N' F]; subst. inversion F as [|? ? Hlo F']; subst.
  assert (K : forall ts, In ts (prune now b) -> (ts <= now)%Z).
  { intros ts I. apply filter_In in I as [I _]. specialize (B ts I). lia. }
  apply (IH _ now); trivial.
  - unfold decide. destruct (_ <? _); simpl.
    + apply sorted_snoc; trivial. now apply sorted_filter.
    + now apply sorted_filter.
  - unfold decide. destruct (_ <? _); simpl; trivial.
    intros ts I. apply in_app_or in I as [I|[<-|[]]]; [auto|lia].
Qed.

Lemma acquire_granted lags now b b' :
  decide now b = (b', Granted) -> acquire lags now b = Some (now, b').
Proof. intro H. destruct lags; simpl; now rewrite H. Qed.

Lemma acquire_wait lag rest now b b' waitMs :
  decide now b = (b', Wait waitMs) ->
  acquire (lag :: rest) now b = acquire rest (now + waitMs + Z.of_nat lag) b'.
Proof. intro H. simpl acquire at 1. now rewrite H. Qed.

(** A caller that finds the bucket full, and is woken later than it asked,
    is admitted at its first retry. *)
Lemma acquire_grants now b lag rest :
  0 < limit b -> List.length (timestamps b) <= limit b ->
  exists T b', acquire (S lag :: rest) now b = Some (T, b').
Proof.
  intros Hl Hb.
  destruct (decide now b) as [b1 [|waitMs]] eqn:D.
  - rewrite (acquire_granted _ _ _ _ D). eauto.
  - rewrite (acquire_wait _ _ _ _ _ _ D).
    set (now1 := (now + waitMs + Z.of_nat (S lag))%Z).
    unfold decide in D.
    destruct (Nat.ltb_spec (List.length (prune now b)) (limit b)) as [Hlt|Hge];
      [discriminate|].
    injection D as <- <-.
    set (kept := prune now b) in *.
    destruct (decide now1 (with_timestamps kept b)) as [b2 [|w2]] eqn:D2.
    + rewrite (acquire_granted _ _ _ _ D2). eauto.
    + exfalso. unfold decide in D2.
      destruct (Nat.ltb_spec
                  (List.length (prune now1 (with_timestamps kept b)))
                  (limit (with_timestamps kept b))) as [Hlt1|Hge1];
        [discriminate|].
      pose proof (prune_length now b) as Hk. fold kept in Hk.
      unfold prune in Hge1. simpl in Hge1.
      destruct kept as [|o kept']; simpl in *; [lia|].
      destruct (Z.leb_spec (now1 - windowMs b) o) as [Ho|Ho];
        [unfold now1 in Ho; lia|].
      pose proof (filter_length_le
                    (fun ts => (now1 - windowMs b <=? ts)%Z) kept'). lia.
Qed.

(** C9. Starting from an empty bucket, after any sequence of admission
    decisions the bucket holds at most [limit] timestamps, so at most
    [limit] of them are younger than [windowMs] at any instant. When a
    decision finds the bucket at capacity, the caller is told to wait
    [(oldestRemainingTimestamp + windowMs) - now], and the next admission to
    that bucket, whoever asks and whenever, happens no earlier than
    [oldestRemainingTimestamp + windowMs]. *)
Theorem C9_bucket_within_limit :
  forall (lim : nat) (window : Z) (nows : list Z),
    let b := decisions nows (empty lim window) in
    List.length (timestamps b) <= lim
    /\ (forall now, younger now b <= lim)
    /\ (forall now b1 waitMs,
          0 < lim ->
          StronglySorted Z.le (timestamps b) ->
          decide now b = (b1, Wait waitMs) ->
          let oldest := hd now (timestamps b1) in
          waitMs = (oldest + window - now)%Z
          /\ forall lags now' T b2,
               acquire lags now' b1 = Some (T, b2) ->
               (oldest + window <= T)%Z).
Proof.
  intros lim window nows b.
  destruct (decisions_bound nows (empty lim window)) as [Hlen Hlim];
    [simpl; lia|].
  pose proof (decisions_config nows (empty lim window)) as Hwin.
  fold b in Hlen, Hlim, Hwin. simpl in Hlen, Hlim, Hwin.
  split; [exact Hlen|]. split.
  - intro now. unfold younger, count.
    pose proof (filter_length_le (fun ts => (now - ts <? windowMs b)%Z)
                  (timestamps b)). lia.
  - intros now b1 waitMs Hpos Hs. unfold decide.
    destruct (Nat.ltb_spec (List.length (prune now b)) (limit b)) as [Hlt|Hge];
      [discriminate|].
    intro E. injection E as <- <-. simpl. rewrite Hwin. split; trivial.
    intros lags now' T b2 Ha.
    apply (acquire_not_before (hd now (prune now b)) lags now'
             (with_timestamps (prune now b) b) T b2) in Ha; trivial.
    + simpl in Ha. now rewrite Hwin in Ha.
    + intros ts I. simpl in I. apply sorted_head; trivial.
      now apply sorted_filter.
Qed.

Lemma C9_bucket_within_limit_witness :
  let b := decisions [0; 100]%Z (empty 2 1000) in
  let b1 := with_timestamps [0; 100]%Z b in
  (0 < 2
   /\ StronglySorted Z.le (timestamps b)
   /\ decide 200 b = (b1, Wait 800)
   /\ acquire [1] 200 b = Some (1001%Z, with_timestamps [100; 1001]%Z b))
  /\ List.length (timestamps b) <= 2
  /\ younger 200 b <= 2
  /\ (800 = hd 200 (timestamps b1) + 1000 - 200)%Z
  /\ (hd 200 (timestamps b1) + 1000 <= 1001)%Z.
Proof.
  intros b b1.
  assert (Hs : StronglySorted Z.le (timestamps b)).
  { change (timestamps b) with [0; 100]%Z. repeat constructor; discriminate. }
  assert (Hd : decide 200 b = (b1, Wait 800)) by (vm_compute; reflexivity).
  assert (Ha : acquire [1] 200 b
               = Some (1001%Z, with_timestamps [100; 1001]%Z b))
    by (vm_compute; reflexivity).
  destruct (C9_bucket_within_limit 2 1000 [0; 100]%Z) as (A & B & C).
  assert (Hl : 0 < 2) by lia.
  destruct (C 200%Z b1 800%Z Hl Hs Hd) as (W & N).
  split; [split; [exact Hl|]; split; [exact Hs|]; split; [exact Hd|exact Ha]|].
  split; [exact A|]. split; [exact (B 200%Z)|]. split; [exact W|].
  apply (N [] 1001%Z 1001%Z (with_timestamps [100; 1001]%Z b)).
  vm_compute. reflexivity.
Defined.


End RateLimitFacts.

(** * Further properties of the gateway client *)

(** ** Lifecycle *)

(** X1. [destroy()] is idempotent: a second call changes nothing. *)
Theorem destroy_idempotent :
  forall c : Client, destroy (destroy c) = destroy c.
Proof.
  intros [cfg ws sq sid hb ack sent ping att cing ring des em tms nh eff].
  unfold destroy, _cleanup, _stopHeartbeat. simpl.
  destruct hb as [h|]; destruct ws as [[]|]; reflexivity.
Qed.

Lemma cleanup_isConnecting c : _isConnecting (_cleanup c) = _isConnecting c.
Proof. handlers. split_tests; reflexivity. Qed.

Lemma cleanup_sockets c : sockets_opened (_cleanup c) = sockets_opened c.
Proof. unfold sockets_opened, count. handlers. split_tests; reflexivity. Qed.

(** X2. A call of [connect()] in which [new WebSocket(url)] returns leaves
    [_isConnecting] set, so a second call right after it is skipped: it
    opens no socket and changes no field, and from an idle client the two
    calls open exactly one socket. A call in which the constructor throws
    attaches no socket and leaves [_isConnecting] reset, so that the next
    call is not skipped. *)
Theorem connect_twice_opens_one_socket :
  forall (e e' : Env) (c : Client),
    (constructs e = true ->
       _isConnecting (connect e c) = true
       /\ connect e' (connect e c) = perform EConnect (connect e c)
       /\ sockets_opened (connect e' (connect e c))
          = sockets_opened (connect e c)
       /\ (_isConnecting c = false ->
           _ws (connect e c) = Some CONNECTING
           /\ sockets_opened (connect e' (connect e c))
              = S (sockets_opened c)))
    /\ (constructs e = false -> _isConnecting c = false ->
        _isConnecting (connect e c) = false
        /\ _ws (connect e c) = None
        /\ sockets_opened (connect e c) = sockets_opened c
        /\ (constructs e' = true ->
            _ws (connect e' (connect e c)) = Some CONNECTING
            /\ sockets_opened (connect e' (connect e c))
               = S (sockets_opened c))).
Proof.
  intros e e' c.
  assert (R : forall x y, _isConnecting y = false -> constructs x = true ->
              _ws (connect x y) = Some CONNECTING
              /\ sockets_opened (connect x y) = S (sockets_opened y)).
  { intros x y I K. unfold connect. cbv zeta.
    change (_isConnecting (perform EConnect y)) with (_isConnecting y).
    rewrite I, K. split; [reflexivity|].
    match goal with
    | |- sockets_opened (set_ws _ (perform (ESocketNew ?u) ?z)) = _ =>
        change (sockets_opened (set_ws (Some CONNECTING)
                                  (perform (ESocketNew u) z)))
          with (S (sockets_opened z))
    end.
    now rewrite cleanup_sockets. }
  assert (K : forall x y, _isConnecting y = true ->
              connect x y = perform EConnect y).
  { intros x y I. unfold connect. cbv zeta.
    change (_isConnecting (perform EConnect y)) with (_isConnecting y).
    now rewrite I. }
  split.
  - intro C.
    assert (H : _isConnecting (connect e c) = true).
    { unfold connect. cbv zeta.
      change (_isConnecting (perform EConnect c)) with (_isConnecting c).
      destruct (_isConnecting c) eqn:E; [exact E|].
      rewrite C.
      change (_isConnecting (set_ws ?v ?x)) with (_isConnecting x).
      change (_isConnecting (perform ?v ?x)) with (_isConnecting x).
      now rewrite cleanup_isConnecting. }
    rewrite (K e' _ H). repeat split; trivial.
    + now apply R.
    + change (sockets_opened (perform EConnect (connect e c)))
        with (sockets_opened (connect e c)).
      now apply R.
  - intros C I.
    assert (H : _isConnecting (connect e c) = false
                /\ _ws (connect e c) = None
                /\ sockets_opened (connect e c) = sockets_opened c).
    { unfold connect. cbv zeta.
      change (_isConnecting (perform EConnect c)) with (_isConnecting c).
      rewrite I, C. split; [reflexivity|].
      change (_ws (set_isConnecting false ?x)) with (_ws x).
      change (sockets_opened (set_isConnecting false ?x))
        with (sockets_opened x).
      rewrite cleanup_ws, cleanup_sockets. split; reflexivity. }
    destruct H as (H1 & H2 & H3). repeat split; trivial.
    + now apply R.
    + rewrite <- H3. now apply R.
Qed.

Lemma connect_twice_opens_one_socket_witness :
  let e := Sample.env in
  let failing := {| now := 1000%Z; random := 0; constructs := false |} in
  let c := init Sample.cfg in
  (constructs e = true /\ _isConnecting c = false
   /\ sockets_opened (connect e (connect e c)) = S (sockets_opened c))
  /\ (constructs failing = false
      /\ _isConnecting (connect failing c) = false
      /\ sockets_opened (connect e (connect failing c))
         = S (sockets_opened c)).
Proof.
  intros e failing c.
  assert (E : _isConnecting c = false) by reflexivity.
  destruct (connect_twice_opens_one_socket e e c) as (A & _).
  destruct (connect_twice_opens_one_socket failing e c) as (_ & B).
  destruct (A eq_refl) as (_ & _ & _ & A').
  destruct (B eq_refl E) as (B1 & _ & _ & B').
  split; [|split; [reflexivity|split; [exact B1|]]].
  - split; [reflexivity|]. split; [exact E|]. exact (proj2 (A' E)).
  - exact (proj2 (B' eq_refl)).
Defined.

(** ** A connection attempt that is cut short *)

Ltac field_frame :=
  unfold stalled, attempts_bounded, attempts_exhausted, outward, torn_down,
    sockets_opened, count in *;
  handlers; simpl in *; split_tests; simpl in *;
  repeat match goal with H : _ /\ _ |- _ => destruct H end;
  try congruence; auto.

Lemma stalled_fire e tm c :
  stalled c ->
  stalled (fire e tm c) /\ sockets_opened (fire e tm c) = sockets_opened c.
Proof. intros [I W]. destruct tm; simpl; field_frame. Qed.

Lemma stalled_step c ev :
  stalled c ->
  stalled (step c ev) /\ sockets_opened (step c ev) = sockets_opened c.
Proof.
  destruct ev as [e ev]. unfold step. simpl. intro S.
  destruct ev; try (field_frame; fail).
  destruct (pending tm c); auto using stalled_fire.
Qed.

Lemma stalled_run evs : forall c,
  stalled c ->
  stalled (run evs c) /\ sockets_opened (run evs c) = sockets_opened c.
Proof.
  induction evs as [|ev evs IH]; intros c S; simpl; auto.
  destruct (stalled_step c ev S) as [S1 E1].
  destruct (IH _ S1) as [S2 E2]. split; congruence.
Qed.

(** X3. When the server asks for a reconnect, or invalidates the session,
    before the handshake has completed ([_isConnecting] still set), the
    socket is detached with the flag left set. From then on no event opens a
    socket again: the reconnect that was scheduled, and every later call of
    [connect()], returns at the "already in progress" test. *)
Theorem reconnect_request_during_handshake_stalls :
  forall (e : Env) (packet : GatewayPacket) (c : Client),
    _isConnecting c = true ->
    op packet = Reconnect \/ op packet = InvalidSession ->
    let c' := _handleMessage e (Some packet) c in
    stalled c'
    /\ forall evs,
         stalled (run evs c')
         /\ sockets_opened (run evs c') = sockets_opened c.
Proof.
  intros e packet c I Hop c'.
  assert (S : stalled c' /\ sockets_opened c' = sockets_opened c).
  { subst c'. unfold _handleMessage.
    destruct Hop as [-> | ->]; destruct (s packet); try destruct (negb _);
      field_frame. }
  destruct S as [S E]. split; [exact S|].
  intro evs. destruct (stalled_run evs c' S) as [S' E']. split; congruence.
Qed.

Lemma reconnect_request_during_handshake_stalls_witness :
  let c := run [(Sample.env, DoConnect); (Sample.env, WsOpen);
                (Sample.env, WsMessage Sample.hello)] (init Sample.cfg) in
  let packet := {| op := Reconnect; d := JNull; s := None; t := None |} in
  let c' := _handleMessage Sample.env (Some packet) c in
  let evs := [(Sample.env,
               Fire (TmReconnect (delayMs 2 1 (random Sample.env))));
              (Sample.env, DoConnect)] in
  _isConnecting c = true
  /\ pending (TmReconnect (delayMs 2 1 (random Sample.env))) c' = true
  /\ stalled (run evs c')
  /\ sockets_opened (run evs c') = sockets_opened c.
Proof.
  intros c packet c' evs.
  assert (I : _isConnecting c = true) by (vm_compute; reflexivity).
  split; [exact I|]. split; [vm_compute; reflexivity|].
  destruct (reconnect_request_during_handshake_stalls Sample.env packet c I
              (or_introl eq_refl)) as [_ H].
  exact (H evs).
Defined.

(** ** Reconnect attempts *)

Lemma bounded_same c c' :
  _config c' = _config c -> _reconnectAttempts c' = _reconnectAttempts c ->
  attempts_bounded c -> attempts_bounded c'.
Proof. unfold attempts_bounded. now intros -> ->. Qed.

Lemma bounded_reset c c' :
  _config c' = _config c -> _reconnectAttempts c' = 0 ->
  attempts_bounded c'.
Proof.
  unfold attempts_bounded. intros -> ->.
  destruct (maxReconnectAttempts (_config c)); [lia|trivial].
Qed.

Lemma bounded_scheduleReconnect e c :
  _config (_scheduleReconnect e c) = _config c
  /\ (attempts_bounded c -> attempts_bounded (_scheduleReconnect e c)).
Proof.
  unfold _scheduleReconnect, attempts_bounded, attempts_exhausted.
  destruct (_destroyed c); [auto|]. destruct (_isReconnecting c); [auto|].
  simpl. destruct (maxReconnectAttempts (_config c)) as [m|] eqn:M; simpl.
  - destruct (Nat.leb_spec m (_reconnectAttempts c)); simpl; rewrite ?M;
      split; trivial; intros _; lia.
  - rewrite ?M. auto.
Qed.

Lemma bounded_cleanup c :
  _config (_cleanup c) = _config c
  /\ _reconnectAttempts (_cleanup c) = _reconnectAttempts c.
Proof. handlers. split_tests; auto. Qed.

Lemma bounded_emit event data c :
  _config (emit event data c) = _config c
  /\ _reconnectAttempts (emit event data c) = _reconnectAttempts c.
Proof. emit_frame _config. emit_frame _reconnectAttempts. auto. Qed.

Lemma bounded_handleDispatch packet c :
  _config (_handleDispatch packet c) = _config c
  /\ (attempts_bounded c -> attempts_bounded (_handleDispatch packet c)).
Proof.
  unfold _handleDispatch.
  destruct (t packet) as [name|]; [|auto].
  destruct (String.eqb name EmptyString); [auto|].
  destruct (ignored c name); [auto|].
  destruct (String.eqb name "READY"); [|destruct (String.eqb name "RESUMED")];
    (split; [now repeat (emit_frame _config; simpl)|]); intro B.
  - apply (bounded_reset c);
      now repeat (emit_frame _config; emit_frame _reconnectAttempts; simpl).
  - apply (bounded_reset c);
      now repeat (emit_frame _config; emit_frame _reconnectAttempts; simpl).
  - revert B. apply bounded_same;
      now repeat (emit_frame _config; emit_frame _reconnectAttempts; simpl).
Qed.

Lemma bounded_handleMessage e raw c :
  _config (_handleMessage e raw c) = _config c
  /\ (attempts_bounded c -> attempts_bounded (_handleMessage e raw c)).
Proof.
  unfold _handleMessage. destruct raw as [packet|]; [|auto].
  set (c1 := match s packet with Some n => set_sequence n c | None => c end).
  assert (E1 : _config c1 = _config c
               /\ _reconnectAttempts c1 = _reconnectAttempts c).
  { subst c1. destruct (s packet); auto. }
  destruct E1 as [E1 E2].
  assert (B1 : attempts_bounded c -> attempts_bounded c1)
    by now apply bounded_same.
  clearbody c1.
  assert (K : forall c2,
            _config c2 = _config c1 ->
            _reconnectAttempts c2 = _reconnectAttempts c1 ->
            _config c2 = _config c
            /\ (attempts_bounded c -> attempts_bounded c2)).
  { intros c2 A B. split; [congruence|]. intro H.
    apply (bounded_same c1); auto. }
  assert (R : forall c2,
            _config c2 = _config c1 ->
            _reconnectAttempts c2 = _reconnectAttempts c1 ->
            _config (_scheduleReconnect e (_cleanup c2)) = _config c
            /\ (attempts_bounded c ->
                attempts_bounded (_scheduleReconnect e (_cleanup c2)))).
  { intros c2 A B.
    destruct (bounded_scheduleReconnect e (_cleanup c2)) as [X Y].
    destruct (bounded_cleanup c2) as [X' Y'].
    split; [congruence|]. intro H. apply Y.
    apply (bounded_same c1); [congruence|congruence|auto]. }
  destruct (op packet); try (now apply K).
  - destruct (bounded_handleDispatch packet c1) as [X Y].
    split; [congruence|auto].
  - apply K; handlers; simpl; split_tests; reflexivity.
  - now apply R.
  - apply R; destruct (negb _); reflexivity.
  - apply K; handlers; simpl; split_tests; reflexivity.
  - apply K; [now emit_frame _config|now emit_frame _reconnectAttempts].
Qed.

Lemma bounded_ws_close e code reason c :
  _config (ws_close e code reason c) = _config c
  /\ (attempts_bounded c -> attempts_bounded (ws_close e code reason c)).
Proof.
  unfold ws_close. set (c1 := emit _ _ _).
  assert (E1 : _config c1 = _config c
               /\ _reconnectAttempts c1 = _reconnectAttempts c).
  { subst c1. emit_frame _config. emit_frame _reconnectAttempts.
    handlers. simpl. split_tests; auto. }
  destruct E1 as [E1 E2]. clearbody c1.
  set (c2 := _handleCloseCode code c1).
  assert (E3 : _config c2 = _config c1
               /\ _reconnectAttempts c2 = _reconnectAttempts c1).
  { subst c2. unfold _handleCloseCode. destruct (_ || _); auto. }
  destruct E3 as [E3 E4]. clearbody c2.
  assert (B2 : attempts_bounded c -> attempts_bounded c2)
    by (apply bounded_same; congruence).
  destruct (negb _ && _); [|split; [congruence|auto]].
  destruct (bounded_scheduleReconnect e c2) as [X Y].
  split; [congruence|auto].
Qed.

Lemma bounded_fire e tm c :
  _config (fire e tm c) = _config c
  /\ (attempts_bounded c -> attempts_bounded (fire e tm c)).
Proof.
  destruct tm as [ms|i j|h i|w ev ms]; simpl.
  - unfold reconnect_timeout. cbv zeta.
    change (_destroyed (set_isReconnecting false (expire (TmReconnect ms) c)))
      with (_destroyed c).
    destruct (_destroyed c); [split; [reflexivity|now apply bounded_same]|].
    split; [|apply bounded_same]; handlers; simpl; split_tests; reflexivity.
  - split; [|apply bounded_same]; handlers; simpl; split_tests; reflexivity.
  - unfold beat. destruct (negb _).
    + destruct (bounded_scheduleReconnect e (_cleanup c)) as [X Y].
      destruct (bounded_cleanup c) as [X' Y'].
      split; [congruence|]. intro B. apply Y. revert B.
      now apply bounded_same.
    + split; [|apply bounded_same]; handlers; simpl; split_tests; reflexivity.
  - split; [|apply bounded_same]; reflexivity.
Qed.

Lemma bounded_step c ev :
  _config (step c ev) = _config c
  /\ (attempts_bounded c -> attempts_bounded (step c ev)).
Proof.
  destruct ev as [e ev]. unfold step. simpl.
  destruct ev;
    try (split; [|apply bounded_same]; handlers; simpl; split_tests;
         reflexivity).
  - destruct (_ws c) as [[]|]; auto. apply bounded_handleMessage.
  - destruct (_ws c) as [[]|]; auto;
      match goal with |- context [ws_close ?e ?k ?r ?x] =>
        destruct (bounded_ws_close e k r x) as [X Y] end;
      (split; [exact X|]); intro B; apply Y; revert B;
      now apply bounded_same.
  - destruct (_ws c); auto. unfold ws_error.
    split; [now emit_frame _config|].
    apply bounded_same; [now emit_frame _config
                        |now emit_frame _reconnectAttempts].
  - destruct (pending tm c); auto. apply bounded_fire.
Qed.

(** X4. The configuration is never modified, and the number of reconnect
    attempts since the last completed handshake never exceeds
    [maxReconnectAttempts]. *)
Theorem reconnect_attempts_bounded :
  forall (cfg : Config) (evs : list (Env * Event)) (m : nat),
    maxReconnectAttempts cfg = Some m ->
    _config (run evs (init cfg)) = cfg
    /\ _reconnectAttempts (run evs (init cfg)) <= m.
Proof.
  intros cfg evs m Hm.
  assert (H : forall c,
            attempts_bounded c ->
            _config (run evs c) = _config c /\ attempts_bounded (run evs c)).
  { induction evs as [|ev evs IH]; intros c B; simpl; auto.
    destruct (bounded_step c ev) as [X Y].
    destruct (IH (step c ev) (Y B)) as [X' Y']. split; [congruence|trivial]. }
  destruct (H (init cfg)) as [X Y].
  - unfold attempts_bounded. simpl. rewrite Hm. lia.
  - split; [exact X|]. unfold attempts_bounded in Y.
    rewrite X in Y. simpl in Y. now rewrite Hm in Y.
Qed.

Lemma reconnect_attempts_bounded_witness :
  let evs := [(Sample.env, DoConnect); (Sample.env, WsOpen);
              (Sample.env, WsClose 1006 EmptyString);
              (Sample.env,
               Fire (TmReconnect (delayMs 2 1 (random Sample.env))));
              (Sample.env, WsClose 1006 EmptyString);
              (Sample.env,
               Fire (TmReconnect (delayMs 2 2 (random Sample.env))));
              (Sample.env, WsClose 1006 EmptyString)] in
  maxReconnectAttempts two_attempts = Some 2
  /\ _reconnectAttempts (run evs (init two_attempts)) = 2
  /\ reconnects_pending (run evs (init two_attempts)) = 0
  /\ _config (run evs (init two_attempts)) = two_attempts
  /\ _reconnectAttempts (run evs (init two_attempts)) <= 2.
Proof.
  intro evs.
  split; [reflexivity|]. split; [vm_compute; reflexivity|].
  split; [vm_compute; reflexivity|].
  exact (reconnect_attempts_bounded two_attempts evs 2 eq_refl).
Defined.

(** ** After [destroy()] *)

Lemma outward_fire e tm c :
  torn_down c -> outward (fire e tm c) = outward c.
Proof. intros [D W]. destruct tm; simpl; field_frame. Qed.

Lemma outward_step c ev :
  not_connect ev = true -> torn_down c -> outward (step c ev) = outward c.
Proof.
  destruct ev as [e ev]. unfold not_connect, step. simpl.
  destruct ev; try discriminate; intros _ T; try (field_frame; fail).
  destruct (pending tm c); auto using outward_fire.
Qed.

(** X5. After [destroy()], and until the user calls [connect()] again, the
    client does nothing to the outside world: it writes no frame, emits no
    event, opens or closes no socket and resolves no promise. All that can
    still happen is that pending [waitFor] timers reject their promises. *)
Theorem destroyed_client_is_silent :
  forall (c : Client) (evs : list (Env * Event)),
    forallb not_connect evs = true ->
    outward (run evs (destroy c)) = outward (destroy c).
Proof.
  intros c evs H.
  assert (K : forall c0, torn_down c0 -> outward (run evs c0) = outward c0).
  { induction evs as [|ev evs IH]; intros c0 T; simpl in *; trivial.
    apply andb_true_iff in H as [H1 H2].
    rewrite IH; trivial.
    - now apply outward_step.
    - now apply torn_down_step. }
  apply K, destroy_torn_down.
Qed.

Lemma destroyed_client_is_silent_witness :
  let c := Sample.beating in
  let evs := [(Sample.env, Fire (TmBeat 0 40000));
              (Sample.env, WsMessage Sample.ready);
              (Sample.env, DoUpdatePresence JNull);
              (Sample.env, Fire (TmBeat 0 40000))] in
  forallb not_connect evs = true
  /\ outward (run evs (destroy c)) = outward (destroy c).
Proof.
  intros c evs.
  assert (H : forallb not_connect evs = true) by reflexivity.
  split; [exact H|]. exact (destroyed_client_is_silent c evs H).
Defined.

(** ** Handshake completion *)

Ltac through_emits :=
  repeat (emit_frame _sessionId; emit_frame _sequence;
          emit_frame _reconnectAttempts; emit_frame _isConnecting;
          emit_frame _config; simpl).

(** X6. A READY dispatch (not filtered out) records the session id of its
    payload, resets the reconnect attempts and ends the connecting phase; a
    RESUMED dispatch does the same but keeps the session id; every other
    dispatch leaves these fields alone. After either, the next reconnect
    that is scheduled is attempt 1 again, with the base backoff. *)
Theorem handshake_resets_backoff :
  forall (packet : GatewayPacket) (name : string) (c : Client),
    t packet = Some name -> ignored c name = false ->
    let c' := _handleDispatch packet c in
    (name = "READY"%string ->
       _sessionId c' = session_id (d packet)
       /\ _reconnectAttempts c' = 0 /\ _isConnecting c' = false)
    /\ (name = "RESUMED"%string ->
        _sessionId c' = _sessionId c
        /\ _reconnectAttempts c' = 0 /\ _isConnecting c' = false)
    /\ (name <> "READY"%string -> name <> "RESUMED"%string ->
        _sessionId c' = _sessionId c
        /\ _reconnectAttempts c' = _reconnectAttempts c
        /\ _isConnecting c' = _isConnecting c)
    /\ (forall e : Env,
          name = "READY"%string \/ name = "RESUMED"%string ->
          _destroyed c' = false -> _isReconnecting c' = false ->
          maxReconnectAttempts (_config c) <> Some 0 ->
          timers (_scheduleReconnect e c') =
            timers c' ++ [TmReconnect
                            (delayMs (reconnectDelay (_config c)) 1
                               (random e))]).
Proof.
  intros packet name c Ht Hi c'.
  assert (R : name = "READY"%string ->
              _sessionId c' = session_id (d packet)
              /\ _reconnectAttempts c' = 0 /\ _isConnecting c' = false
              /\ _config c' = _config c).
  { intros ->. subst c'. unfold _handleDispatch. rewrite Ht, Hi. simpl.
    through_emits. auto. }
  assert (U : name = "RESUMED"%string ->
              _sessionId c' = _sessionId c
              /\ _reconnectAttempts c' = 0 /\ _isConnecting c' = false
              /\ _config c' = _config c).
  { intros ->. subst c'. unfold _handleDispatch. rewrite Ht, Hi. simpl.
    through_emits. auto. }
  split; [|split; [|split]].
  - intro E. destruct (R E) as (A & B & C & _). auto.
  - intro E. destruct (U E) as (A & B & C & _). auto.
  - intros N1 N2. subst c'. unfold _handleDispatch. rewrite Ht, Hi.
    destruct (String.eqb name EmptyString); [auto|].
    destruct (String.eqb_spec name "READY"); [contradiction|].
    destruct (String.eqb_spec name "RESUMED"); [contradiction|].
    through_emits. auto.
  - intros e E D I M.
    assert (Z : _reconnectAttempts c' = 0 /\ _config c' = _config c).
    { destruct E as [E|E]; [destruct (R E) as (_ & B & _ & K)
                           |destruct (U E) as (_ & B & _ & K)]; auto. }
    destruct Z as [Z K].
    destruct (scheduleReconnect_schedules e c' D I) as (T & _).
    + unfold attempts_exhausted. rewrite K, Z.
      destruct (maxReconnectAttempts (_config c)) as [[|m]|]; trivial.
      now contradiction M.
    + now rewrite T, K, Z.
Qed.

Lemma handshake_resets_backoff_witness :
  let c := run [(Sample.env, DoConnect); (Sample.env, WsOpen);
                (Sample.env, WsClose 1006 EmptyString);
                (Sample.env,
                 Fire (TmReconnect (delayMs 2 1 (random Sample.env))));
                (Sample.env, WsOpen);
                (Sample.env, WsMessage Sample.hello)] (init Sample.cfg) in
  let packet := {| op := Dispatch;
                   d := JObj [("session_id"%string, JStr "abc")];
                   s := Some 1%Z; t := Some "READY"%string |} in
  let c' := _handleDispatch packet c in
  (_reconnectAttempts c = 1 /\ _isConnecting c = true
   /\ _sessionId c = EmptyString)
  /\ (t packet = Some "READY"%string /\ ignored c "READY" = false)
  /\ _sessionId c' = "abc"%string
  /\ _reconnectAttempts c' = 0 /\ _isConnecting c' = false.
Proof.
  intros c packet c'.
  assert (Hi : ignored c "READY" = false) by (vm_compute; reflexivity).
  split; [vm_compute; repeat split|]. split; [split; [reflexivity|exact Hi]|].
  destruct (handshake_resets_backoff packet "READY" c eq_refl Hi)
    as (H & _).
  exact (H eq_refl).
Defined.

(** ** Invalid session and server-requested reconnect *)

(** X7. An invalid-session frame tears the transport down and schedules a
    reconnect: the only thing done to the outside is the close of the socket
    (code 1000) if one is attached and open or connecting, so no frame is
    written; no socket is attached afterwards; the heartbeat interval is
    cleared, with no tick of it left pending; and the one timer added is the
    reconnect timer. When the frame says the session is resumable the
    session identity is kept (with the frame's sequence number, if it has
    one); otherwise the session id is emptied and the sequence zeroed, even
    if the frame itself carried a sequence number. A reconnect request from
    the server does the same teardown and keeps the session. *)
Theorem invalid_session_handling :
  forall (e : Env) (packet : GatewayPacket) (c : Client),
    let c' := _handleMessage e (Some packet) c in
    let seq := match s packet with Some n => n | None => _sequence c end in
    (op packet = InvalidSession ->
       teardown e c c'
       /\ (forall f, In (ESend f) (effects c') -> In (ESend f) (effects c))
       /\ _ws c' = None /\ _heartbeatInterval c' = None
       /\ heartbeats_sent c' = heartbeats_sent c
       /\ (truthy (d packet) = true ->
           _sessionId c' = _sessionId c /\ _sequence c' = seq)
       /\ (truthy (d packet) = false ->
           _sessionId c' = EmptyString /\ _sequence c' = 0%Z))
    /\ (op packet = Reconnect ->
        teardown e c c'
        /\ (forall f, In (ESend f) (effects c') -> In (ESend f) (effects c))
        /\ _ws c' = None /\ _heartbeatInterval c' = None
        /\ heartbeats_sent c' = heartbeats_sent c
        /\ _sessionId c' = _sessionId c /\ _sequence c' = seq).
Proof.
  intros e packet c c' seq.
  assert (K : forall c2,
            effects c2 = effects c -> _ws c2 = _ws c ->
            timers c2 = timers c ->
            _heartbeatInterval c2 = _heartbeatInterval c ->
            _destroyed c2 = _destroyed c ->
            _isReconnecting c2 = _isReconnecting c ->
            _reconnectAttempts c2 = _reconnectAttempts c ->
            _config c2 = _config c ->
            let x := _scheduleReconnect e (_cleanup c2) in
            teardown e c x
            /\ (forall f, In (ESend f) (effects x) -> In (ESend f) (effects c))
            /\ _ws x = None /\ _heartbeatInterval x = None
            /\ heartbeats_sent x = heartbeats_sent c
            /\ _sessionId x = _sessionId c2 /\ _sequence x = _sequence c2).
  { intros c2 E W T H D R A C x. subst x.
    set (x := _scheduleReconnect e (_cleanup c2)) in *.
    assert (Td : teardown e c x).
    { pose proof (teardown_cleanup e c2) as Td.
      unfold teardown, closing, other_timers, scheduled, attempts_exhausted
        in *.
      now rewrite E, W, T, H, D, R, A, C in Td. }
    destruct (teardown_silent e c x Td) as (S1 & S2).
    destruct (scheduleReconnect_session e (_cleanup c2)) as (Q1 & Q2).
    destruct (cleanup_session c2) as (Q3 & Q4).
    pose proof Td as (_ & T1 & T2 & _).
    split; [exact Td|]. split; [exact S1|]. split; [exact T1|].
    split; [exact T2|]. split; [exact S2|]. subst x. split; congruence. }
  subst c' seq. unfold _handleMessage.
  split; intros ->.
  - destruct (s packet) as [n|]; destruct (truthy (d packet)); simpl;
      match goal with
      | |- context [_scheduleReconnect e (_cleanup ?c2)] =>
          destruct (K c2) as (A & B & C & D & E & F & G);
            try reflexivity
      end;
      (split; [exact A|]); (split; [exact B|]);
      (split; [exact C|]); (split; [exact D|]); (split; [exact E|]);
      (split; intro X; try discriminate X; split; trivial).
  - destruct (s packet) as [n|];
      match goal with
      | |- context [_scheduleReconnect e (_cleanup ?c2)] =>
          destruct (K c2) as (A & B & C & D & E & F & G);
            try reflexivity
      end;
      (split; [exact A|]); (split; [exact B|]);
      (split; [exact C|]); (split; [exact D|]); (split; [exact E|]);
      split; trivial.
Qed.

Lemma invalid_session_handling_witness :
  let packet := {| op := InvalidSession; d := JBool false; s := Some 9%Z;
                   t := None |} in
  let c := Sample.beating in
  let c' := _handleMessage Sample.env (Some packet) c in
  op packet = InvalidSession /\ truthy (d packet) = false
  /\ _ws c = Some OPEN /\ pending (TmBeat 0 40000) c = true
  /\ effects c' = ESocketClose 1000 "Client cleanup" :: effects c
  /\ pending (TmBeat 0 40000) c' = false
  /\ _sessionId c' = EmptyString /\ _sequence c' = 0%Z /\ _ws c' = None.
Proof.
  intros packet c c'.
  assert (W : _ws c = Some OPEN) by (vm_compute; reflexivity).
  assert (I : _heartbeatInterval c = Some 0) by (vm_compute; reflexivity).
  destruct (invalid_session_handling Sample.env packet c) as [H _].
  destruct (H eq_refl) as (T & _ & A & _ & _ & _ & B).
  destruct (B eq_refl) as (C & D).
  destruct T as (E & _ & _ & P & _).
  split; [reflexivity|]. split; [reflexivity|]. split; [exact W|].
  split; [vm_compute; reflexivity|].
  assert (Cl : closing c = [ESocketClose 1000 "Client cleanup"])
    by (vm_compute; reflexivity).
  split; [exact (eq_trans E (f_equal (fun l => l ++ effects c) Cl))|].
  split; [exact (P 0 40000%Z I)|].
  split; [exact C|]. split; [exact D|exact A].
Defined.

(** ** Heartbeat round trip *)

(** X8. A heartbeat sent at [t0 > 0] and acknowledged at [t1] leaves the
    measured latency [t1 - t0] in [ping], announces it on "HEARTBEAT_ACK"
    and marks the heartbeat acknowledged, so that the next tick of the
    interval sends the next heartbeat instead of tearing the connection
    down. An acknowledgement that arrives before any heartbeat was sent
    reports the latency -1. *)
Theorem heartbeat_ack_round_trip :
  forall (e0 e1 e2 : Env) (h : nat) (intervalMs : Z) (c : Client),
    _ws c = Some OPEN ->
    let c1 := _sendHeartbeat e0 c in
    let c2 := _handleMessage e1 (Some heartbeat_ack) c1 in
    let c3 := step c2 (e2, Fire (TmBeat h intervalMs)) in
    _heartbeatAcked c1 = false
    /\ _heartbeatAcked c2 = true
    /\ ((0 < now e0)%Z -> _lastPing c2 = (now e1 - now e0)%Z)
    /\ ((now e0 <= 0)%Z -> _lastPing c2 = (-1)%Z)
    /\ (exists l, effects c2
                  = l ++ EEmit "HEARTBEAT_ACK" (JNum (_lastPing c2))
                      :: effects c1)
    /\ (pending (TmBeat h intervalMs) c2 = true ->
        _ws c3 = Some OPEN
        /\ heartbeats_sent c3 = S (heartbeats_sent c2)
        /\ _heartbeatAcked c3 = false)
    /\ (_heartbeatSentAt c = 0%Z ->
        _lastPing (_handleMessage e1 (Some heartbeat_ack) c) = (-1)%Z).
Proof.
  intros e0 e1 e2 h i c W c1 c2 c3.
  assert (A1 : _heartbeatAcked c1 = false /\ _heartbeatSentAt c1 = now e0
               /\ _ws c1 = Some OPEN).
  { subst c1. handlers. simpl. rewrite W. auto. }
  destruct A1 as (A1 & S1 & W1).
  assert (L : _lastPing c2 = if (0 <? now e0)%Z then (now e1 - now e0)%Z
                             else (-1)%Z).
  { subst c2. unfold _handleMessage, heartbeat_ack. simpl.
    emit_frame _lastPing. simpl. now rewrite S1. }
  assert (A2 : _heartbeatAcked c2 = true /\ _ws c2 = Some OPEN).
  { subst c2. unfold _handleMessage, heartbeat_ack. simpl.
    emit_frame _heartbeatAcked. emit_frame _ws. simpl. auto. }
  destruct A2 as (A2 & W2).
  split; [exact A1|]. split; [exact A2|]. split; [|split; [|split; [|split]]].
  - intro H. rewrite L. apply Z.ltb_lt in H. now rewrite H.
  - intro H. rewrite L. apply Z.ltb_ge in H. now rewrite H.
  - rewrite L. subst c2. unfold _handleMessage, heartbeat_ack. simpl.
    rewrite S1.
    match goal with |- context [emit ?n ?p ?x] =>
      destruct (emit_effects n p x) as (l & E & _) end.
    exists l. exact E.
  - intro P. subst c3. unfold step. simpl. rewrite P. unfold beat.
    rewrite A2. simpl. unfold heartbeats_sent, count.
    handlers. simpl. rewrite W2. simpl. auto.
  - intro Z0. unfold _handleMessage, heartbeat_ack. simpl.
    emit_frame _lastPing. simpl. now rewrite Z0.
Qed.

Lemma heartbeat_ack_round_trip_witness :
  let e0 := {| now := 1000%Z; random := 0; constructs := true |} in
  let e1 := {| now := 1042%Z; random := 0; constructs := true |} in
  let c := Sample.beating in
  let c2 := _handleMessage e1 (Some heartbeat_ack) (_sendHeartbeat e0 c) in
  _ws c = Some OPEN
  /\ (0 < now e0)%Z
  /\ pending (TmBeat 0 40000) c2 = true
  /\ _lastPing c2 = (now e1 - now e0)%Z
  /\ heartbeats_sent (step c2 (e1, Fire (TmBeat 0 40000)))
     = S (heartbeats_sent c2).
Proof.
  intros e0 e1 c c2.
  assert (W : _ws c = Some OPEN) by (vm_compute; reflexivity).
  assert (P : pending (TmBeat 0 40000) c2 = true) by (vm_compute; reflexivity).
  assert (T : (0 < now e0)%Z) by reflexivity.
  destruct (heartbeat_ack_round_trip e0 e1 e1 0 40000 c W)
    as (_ & _ & A & _ & _ & B & _).
  split; [exact W|]. split; [exact T|]. split; [exact P|].
  split; [exact (A T)|]. now destruct (B P) as (_ & H & _).
Defined.

(** ** HELLO *)

(** X9. On a HELLO whose payload can be read, the running heartbeat
    interval is cleared and exactly one timer is armed for the first beat,
    after a delay of [Math.random() * heartbeat_interval]: at least 0 and,
    for a positive interval, less than the interval. The heartbeat counts as
    acknowledged, and nothing but the handshake frame is written. *)
Theorem hello_arms_first_beat :
  forall (e : Env) (data : Json) (interval : Z) (c : Client),
    (0 <= random e)%Q -> (random e < 1)%Q ->
    heartbeat_interval data = Some interval ->
    (0 < interval)%Z ->
    exists jit c',
      _handleHello e data c = Some c'
      /\ timers c' = timers (_stopHeartbeat c)
                     ++ [TmFirstBeat interval jit]
      /\ (0 <= jit)%Q /\ (jit < inject_Z interval)%Q
      /\ _heartbeatInterval c' = None
      /\ _heartbeatAcked c' = true
      /\ heartbeats_sent c' = heartbeats_sent c.
Proof.
  intros e data interval c R0 R1 Hd Hi.
  exists (random e * inject_Z interval)%Q.
  assert (Hq : (0 < inject_Z interval)%Q).
  { change 0%Q with (inject_Z 0). now rewrite <- Zlt_Qlt. }
  unfold _handleHello. rewrite Hd. eexists. split; [reflexivity|].
  split; [|split; [|split]].
  - handlers. simpl. split_tests; reflexivity.
  - apply Qmult_le_0_compat; [exact R0|now apply Qlt_le_weak].
  - setoid_replace (inject_Z interval)
      with (1 * inject_Z interval)%Q at 2 by ring.
    now apply Qmult_lt_compat_r.
  - unfold heartbeats_sent, count. handlers. simpl.
    split_tests; simpl; auto.
Qed.

Lemma hello_arms_first_beat_witness :
  let data := JObj [("heartbeat_interval"%string, JNum 40000)] in
  ((0 <= random Sample.env)%Q /\ (random Sample.env < 1)%Q
   /\ heartbeat_interval data = Some 40000%Z /\ (0 < 40000)%Z)
  /\ pending (TmBeat 0 40000) Sample.beating = true
  /\ exists jit c',
       _handleHello Sample.env data Sample.beating = Some c'
       /\ pending (TmBeat 0 40000) c' = false
       /\ timers c' = timers (_stopHeartbeat Sample.beating)
                      ++ [TmFirstBeat 40000 jit]
       /\ (0 <= jit)%Q /\ (jit < inject_Z 40000)%Q
       /\ _heartbeatInterval c' = None
       /\ _heartbeatAcked c' = true
       /\ heartbeats_sent c' = heartbeats_sent Sample.beating.
Proof.
  intro data.
  assert (R0 : (0 <= random Sample.env)%Q) by discriminate.
  assert (R1 : (random Sample.env < 1)%Q) by reflexivity.
  assert (Hd : heartbeat_interval data = Some 40000%Z) by reflexivity.
  assert (Hi : (0 < 40000)%Z) by reflexivity.
  split; [repeat split; trivial|].
  split; [vm_compute; reflexivity|].
  destruct (hello_arms_first_beat Sample.env data 40000 Sample.beating
              R0 R1 Hd Hi) as (jit & c' & E & T & H).
  exists jit, c'. split; [exact E|]. split; [|split; [exact T|exact H]].
  unfold pending. rewrite T, existsb_app.
  apply orb_false_iff. split; [vm_compute; reflexivity|reflexivity].
Defined.

(** ** The backoff schedule *)

Lemma pow2_mono n : (2 ^ Z.of_nat (n - 1) <= 2 ^ Z.of_nat (S n - 1))%Z.
Proof. apply Z.pow_le_mono_r; lia. Qed.

(** X10. For a non-negative base delay the backoff never shrinks from one
    attempt to the next and is capped at 60 seconds; with the jitter the
    delay before a reconnect is therefore never longer than 78 seconds,
    whatever the attempt number. *)
Theorem backoff_monotone_and_capped :
  forall (base rnd : Q) (n : nat),
    (0 <= base)%Q -> (0 <= rnd)%Q -> (rnd < 1)%Q ->
    (backoff base n <= backoff base (S n))%Q
    /\ (0 <= backoff base n)%Q /\ (backoff base n <= 60)%Q
    /\ (0 <= delayMs base n rnd)%Q /\ (delayMs base n rnd <= 78000)%Q.
Proof.
  intros base rnd n Hb R0 R1.
  pose proof (backoff_nonneg base n Hb) as B0.
  assert (B60 : (backoff base n <= 60)%Q) by apply Q.le_min_r.
  destruct (jitter_bounds rnd (backoff base n) R0 R1 B0) as [J0 J1].
  split; [|split; [exact B0|split; [exact B60|]]].
  - unfold backoff. apply Q.min_glb; [|apply Q.le_min_r].
    eapply Qle_trans; [apply Q.le_min_l|].
    apply Qmult_le_compat_r; [|exact Hb].
    rewrite <- Zle_Qle. apply pow2_mono.
  - unfold delayMs.
    set (b := backoff base n) in *. set (j := jitter rnd b) in *.
    clearbody j b. split; lra.
Qed.

Lemma backoff_monotone_and_capped_witness :
  ((0 <= 2)%Q /\ (0 <= 1 # 2)%Q /\ (1 # 2 < 1)%Q)
  /\ (backoff 2 9 == 60)%Q
  /\ (backoff 2 9 <= backoff 2 10)%Q
  /\ (delayMs 2 9 (1 # 2) <= 78000)%Q.
Proof.
  assert (Hb : (0 <= 2)%Q) by discriminate.
  assert (R0 : (0 <= 1 # 2)%Q) by discriminate.
  assert (R1 : (1 # 2 < 1)%Q) by reflexivity.
  destruct (backoff_monotone_and_capped 2 (1 # 2) 9 Hb R0 R1)
    as (A & _ & _ & _ & B).
  split; [repeat split; trivial|]. split; [reflexivity|]. now split.
Defined.

(** ** Dispatch frames and [waitFor] *)

Lemma emit_resolves w event data c flt :
  wait_listeners w c = [(event, LWait w flt)] ->
  passes flt data = true ->
  wait_listeners w (emit event data c) = []
  /\ wait_timers w (emit event data c) = []
  /\ settlements w (emit event data c) = EResolve w data :: settlements w c.
Proof.
  intros H P. unfold emit.
  destruct (filter_single _ _ _ H) as (l1 & l2 & E & H1 & H2).
  rewrite E, filter_app, map_app, fold_left_app.
  set (c0 := perform (EEmit event data) c).
  destruct (fold_other w event data _ c0 (snapshot_other w event l1 H1))
    as (A1 & B1 & C1).
  set (c1 := fold_left _ (map snd (filter (on_event event) l1)) c0) in *.
  change (wait_listeners w c0) with (wait_listeners w c) in A1.
  change (settlements w c0) with (settlements w c) in C1.
  cbn [filter]. rewrite on_event_refl. cbn [map fold_left snd].
  pose proof (call_self w event flt data c1) as S.
  rewrite A1 in S. specialize (S H). cbv zeta in S. rewrite P in S.
  set (c2 := call_listener event data c1 (LWait w flt)) in *.
  destruct (fold_other w event data _ c2 (snapshot_other w event l2 H2))
    as (A3 & B3 & C3).
  destruct S as (A2 & B2 & C2). repeat split; congruence.
Qed.

Lemma emit_keeps_waiting w event data c ev flt :
  wait_listeners w c = [(ev, LWait w flt)] ->
  ev <> event \/ passes flt data = false ->
  wait_listeners w (emit event data c) = wait_listeners w c
  /\ wait_timers w (emit event data c) = wait_timers w c
  /\ settlements w (emit event data c) = settlements w c.
Proof.
  intros H N.
  destruct (emit_waits_present w event data c ev flt H)
    as [(E & P & _)|K]; [|exact K].
  destruct N as [N|N]; [contradiction|congruence].
Qed.

(** X16. A promise of [waitFor(name)] that is still waiting, and a dispatch
    frame named [name] (not the raw channel itself): if the name is on the
    ignore-list the promise stays as it is; otherwise it is resolved with
    what the named channel carries (the frame's body; [undefined] for
    RESUMED) when the filter accepts that, with its listener and timer
    removed, and it stays waiting when the filter rejects it. *)
Theorem dispatch_resolves_waitFor :
  forall (packet : GatewayPacket) (name : string) (w : nat)
         (flt : option (Json -> bool)) (c : Client),
    t packet = Some name -> name <> EmptyString -> name <> "raw"%string ->
    wait_listeners w c = [(name, LWait w flt)] ->
    let c' := _handleDispatch packet c in
    let body := named_payload name (d packet) in
    (ignored c name = true -> c' = c)
    /\ (ignored c name = false -> passes flt body = true ->
        settlements w c' = EResolve w body :: settlements w c
        /\ wait_listeners w c' = [] /\ wait_timers w c' = [])
    /\ (ignored c name = false -> passes flt body = false ->
        settlements w c' = settlements w c
        /\ wait_listeners w c' = wait_listeners w c
        /\ wait_timers w c' = wait_timers w c).
Proof.
  intros packet name w flt c Ht Hne Hraw L c' body.
  split; [intro I; now apply (handleDispatch_ignored packet name)|].
  assert (K : ignored c name = false ->
              exists c1,
                c' = emit name body c1
                /\ wait_listeners w c1 = wait_listeners w c
                /\ wait_timers w c1 = wait_timers w c
                /\ settlements w c1 = settlements w c).
  { intro I. subst c' body. unfold _handleDispatch, named_payload.
    rewrite Ht, I.
    destruct (String.eqb_spec name EmptyString); [contradiction|].
    set (c0 := emit "raw" _ c).
    assert (R : wait_listeners w c0 = wait_listeners w c
                /\ wait_timers w c0 = wait_timers w c
                /\ settlements w c0 = settlements w c).
    { apply (emit_keeps_waiting w "raw" _ c name flt L). now left. }
    clearbody c0.
    destruct (String.eqb name "RESUMED") eqn:Rs.
    - apply String.eqb_eq in Rs. subst name. simpl.
      eexists. split; [reflexivity|exact R].
    - destruct (String.eqb name "READY") eqn:Rd.
      + apply String.eqb_eq in Rd. subst name.
        eexists. split; [reflexivity|exact R].
      + eexists. split; [reflexivity|exact R]. }
  split; intros I P; destruct (K I) as (c1 & -> & A & B & C).
  - destruct (emit_resolves w name body c1 flt) as (X & Y & Z);
      [congruence|trivial|].
    repeat split; congruence.
  - destruct (emit_keeps_waiting w name body c1 name flt) as (X & Y & Z);
      [congruence|now right|].
    repeat split; congruence.
Qed.

Lemma dispatch_resolves_waitFor_witness :
  let c := waitFor "MESSAGE_CREATE" (Some Sample.is_seven) None
             Sample.connected in
  let packet := {| op := Dispatch; d := JNum 7; s := Some 2%Z;
                   t := Some "MESSAGE_CREATE"%string |} in
  let c' := _handleDispatch packet c in
  wait_listeners 0 c = [("MESSAGE_CREATE"%string,
                         LWait 0 (Some Sample.is_seven))]
  /\ ignored c "MESSAGE_CREATE" = false
  /\ passes (Some Sample.is_seven) (JNum 7) = true
  /\ settlements 0 c' = EResolve 0 (JNum 7) :: settlements 0 c
  /\ wait_listeners 0 c' = [] /\ wait_timers 0 c' = [].
Proof.
  intros c packet c'.
  assert (L : wait_listeners 0 c = [("MESSAGE_CREATE"%string,
                                     LWait 0 (Some Sample.is_seven))])
    by (vm_compute; reflexivity).
  assert (I : ignored c "MESSAGE_CREATE" = false) by (vm_compute; reflexivity).
  assert (N1 : "MESSAGE_CREATE"%string <> EmptyString) by discriminate.
  assert (N2 : "MESSAGE_CREATE"%string <> "raw"%string) by discriminate.
  destruct (dispatch_resolves_waitFor packet "MESSAGE_CREATE" 0
              (Some Sample.is_seven) c eq_refl N1 N2 L) as (_ & H & _).
  split; [exact L|]. split; [exact I|]. split; [reflexivity|].
  exact (H I eq_refl).
Defined.

(** ** Heartbeat intervals that are lost track of *)

Lemma ticks_filter_beat h g l :
  g <> h ->
  filter (is_beat h) (filter (fun tm => negb (is_beat g tm)) l)
  = filter (is_beat h) l.
Proof.
  intro N. apply filter_filter_keep. intros [] E; simpl in *; trivial.
  apply Nat.eqb_eq in E. subst.
  destruct (Nat.eqb_spec h g); [congruence|reflexivity].
Qed.

Lemma ticks_filter_wait h w l :
  filter (is_beat h) (filter (fun tm => negb (is_wait_timer w tm)) l)
  = filter (is_beat h) l.
Proof. apply filter_filter_keep. now intros []. Qed.

Lemma ticks_expire h tm l :
  is_beat h tm = false ->
  filter (is_beat h) (remove_first (timer_eqb tm) l) = filter (is_beat h) l.
Proof.
  intro H. apply filter_remove_first_other.
  intros x E. apply timer_eqb_eq in E. now subst.
Qed.

Lemma ticks_emit h event data c :
  ticks h (emit event data c) = ticks h c.
Proof.
  unfold ticks, emit.
  change (timers c) with (timers (perform (EEmit event data) c)).
  generalize (perform (EEmit event data) c).
  induction (map snd (filter (on_event event) (_emitter c))) as [|l ls IH];
    intro c0; simpl; trivial.
  rewrite IH. destruct l as [fn [|]|w flt|]; simpl; trivial.
  unfold waitFor_handler.
  destruct (match flt with Some g => negb (g data) | None => false end);
    trivial.
  simpl. apply ticks_filter_wait.
Qed.

Lemma moves_untracked h c c' : moves c c' -> untracked h c -> untracked h c'.
Proof.
  intros (A & B & _) [N L]. split; [|lia].
  intro E. destruct (B h E) as [E'|E']; [contradiction|lia].
Qed.

Lemma moves_known c c' : moves c c' -> tracked_known c -> tracked_known c'.
Proof.
  intros (A & B & _) K h E. destruct (B h E) as [E'|E']; [|lia].
  apply K in E'. lia.
Qed.

Lemma moves_same c c' :
  timers c' = timers c -> _heartbeatInterval c' = _heartbeatInterval c ->
  nextHandle c' = nextHandle c -> moves c c'.
Proof.
  unfold moves, ticks. intros -> -> ->. repeat split; auto.
Qed.

Lemma moves_refl c : moves c c.
Proof. now apply moves_same. Qed.

Lemma moves_trans a b c : moves a b -> moves b c -> moves a c.
Proof.
  intros M1 M2. pose proof M1 as (A1 & B1 & C1). pose proof M2 as (A2 & B2 & C2).
  split; [lia|split].
  - intros g E. destruct (B2 g E) as [E'|E']; [|right; lia].
    destruct (B1 g E') as [E''|E'']; [now left|right; lia].
  - intros h U. rewrite C2; [now apply C1|].
    now apply (moves_untracked h a b).
Qed.

(** [c'] is [x] up to fields that are neither timers nor handles. *)
Ltac moves_via x :=
  match goal with
  | |- moves ?c ?c' =>
      apply (moves_trans c x c'); [|apply moves_same; reflexivity]
  end.

Lemma moves_emit event data c : moves c (emit event data c).
Proof.
  split; [now emit_frame nextHandle|split].
  - intros g. emit_frame _heartbeatInterval. auto.
  - intros h _. apply ticks_emit.
Qed.

Lemma moves_stopHeartbeat c : moves c (_stopHeartbeat c).
Proof.
  unfold _stopHeartbeat.
  destruct (_heartbeatInterval c) as [g|] eqn:E; [|apply moves_refl].
  split; [reflexivity|split]; simpl.
  - discriminate.
  - intros h [N _]. unfold ticks. simpl. apply ticks_filter_beat. congruence.
Qed.

Lemma moves_cleanup c : moves c (_cleanup c).
Proof.
  unfold _cleanup. pose proof (moves_stopHeartbeat c) as M.
  set (c1 := _stopHeartbeat c) in *. clearbody c1.
  destruct (_ws c1) as [[]|]; trivial; moves_via c1; trivial.
Qed.

Lemma moves_send f c : moves c (_send f c).
Proof.
  unfold _send. destruct (_ws c) as [[]|]; now apply moves_same.
Qed.

Lemma moves_scheduleReconnect e c : moves c (_scheduleReconnect e c).
Proof.
  unfold _scheduleReconnect.
  destruct (_destroyed c); [apply moves_refl|].
  destruct (_isReconnecting c); [apply moves_refl|].
  destruct (attempts_exhausted _); [now apply moves_same|].
  split; [reflexivity|split]; simpl; auto.
  intros h _. unfold ticks, setTimer. simpl.
  now rewrite filter_app, app_nil_r.
Qed.

Lemma moves_connect e c : moves c (connect e c).
Proof.
  unfold connect. cbv zeta.
  change (_isConnecting (perform EConnect c)) with (_isConnecting c).
  destruct (_isConnecting c); [now apply moves_same|].
  set (c0 := set_destroyed false _).
  apply (moves_trans c (_cleanup c0));
    [|destruct (constructs e); now apply moves_same].
  apply (moves_trans c c0); [now apply moves_same|apply moves_cleanup].
Qed.

Lemma moves_sendHeartbeat e c : moves c (_sendHeartbeat e c).
Proof.
  unfold _sendHeartbeat. cbv zeta.
  match goal with |- moves c (_send ?f ?x) =>
    apply (moves_trans c x); [now apply moves_same|apply moves_send] end.
Qed.

Lemma moves_startHeartbeat e i c : moves c (_startHeartbeat e i c).
Proof.
  unfold _startHeartbeat. cbv zeta.
  apply (moves_trans c (_stopHeartbeat c)); [apply moves_stopHeartbeat|].
  generalize (_stopHeartbeat c). intro c1.
  split; [reflexivity|split]; simpl; auto.
  intros h _. unfold ticks, setTimer. simpl.
  now rewrite filter_app, app_nil_r.
Qed.

Lemma moves_handleHello e data c :
  moves c match _handleHello e data c with Some c' => c' | None => c end.
Proof.
  unfold _handleHello.
  destruct (heartbeat_interval data) as [i|]; [|apply moves_refl].
  cbv zeta. pose proof (moves_startHeartbeat e i c) as M.
  set (c1 := _startHeartbeat _ _ _) in *. clearbody c1.
  destruct (String.eqb _ _);
    (eapply moves_trans; [exact M|apply moves_send]).
Qed.

Lemma moves_handleDispatch packet c : moves c (_handleDispatch packet c).
Proof.
  unfold _handleDispatch.
  destruct (t packet) as [name|]; [|apply moves_refl].
  destruct (String.eqb name EmptyString); [apply moves_refl|].
  destruct (ignored c name); [apply moves_refl|].
  pose proof (moves_emit "raw"
                (JObj [("event"%string, JStr name);
                       ("data"%string, d packet)]) c) as M.
  set (c1 := emit "raw" _ c) in *. clearbody c1.
  destruct (String.eqb name "READY"); [|destruct (String.eqb name "RESUMED")];
    match goal with |- moves c (emit ?n ?p ?x) =>
      apply (moves_trans c x);
        [apply (moves_trans c c1); [exact M|now apply moves_same]
        |apply moves_emit] end.
Qed.

Lemma moves_handleMessage e raw c : moves c (_handleMessage e raw c).
Proof.
  unfold _handleMessage. destruct raw as [packet|]; [|apply moves_refl].
  set (c1 := match s packet with Some n => set_sequence n c | None => c end).
  assert (M : moves c c1)
    by (subst c1; destruct (s packet); now apply moves_same).
  clearbody c1.
  assert (R : forall c2, moves c1 c2 ->
                moves c1 (_scheduleReconnect e (_cleanup c2))).
  { intros c2 M2. eapply moves_trans; [exact M2|].
    eapply moves_trans; [apply moves_cleanup|apply moves_scheduleReconnect]. }
  destruct (op packet); trivial; (eapply moves_trans; [exact M|]).
  - apply moves_handleDispatch.
  - apply moves_sendHeartbeat.
  - apply R, moves_refl.
  - apply R. destruct (negb _); now apply moves_same.
  - apply moves_handleHello.
  - match goal with |- moves c1 (emit ?n ?p ?x) =>
      apply (moves_trans c1 x); [now apply moves_same|apply moves_emit] end.
Qed.

Lemma moves_ws_close e code reason c : moves c (ws_close e code reason c).
Proof.
  unfold ws_close. cbv zeta.
  pose proof (moves_stopHeartbeat c) as M0.
  set (c0 := _stopHeartbeat c) in *. clearbody c0.
  set (c1 := emit _ _ _).
  assert (M1 : moves c c1).
  { eapply moves_trans; [exact M0|]. subst c1.
    match goal with |- moves c0 (emit ?n ?p ?x) =>
      apply (moves_trans c0 x); [now apply moves_same|apply moves_emit] end. }
  clearbody c1.
  set (c2 := _handleCloseCode code c1).
  assert (M2 : moves c c2).
  { eapply moves_trans; [exact M1|]. subst c2. unfold _handleCloseCode.
    destruct (_ || _); now apply moves_same. }
  clearbody c2.
  destruct (negb _ && _); [|exact M2].
  eapply moves_trans; [exact M2|apply moves_scheduleReconnect].
Qed.

Lemma moves_first_beat e i c : moves c (first_beat e i c).
Proof.
  unfold first_beat. cbv zeta.
  apply (moves_trans c (_sendHeartbeat e c)); [apply moves_sendHeartbeat|].
  generalize (_sendHeartbeat e c). intro c1.
  split; [simpl; lia|split]; simpl.
  - intros g E. injection E as <-. right. lia.
  - intros h [_ L]. unfold ticks, setTimer. simpl. rewrite filter_app. simpl.
    destruct (Nat.eqb_spec (nextHandle c1) h); [lia|].
    now rewrite app_nil_r.
Qed.

Lemma moves_expire tm c :
  (forall h, is_beat h tm = false) -> moves c (expire tm c).
Proof.
  intro H. split; [reflexivity|split]; simpl; auto.
  intros h _. unfold ticks, expire. simpl. now apply ticks_expire.
Qed.

Lemma moves_fire e tm c : moves c (fire e tm c).
Proof.
  destruct tm as [ms|i j|g i|w ev ms]; simpl.
  - apply (moves_trans c (expire (TmReconnect ms) c));
      [now apply moves_expire|].
    generalize (expire (TmReconnect ms) c). intro c1.
    unfold reconnect_timeout. cbv zeta.
    change (_destroyed (set_isReconnecting false c1)) with (_destroyed c1).
    destruct (_destroyed c1); [now apply moves_same|].
    apply (moves_trans c1 (set_isReconnecting false c1));
      [now apply moves_same|apply moves_connect].
  - apply (moves_trans c (expire (TmFirstBeat i j) c));
      [now apply moves_expire|apply moves_first_beat].
  - unfold beat. destruct (negb _).
    + eapply moves_trans; [apply moves_cleanup|apply moves_scheduleReconnect].
    + apply moves_sendHeartbeat.
  - apply (moves_trans c (expire (TmWaitFor w ev ms) c));
      [now apply moves_expire|].
    generalize (expire (TmWaitFor w ev ms) c). intro c1.
    split; [reflexivity|split]; simpl; auto.
    intros h _. unfold ticks, waitFor_timeout, waitFor_cleanup.
    simpl. apply ticks_filter_wait.
Qed.

Lemma moves_step c ev : moves c (step c ev).
Proof.
  destruct ev as [e ev]. unfold step. simpl.
  destruct ev; try apply moves_send.
  - apply moves_connect.
  - unfold destroy.
    apply (moves_trans c (set_destroyed true c));
      [now apply moves_same|apply moves_cleanup].
  - now apply moves_same.
  - now apply moves_same.
  - now apply moves_same.
  - unfold waitFor. cbv zeta.
    destruct timeout as [ms|]; [destruct (negb (Qle_bool ms 0))|];
      (split; [simpl; lia|split; [simpl; auto|]]);
      intros h _; unfold ticks, setTimer, emitter_on; simpl;
      rewrite ?filter_app, ?app_nil_r; reflexivity.
  - destruct (_ws c) as [[]|]; now apply moves_same.
  - destruct (_ws c) as [[]|]; try apply moves_refl. apply moves_handleMessage.
  - destruct (_ws c) as [[]|]; try apply moves_refl;
      match goal with |- moves c (ws_close ?e ?k ?r ?x) =>
        apply (moves_trans c x); [now apply moves_same|apply moves_ws_close]
      end.
  - destruct (_ws c); [|apply moves_refl]. apply moves_emit.
  - destruct (pending tm c); [apply moves_fire|apply moves_refl].
Qed.

Lemma moves_run evs : forall c, moves c (run evs c).
Proof.
  induction evs as [|ev evs IH]; intro c; simpl; [apply moves_refl|].
  eapply moves_trans; [apply moves_step|apply IH].
Qed.

Lemma reachable_tracked_known c : reachable c -> tracked_known c.
Proof.
  intros (cfg & evs & ->).
  apply (moves_known (init cfg)); [apply moves_run|].
  intros h E. discriminate E.
Qed.

Lemma pending_ticks h i c :
  pending (TmBeat h i) c = true <-> In (TmBeat h i) (ticks h c).
Proof.
  unfold pending, ticks. rewrite existsb_exists, filter_In. split.
  - intros (x & I & E). apply timer_eqb_eq in E. subst x.
    split; [exact I|]. simpl. apply Nat.eqb_refl.
  - intros [I _]. exists (TmBeat h i). split; [exact I|apply timer_eqb_refl].
Qed.

Lemma first_beat_fields e i c :
  timers (first_beat e i c) = timers c ++ [TmBeat (nextHandle c) i]
  /\ _heartbeatInterval (first_beat e i c) = Some (nextHandle c)
  /\ nextHandle (first_beat e i c) = S (nextHandle c).
Proof.
  unfold first_beat, _sendHeartbeat, _send, setTimer. simpl.
  destruct (_ws c) as [[]|]; simpl; auto.
Qed.

(** X17. The jittered first-beat timeout that [_startHeartbeat] arms is
    never cancelled. When one fires while an interval is already running
    (two HELLOs close together: a reconnect within the jitter of the first),
    the handle of the running interval in [_heartbeatInterval] is
    overwritten by the new one. From then on nothing clears the old
    interval: through every later event, [destroy()] and [_cleanup()]
    included, it stays pending, and each of its ticks runs the heartbeat
    check. *)
Theorem overwritten_interval_is_never_cleared :
  forall (e : Env) (h : nat) (i i' : Z) (j : Q) (c : Client),
    reachable c ->
    _heartbeatInterval c = Some h ->
    pending (TmBeat h i) c = true ->
    pending (TmFirstBeat i' j) c = true ->
    let c' := step c (e, Fire (TmFirstBeat i' j)) in
    _heartbeatInterval c' = Some (nextHandle c)
    /\ nextHandle c <> h
    /\ pending (TmBeat (nextHandle c) i') c' = true
    /\ forall evs : list (Env * Event),
         pending (TmBeat h i) (run evs c') = true
         /\ _heartbeatInterval (run evs c') <> Some h
         /\ forall e', step (run evs c') (e', Fire (TmBeat h i))
                       = beat e' (run evs c').
Proof.
  intros e h i i' j c R T P F c'.
  pose proof (reachable_tracked_known c R h T) as L.
  assert (E : c' = first_beat e i' (expire (TmFirstBeat i' j) c)).
  { subst c'. unfold step. simpl. now rewrite F. }
  destruct (first_beat_fields e i' (expire (TmFirstBeat i' j) c))
    as (A & B & C).
  rewrite <- E in A, B, C.
  change (nextHandle (expire (TmFirstBeat i' j) c)) with (nextHandle c)
    in A, B, C.
  assert (U : untracked h c').
  { split; [rewrite B; intro X; injection X as X; lia|lia]. }
  assert (K : In (TmBeat h i) (ticks h c')).
  { apply pending_ticks in P. unfold ticks in *. rewrite A, filter_app.
    apply in_or_app. left. unfold expire. simpl.
    now rewrite ticks_expire. }
  split; [exact B|]. split; [lia|]. split.
  - unfold pending. rewrite A, existsb_app. simpl.
    now rewrite timer_eqb_refl, orb_true_r.
  - intro evs. pose proof (moves_run evs c') as M.
    pose proof (moves_untracked h _ _ M U) as [U1 _].
    destruct M as (_ & _ & M). rewrite <- (M h U) in K.
    apply pending_ticks in K.
    split; [exact K|]. split; [exact U1|].
    intro e'. unfold step. simpl. now rewrite K.
Qed.

Lemma overwritten_interval_is_never_cleared_witness :
  let e := Sample.env in
  let j := (random e * inject_Z 40000)%Q in
  let c := run [(e, DoConnect); (e, WsOpen); (e, WsMessage Sample.hello);
                (e, WsClose 1006 EmptyString);
                (e, Fire (TmReconnect (delayMs 2 1 (random e))));
                (e, WsOpen); (e, WsMessage Sample.hello);
                (e, Fire (TmFirstBeat 40000 j))] (init Sample.cfg) in
  let evs := [(e, DoDestroy); (e, DoConnect); (e, WsOpen);
              (e, WsClose 1000 EmptyString); (e, DoDestroy)] in
  let c' := step c (e, Fire (TmFirstBeat 40000 j)) in
  _heartbeatInterval c = Some 0
  /\ pending (TmBeat 0 40000) c = true
  /\ pending (TmFirstBeat 40000 j) c = true
  /\ _heartbeatInterval c' = Some 1
  /\ pending (TmBeat 0 40000) (run evs c') = true
  /\ _heartbeatInterval (run evs c') = None.
Proof.
  intros e j c evs c'.
  assert (R : reachable c) by (eexists; eexists; reflexivity).
  assert (T : _heartbeatInterval c = Some 0) by (vm_compute; reflexivity).
  assert (P : pending (TmBeat 0 40000) c = true) by (vm_compute; reflexivity).
  assert (F : pending (TmFirstBeat 40000 j) c = true)
    by (vm_compute; reflexivity).
  assert (N : nextHandle c = 1) by (vm_compute; reflexivity).
  destruct (overwritten_interval_is_never_cleared e 0 40000 40000 j c R T P F)
    as (A & _ & _ & B).
  rewrite N in A.
  split; [exact T|]. split; [exact P|]. split; [exact F|].
  split; [exact A|]. split; [exact (proj1 (B evs))|].
  vm_compute; reflexivity.
Defined.

(** * The REST client helpers *)

Module ApiFacts.
Import Api.

(** ** [stripUndefined] *)

Lemma obj_set_fresh k v out :
  ~ In k (map fst out) -> obj_set k v out = out ++ [(k, v)].
Proof.
  induction out as [|[k' v'] r IH]; simpl; intro H; trivial.
  destruct (String.eqb_spec k k') as [->|N]; [tauto|].
  rewrite IH; tauto.
Qed.

Lemma strip_fold obj : forall out,
  NoDup (map fst out ++ map fst obj) ->
  ~ In "__proto__"%string (map fst obj) ->
  fold_left
    (fun out kv =>
       if is_undefined (snd kv) then out else assign (fst kv) (snd kv) out)
    obj out
  = out ++ filter has_value obj.
Proof.
  induction obj as [|[k v] r IH]; intros out H P; simpl.
  - now rewrite app_nil_r.
  - unfold has_value at 1. simpl in *.
    destruct (is_undefined v) eqn:U; simpl.
    + apply IH; [now apply NoDup_remove_1 in H|tauto].
    + unfold assign.
      destruct (String.eqb_spec k "__proto__") as [->|_]; [tauto|].
      rewrite obj_set_fresh.
      * rewrite IH; [now rewrite <- app_assoc| |tauto].
        rewrite map_app, <- app_assoc. exact H.
      * apply NoDup_remove_2 in H. intro I. apply H, in_or_app. now left.
Qed.

Lemma stripUndefined_filter obj :
  NoDup (map fst obj) -> ~ In "__proto__"%string (map fst obj) ->
  stripUndefined obj = filter has_value obj.
Proof. intros H P. unfold stripUndefined. now rewrite strip_fold. Qed.

Lemma assoc_absent k l : ~ In k (map fst l) -> assoc k l = None.
Proof.
  induction l as [|[k' v'] r IH]; simpl; intro H; trivial.
  destruct (String.eqb_spec k k') as [->|N]; [tauto|]. apply IH. tauto.
Qed.

Lemma filter_keys (l : Obj) k :
  In k (map fst (filter has_value l)) -> In k (map fst l).
Proof.
  intro H. apply in_map_iff in H as ([k' v'] & <- & I).
  apply filter_In in I as [I _]. apply in_map_iff. now exists (k', v').
Qed.

Lemma filter_nodup (l : Obj) :
  NoDup (map fst l) -> NoDup (map fst (filter has_value l)).
Proof.
  induction l as [|[k v] r IH]; simpl; intro H; trivial.
  inversion H as [|? ? N D]; subst.
  destruct (has_value (k, v)); simpl; auto.
  constructor; auto. intro I. now apply N, filter_keys.
Qed.

Lemma is_undefined_eq v : is_undefined v = true -> v = JUndefined.
Proof. now destruct v. Qed.

(** X11. For the own properties of an object (keys distinct, none named
    [__proto__]), [stripUndefined] removes exactly those whose value is
    [undefined] and keeps the others in order. Reading an own property of
    the result gives what reading it from the original gives; no
    [undefined] is left; stripping twice is stripping once. *)
Theorem stripUndefined_keeps_reads :
  forall obj : Obj,
    NoDup (map fst obj) ->
    ~ In "__proto__"%string (map fst obj) ->
    let out := stripUndefined obj in
    out = filter has_value obj
    /\ (forall k, prop k (JObj out) = prop k (JObj obj))
    /\ (forall k, ~ In (k, JUndefined) out)
    /\ (forall k v, v <> JUndefined -> In (k, v) obj -> In (k, v) out)
    /\ (forall k v, In (k, v) out -> In (k, v) obj)
    /\ stripUndefined out = out.
Proof.
  intros obj H P out. subst out. rewrite (stripUndefined_filter obj H P).
  split; [reflexivity|].
  split; [|split; [|split; [|split]]].
  - intro k. simpl. clear P. induction obj as [|[k' v'] r IH]; simpl; trivial.
    inversion H as [|? ? N D]; subst.
    unfold has_value at 1. simpl.
    destruct (String.eqb_spec k k') as [->|Ne].
    + destruct (is_undefined v') eqn:U; simpl.
      * rewrite assoc_absent; [now rewrite (is_undefined_eq _ U)|].
        intro I. now apply N, filter_keys.
      * now rewrite String.eqb_refl.
    + destruct (is_undefined v') eqn:U; simpl; auto.
      destruct (String.eqb_spec k k'); [contradiction|auto].
  - intros k I. apply filter_In in I as [_ I]. discriminate.
  - intros k v Hv I. apply filter_In. split; trivial.
    unfold has_value. simpl. now destruct v.
  - intros k v I. now apply filter_In in I.
  - rewrite stripUndefined_filter;
      [|now apply filter_nodup|intro I; now apply P, filter_keys].
    clear H P. induction obj as [|kv r IH]; simpl; trivial.
    destruct (has_value kv) eqn:V; simpl; rewrite ?V, IH; trivial.
Qed.

Lemma stripUndefined_keeps_reads_witness :
  let obj := [("content"%string, JStr "hi"); ("nonce"%string, JUndefined);
              ("tts"%string, JBool false)] in
  NoDup (map fst obj)
  /\ ~ In "__proto__"%string (map fst obj)
  /\ stripUndefined obj
     = [("content"%string, JStr "hi"); ("tts"%string, JBool false)]
  /\ prop "nonce" (JObj (stripUndefined obj)) = prop "nonce" (JObj obj)
  /\ stripUndefined (stripUndefined obj) = stripUndefined obj.
Proof.
  intro obj.
  assert (H : NoDup (map fst obj)).
  { repeat constructor; simpl; intuition discriminate. }
  assert (P : ~ In "__proto__"%string (map fst obj)).
  { simpl; intuition discriminate. }
  destruct (stripUndefined_keeps_reads obj H P) as (_ & A & _ & _ & _ & B).
  split; [exact H|]. split; [exact P|].
  split; [reflexivity|]. split; [apply A|exact B].
Defined.

(** ** [toQueryString] *)

Lemma contains_app c a b :
  contains c (a ++ b) = contains c a || contains c b.
Proof.
  induction a as [|x a IH]; simpl; trivial. now rewrite IH, orb_assoc.
Qed.

Lemma percent_clean c :
  contains "&" (percent c) = false /\ contains "=" (percent c) = false.
Proof. destruct c as [[] [] [] [] [] [] [] []]; split; reflexivity. Qed.

Lemma unpercent_percent c :
  unpercent (hex_digit (N_of_ascii c / 16)) (hex_digit (N_of_ascii c mod 16))
  = c.
Proof. destruct c as [[] [] [] [] [] [] [] []]; reflexivity. Qed.

Lemma unreserved_clean c :
  unreserved c = true ->
  Ascii.eqb c "&" = false /\ Ascii.eqb c "=" = false
  /\ Ascii.eqb c "%" = false.
Proof.
  intro U. repeat split;
    match goal with |- Ascii.eqb c ?x = false =>
      destruct (Ascii.eqb_spec c x) as [->|]; [discriminate U|reflexivity]
    end.
Qed.

Lemma encode_clean v :
  contains "&" (encodeURIComponent v) = false
  /\ contains "=" (encodeURIComponent v) = false.
Proof.
  induction v as [|c r [IH1 IH2]]; simpl; [auto|].
  rewrite !contains_app, IH1, IH2, !orb_false_r.
  destruct (unreserved c) eqn:U.
  - destruct (unreserved_clean c U) as (A & B & _). simpl.
    now rewrite A, B.
  - apply percent_clean.
Qed.

Lemma encode_injective a : forall b,
  encodeURIComponent a = encodeURIComponent b -> a = b.
Proof.
  induction a as [|x a IH]; intros [|y b]; simpl; trivial.
  - destruct (unreserved y); discriminate.
  - destruct (unreserved x); discriminate.
  - destruct (unreserved x) eqn:Ux, (unreserved y) eqn:Uy; simpl; intro E.
    + injection E as -> E. now rewrite (IH b E).
    + injection E as -> _. discriminate Ux.
    + injection E as <- _. discriminate Uy.
    + injection E as H L E.
      pose proof (unpercent_percent x) as Px.
      pose proof (unpercent_percent y) as Py.
      rewrite H, L, Py in Px. subst y. now rewrite (IH b E).
Qed.

Lemma split_clean sep v :
  contains sep v = false -> split_on sep v = [v].
Proof.
  induction v as [|a r IH]; simpl; trivial.
  intro H. apply orb_false_iff in H as [-> H]. now rewrite IH.
Qed.

Lemma split_app sep v rest :
  contains sep v = false ->
  split_on sep (v ++ String sep rest) = v :: split_on sep rest.
Proof.
  induction v as [|a r IH]; simpl.
  - intros _. now rewrite Ascii.eqb_refl.
  - intro H. apply orb_false_iff in H as [-> H]. now rewrite IH.
Qed.

Lemma split_concat sep (parts : list string) :
  parts <> [] ->
  Forall (fun p => contains sep p = false) parts ->
  split_on sep (String.concat (String sep EmptyString) parts) = parts.
Proof.
  induction parts as [|p [|p' ps] IH]; intros N F; [contradiction| |].
  - simpl. apply split_clean. now inversion F.
  - inversion F as [|? ? Hp F']; subst.
    change (String.concat (String sep EmptyString) (p :: p' :: ps))
      with (p ++ String sep (String.concat (String sep EmptyString)
                               (p' :: ps)))%string.
    rewrite split_app by trivial. f_equal. apply IH; [discriminate|trivial].
Qed.

Lemma cut_app sep v rest :
  contains sep v = false -> cut_at sep (v ++ String sep rest) = (v, rest).
Proof.
  induction v as [|a r IH]; simpl.
  - intros _. now rewrite Ascii.eqb_refl.
  - intro H. apply orb_false_iff in H as [-> H]. now rewrite IH.
Qed.

Lemma parts_clean kvs :
  Forall (fun p => contains "&" p = false) (map part kvs).
Proof.
  apply Forall_forall. intros p I. apply in_map_iff in I as (kv & <- & _).
  unfold part. rewrite !contains_app. simpl.
  destruct (encode_clean (fst kv)) as [-> _].
  now destruct (encode_clean (snd kv)) as [-> _].
Qed.

Lemma cut_part kv :
  cut_at "=" (part kv)
  = (encodeURIComponent (fst kv), encodeURIComponent (snd kv)).
Proof. unfold part. apply cut_app. apply encode_clean. Qed.

Lemma toQueryString_shape params :
  defined params <> [] ->
  toQueryString params
  = String "?" (String.concat "&" (map part (defined params))).
Proof.
  unfold toQueryString. destruct (defined params); [contradiction|reflexivity].
Qed.

Lemma parts_injective a : forall b, map part a = map part b -> a = b.
Proof.
  induction a as [|[k v] a IH]; intros [|[k' v'] b]; simpl; try discriminate;
    trivial.
  intro E. injection E as E1 E2.
  assert (C : cut_at "=" (part (k, v)) = cut_at "=" (part (k', v')))
    by now rewrite E1.
  rewrite !cut_part in C. simpl in C. injection C as Ck Cv.
  apply encode_injective in Ck, Cv. subst. now rewrite (IH b E2).
Qed.

(** X12. [toQueryString] returns the empty string exactly when no parameter
    is defined. Otherwise the result is "?" followed by one
    [key=value] piece per defined parameter, in order: splitting what
    follows the "?" at "&" and each piece at its first "=" gives back the
    encoded keys and values, because [encodeURIComponent] never produces
    "&" or "=". Two parameter lists with the same query string have the
    same defined parameters. *)
Theorem toQueryString_reads_back :
  forall params : list (string * QueryValue),
    (toQueryString params = EmptyString <-> defined params = [])
    /\ (defined params <> [] ->
        exists q,
          toQueryString params = String "?" q
          /\ map (cut_at "=") (split_on "&" q)
             = map (fun kv => (encodeURIComponent (fst kv),
                               encodeURIComponent (snd kv)))
                 (defined params))
    /\ (forall params',
          toQueryString params = toQueryString params' ->
          defined params = defined params').
Proof.
  intro params.
  assert (R : forall ps, defined ps <> [] ->
            map (cut_at "=")
              (split_on "&" (String.concat "&" (map part (defined ps))))
            = map (fun kv => (encodeURIComponent (fst kv),
                              encodeURIComponent (snd kv))) (defined ps)).
  { intros ps N. rewrite split_concat.
    - rewrite map_map. apply map_ext. apply cut_part.
    - destruct (defined ps); [contradiction|discriminate].
    - apply parts_clean. }
  split; [|split].
  - unfold toQueryString. destruct (defined params); split; trivial;
      discriminate.
  - intro N. eexists. split; [now apply toQueryString_shape|]. now apply R.
  - intros params' E.
    destruct (defined params) as [|kv kvs] eqn:D,
             (defined params') as [|kv' kvs'] eqn:D'; trivial.
    + unfold toQueryString in E. rewrite D, D' in E. discriminate.
    + unfold toQueryString in E. rewrite D, D' in E. discriminate.
    + rewrite <- D, <- D' in *.
      assert (N : defined params <> []) by (rewrite D; discriminate).
      assert (N' : defined params' <> []) by (rewrite D'; discriminate).
      rewrite (toQueryString_shape params N),
              (toQueryString_shape params' N') in E.
      injection E as E.
      apply parts_injective.
      rewrite <- (split_concat "&" (map part (defined params))),
              <- (split_concat "&" (map part (defined params')));
        try apply parts_clean.
      * now rewrite E.
      * rewrite D'. discriminate.
      * rewrite D. discriminate.
Qed.

Lemma toQueryString_reads_back_witness :
  let params := [("limit"%string, QNumber 50);
                 ("before"%string, QUndefined);
                 ("around"%string, QString "a&b=c")] in
  defined params <> []
  /\ toQueryString params = "?limit=50&around=a%26b%3Dc"%string
  /\ exists q,
       toQueryString params = String "?" q
       /\ map (cut_at "=") (split_on "&" q)
          = [("limit"%string, "50"%string);
             ("around"%string, "a%26b%3Dc"%string)].
Proof.
  intro params.
  assert (N : defined params <> []) by discriminate.
  split; [exact N|]. split; [reflexivity|].
  destruct (toQueryString_reads_back params) as (_ & H & _).
  exact (H N).
Defined.

(** ** Request helpers *)

Section RequestFacts.
Variable JSON_parse : string -> option Json.

(** X13. What the four request helpers do with a response. Without
    [throwOnNonSuccess] (the default) no status makes them throw: the
    status-only helpers return the status, whatever it is, and the others
    parse the body. With [throwOnNonSuccess] they return in the same way for
    a status from 200 to 299, and for every other status all four throw the
    same error, which carries the response text unchanged: a rate-limit
    error exactly for 429, a not-found error exactly for 404, a forbidden
    error exactly for 403, and otherwise the general error with the
    status. The status-only helpers never fail on a body that is not
    JSON. *)
Theorem request_outcomes :
  forall (throwOnNonSuccess : bool) (res : Response),
    let err := _throwForStatus JSON_parse (status res) (text res) in
    (throwOnNonSuccess = false \/ (200 <= status res <= 299)%Z ->
       _requestS JSON_parse throwOnNonSuccess res = Returns (status res)
       /\ _request JSON_parse throwOnNonSuccess res = Returns (status res)
       /\ _requestRS JSON_parse throwOnNonSuccess res
          = parse_body JSON_parse (text res)
       /\ _requestR JSON_parse throwOnNonSuccess res
          = parse_body JSON_parse (text res))
    /\ (throwOnNonSuccess = true ->
        ~ (200 <= status res <= 299)%Z ->
        _requestS JSON_parse throwOnNonSuccess res = Throws err
        /\ _request JSON_parse throwOnNonSuccess res = Throws err
        /\ _requestRS JSON_parse throwOnNonSuccess res = Throws err
        /\ _requestR JSON_parse throwOnNonSuccess res = Throws err)
    /\ error_body err = Some (text res)
    /\ ((exists m r, err = FluxorRateLimitError m (text res) r)
        <-> status res = 429%Z)
    /\ ((exists m, err = FluxorNotFoundError m (text res))
        <-> status res = 404%Z)
    /\ ((exists m, err = FluxorForbiddenError m (text res))
        <-> status res = 403%Z)
    /\ (status res <> 429%Z -> status res <> 404%Z -> status res <> 403%Z ->
        exists m, err = FluxorApiError m (status res) (text res)).
Proof.
  intros throwOn res err.
  assert (Hok : ok res = true <-> (200 <= status res <= 299)%Z).
  { unfold ok. rewrite andb_true_iff, !Z.leb_le. tauto. }
  split; [|split].
  - intros H. unfold _requestS, _request, _requestRS, _requestR.
    replace (throwOn && negb (ok res)) with false; [auto|].
    destruct H as [->|H]; trivial.
    apply Hok in H. rewrite H. now destruct throwOn.
  - intros -> H. unfold _requestS, _request, _requestRS, _requestR.
    destruct (ok res) eqn:O; [exfalso; apply H, Hok; reflexivity|].
    simpl. auto.
  - subst err. unfold _throwForStatus.
    destruct (Z.eqb_spec (status res) 429) as [E429|N429];
      [|destruct (Z.eqb_spec (status res) 404) as [E404|N404];
        [|destruct (Z.eqb_spec (status res) 403) as [E403|N403]]];
      simpl; (split; [reflexivity|]);
      repeat split; intros;
      repeat match goal with
        | H : exists _, _ |- _ => destruct H
        end;
      try discriminate; try lia; try contradiction; eauto.
Qed.

(** X14. The delay a rate-limit error asks for: 1000 times the
    [retry_after] of the body when the body is JSON with a numeric
    [retry_after], and 1000 ms in every other case (a body that is not
    JSON, is not an object, or has no numeric [retry_after]). *)
Theorem rate_limit_retry_after :
  forall body : string,
    exists retryAfter,
      _throwForStatus JSON_parse 429 body
      = FluxorRateLimitError "Rate limited" body retryAfter
      /\ (forall parsed n,
            JSON_parse body = Some parsed ->
            prop "retry_after" parsed = JNum n ->
            retryAfter = (n * 1000)%Z)
      /\ (JSON_parse body = None -> retryAfter = 1000%Z)
      /\ (forall parsed,
            JSON_parse body = Some parsed ->
            (forall n, prop "retry_after" parsed <> JNum n) ->
            retryAfter = 1000%Z).
Proof.
  intro body. unfold _throwForStatus. simpl.
  eexists. split; [reflexivity|]. split; [|split].
  - intros parsed n -> ->. reflexivity.
  - intros ->. reflexivity.
  - intros parsed -> H.
    destruct (prop "retry_after" parsed) eqn:P; trivial.
    now contradiction (H n).
Qed.

End RequestFacts.

Lemma request_outcomes_witness :
  let parse := fun _ : string => @None Json in
  let res := {| status := 404%Z; text := "{}"%string |} in
  (~ (200 <= status res <= 299)%Z)
  /\ _requestS parse true res
     = Throws (FluxorNotFoundError "Not found" "{}")
  /\ _requestS parse false res = Returns 404%Z.
Proof.
  intros parse res.
  assert (N : ~ (200 <= status res <= 299)%Z) by (simpl; lia).
  split; [exact N|].
  destruct (request_outcomes parse true res) as (_ & T & _).
  destruct (request_outcomes parse false res) as (F & _).
  destruct (T eq_refl N) as (A & _).
  destruct (F (or_introl eq_refl)) as (B & _).
  split; [exact A|exact B].
Defined.

Lemma rate_limit_retry_after_witness :
  let parse := fun body : string =>
                 if String.eqb body "<three seconds>"
                 then Some (JObj [("retry_after"%string, JNum 3)])
                 else None in
  _throwForStatus parse 429 "<three seconds>"
  = FluxorRateLimitError "Rate limited" "<three seconds>" 3000
  /\ _throwForStatus parse 429 "oops"
     = FluxorRateLimitError "Rate limited" "oops" 1000.
Proof.
  intro parse.
  destruct (rate_limit_retry_after parse "<three seconds>")
    as (r & E & H & _).
  destruct (rate_limit_retry_after parse "oops") as (r' & E' & _ & H' & _).
  rewrite E, E'.
  rewrite (H (JObj [("retry_after"%string, JNum 3)]) 3%Z eq_refl eq_refl).
  now rewrite (H' eq_refl).
Defined.

End ApiFacts.

(** * The console logger *)

Module LoggerFacts.
Import Logger.



End LoggerFacts.
